(** * VBridge: entity-graph paths, cutoff-time propagation, feature
    post-processing and what-if explanations.

    A shallow embedding of
    - [vbridge/utils/entityset_helpers.py]
      ([find_path], [transfer_cutoff_times], [get_records]),
    - [vbridge/featurization/feature.py]
      ([Featurization.merge_features],
       [Featurization.remove_uninterpretable_features],
       [Featurization._generate_features]),
    - [vbridge/router/resources/feature_explanation.py]
      ([get_what_if_shap_values]),
    - the other helpers of [vbridge/utils/entityset_helpers.py]
      ([remove_nan_entries], [get_forward_entities]),
    - [vbridge/router/resources/patient.py] ([get_temporal]) with the
      [get_cutoff_times] of the mortality tasks,
    - [vbridge/utils/feature_helpers.py] ([get_leaves],
      [get_relevant_entity_id], [get_relevant_column_id],
      [get_feature_description], [group_features_by_where_item],
      [group_features_by_entity]),
    - [vbridge/featurization/primitive/age_range.py] ([age_range]),
    followed by the properties of these functions.

    Python values are modelled as follows.  A call either returns a value
    or raises an exception ([outcome]); loops that Python runs until a
    condition fails are given a fuel argument, and each such function comes
    with a lemma showing that the fuel it is started with never runs out.
    pandas frames are lists of labelled rows; featuretools and pandas
    operations used by the source are external to the repository and are
    modelled from their documented behaviour, next to the function that
    uses them.  The repository requires featuretools 1.27 or later, where
    the attribute [child_column] of a relationship is the column itself, a
    Series, and no longer its name. *)

From Stdlib Require Import List String Ascii ZArith Bool Lia Arith PeanoNat.
From Stdlib Require Import Floats.
Import ListNotations.

Local Open Scope string_scope.
Local Open Scope list_scope.

(** A decimal float literal denotes the nearest binary64 value, as it does
    in Python. *)
Set Warnings "-inexact-float".

(** ** Python outcomes *)

Module Py.

(** The exception classes the modelled code can raise.  [ValueError]
    carries its message. *)
Inductive exn : Type :=
| KeyError
| ValueError (msg : string)
| TypeError
| AttributeError
| IndexError.

Definition exn_name (e : exn) : string :=
  match e with
  | KeyError => "KeyError"
  | ValueError _ => "ValueError"
  | TypeError => "TypeError"
  | AttributeError => "AttributeError"
  | IndexError => "IndexError"
  end.

(** [OutOfFuel] is an artefact of the embedding of [while] loops. *)
Inductive outcome (A : Type) : Type :=
| Ok (a : A)
| Raise (e : exn)
| OutOfFuel.

Arguments Ok {A} a.
Arguments Raise {A} e.
Arguments OutOfFuel {A}.

Definition bind {A B} (m : outcome A) (k : A -> outcome B) : outcome B :=
  match m with
  | Ok a => k a
  | Raise e => Raise e
  | OutOfFuel => OutOfFuel
  end.

(** [list.pop()]: removes and returns the last element. *)
Fixpoint pop {A} (l : list A) : option (list A * A) :=
  match l with
  | [] => None
  | x :: l' =>
      match pop l' with
      | None => Some ([], x)
      | Some (init, y) => Some (x :: init, y)
      end
  end.

(** [l[-1]] for a list known to be non-empty; [[]] stands for the
    [IndexError] case, which the callers below never reach. *)
Definition last_path (paths : list (list string)) : list string :=
  last paths [].

End Py.

Export Py.

Notation "x <- m ;; k" := (bind m (fun x => k))
  (at level 61, m at next level, right associativity).

(** ** Entity sets *)

(** A featuretools relationship, as [add_relationship] records it: each
    row of the child dataframe references one row of the parent dataframe
    through the column [child_column_name].  The fields are names:
    [parent_dataframe r] and [child_dataframe r] stand for
    [r.parent_dataframe.ww.name] and [r.child_dataframe.ww.name].  What
    featuretools 1 returns for [r.child_column] is not a name but the
    column itself, see [Cutoff.child_column]. *)
Record Relationship : Type := mkRelationship {
  parent_dataframe : string;
  parent_column_name : string;
  child_dataframe : string;
  child_column_name : string
}.

(** ** Path resolution: [find_path] *)

Module Path.

(** The part of an entity set path resolution reads: the relationships in
    insertion order. *)
Definition graph := list Relationship.

(** featuretools' [EntitySet.get_backward_dataframes(name)] (not deep):
    one entry per relationship whose parent is [name], in relationship
    order; the source keeps the dataframe name of each entry. *)
Definition get_backward_dataframes (g : graph) (name : string) : list string :=
  map child_dataframe
      (filter (fun r => String.eqb (parent_dataframe r) name) g).

(** featuretools' [EntitySet.get_forward_dataframes(name)] (not deep): one
    entry per relationship whose child is [name]. *)
Definition get_forward_dataframes (g : graph) (name : string) : list string :=
  map parent_dataframe
      (filter (fun r => String.eqb (child_dataframe r) name) g).

(** [child_nodes = backward_nodes + forward_nodes] *)
Definition child_nodes (g : graph) (parent_node : string) : list string :=
  get_backward_dataframes g parent_node ++ get_forward_dataframes g parent_node.

(** [parent_dict]: a Python dict from entity name to its discovery parent
    ([None] for the target).  Keys are unique; the bindings are listed
    newest first. *)
Definition parent_dict := list (string * option string).

Definition dict_mem (k : string) (d : parent_dict) : bool :=
  existsb (fun kv => String.eqb (fst kv) k) d.

Fixpoint dict_get (d : parent_dict) (k : string) : option (option string) :=
  match d with
  | [] => None
  | (k', v) :: d' => if String.eqb k' k then Some v else dict_get d' k
  end.

(** The [for child in child_nodes] loop. *)
Fixpoint expand (parent_node : string) (children : list string)
         (nodes_pipe : list string) (d : parent_dict)
  : list string * parent_dict :=
  match children with
  | [] => (nodes_pipe, d)
  | child :: rest =>
      if dict_mem child d
      then expand parent_node rest nodes_pipe d
      else expand parent_node rest (nodes_pipe ++ [child])
                  ((child, Some parent_node) :: d)
  end.

(** The first [while] loop.  [None] means the fuel ran out. *)
Fixpoint search (g : graph) (source_entity : string) (fuel : nat)
         (nodes_pipe : list string) (d : parent_dict) : option parent_dict :=
  match fuel with
  | O => None
  | S fuel' =>
      match pop nodes_pipe with
      | None => Some d
      | Some (nodes_pipe', parent_node) =>
          if String.eqb parent_node source_entity then Some d
          else
            let '(pipe2, d2) :=
              expand parent_node (child_nodes g parent_node) nodes_pipe' d in
            search g source_entity fuel' pipe2 d2
      end
  end.

(** The second [while] loop.  A lookup of a missing key raises [KeyError].
    If the value found were [None], Python would append [None] to the path
    and fail with [KeyError] at the next lookup, [None] never being a key. *)
Fixpoint walk (d : parent_dict) (target_entity : string) (fuel : nat)
         (node : string) (paths : list (list string))
  : outcome (list (list string)) :=
  if String.eqb node target_entity then Ok paths
  else
    match fuel with
    | O => OutOfFuel
    | S fuel' =>
        match dict_get d node with
        | None => Raise KeyError
        | Some None => Raise KeyError
        | Some (Some p) =>
            walk d target_entity fuel' p (paths ++ [last_path paths ++ [p]])
        end
    end.

(** The entity names known to the graph. *)
Definition entity_names (g : graph) : list string :=
  flat_map (fun r => [parent_dataframe r; child_dataframe r]) g.

(** Every entity name the search can meet. *)
Definition all_names (g : graph) (target_entity : string) : list string :=
  target_entity :: entity_names g.

Definition search_fuel (g : graph) (target_entity : string) : nat :=
  2 + 2 * List.length (all_names g target_entity).

Definition find_path (g : graph) (source_entity target_entity : string)
  : outcome (list (list string)) :=
  match search g source_entity (search_fuel g target_entity)
               [target_entity] [(target_entity, None)] with
  | None => OutOfFuel
  | Some d => walk d target_entity (List.length d) source_entity [[source_entity]]
  end.

(** *** Specification vocabulary *)

(** Two entities are adjacent when a relationship links them, in either
    direction. *)
Definition adjacent (g : graph) (a b : string) : Prop := In b (child_nodes g a).

Definition adjacentb (g : graph) (a b : string) : bool :=
  existsb (String.eqb b) (child_nodes g a).

(** [connected g a b]: [b] is reachable from [a] over adjacent entities. *)
Inductive connected (g : graph) (a : string) : string -> Prop :=
| conn_refl : connected g a a
| conn_step b c : connected g a b -> adjacent g b c -> connected g a c.

(** [linked g p]: every entity of [p] is among the [child_nodes] of the
    entity that follows it. *)
Fixpoint linked (g : graph) (p : list string) : bool :=
  match p with
  | a :: ((b :: _) as rest) => adjacentb g b a && linked g rest
  | _ => true
  end.

(** [is_path g p s t]: [p] goes from [s] to [t] along relationships. *)
Definition is_path (g : graph) (p : list string) (s t : string) : bool :=
  match p with
  | [] => false
  | a :: _ => String.eqb a s && String.eqb (last p "") t && linked g p
  end.

(** Number of hops of a path. *)
Definition hops (p : list string) : nat := pred (List.length p).

(** The non-empty prefixes of a list, shortest first. *)
Fixpoint prefixes {A} (l : list A) : list (list A) :=
  match l with
  | [] => []
  | x :: l' => [x] :: map (cons x) (prefixes l')
  end.

(** *** Search invariants *)

(** The entities of [U] not yet in the dictionary. *)
Definition undiscovered (U : list string) (d : parent_dict) : nat :=
  List.length (filter (fun x => negb (dict_mem x d)) U).

(** The dictionaries the search can build: the target bound to [None], then
    entities bound one at a time to an already known entity they are adjacent
    to. *)
Inductive discovered (g : graph) (t : string) : parent_dict -> Prop :=
| disc_root : discovered g t [(t, None)]
| disc_child d p c :
    discovered g t d ->
    dict_mem p d = true -> dict_mem c d = false ->
    In c (child_nodes g p) ->
    discovered g t ((c, Some p) :: d).

(** [closed g d]: every neighbour of a key of [d] is a key of [d]. *)
Definition closed (g : graph) (d : parent_dict) : Prop :=
  forall x, dict_mem x d = true ->
  forall y, In y (child_nodes g x) -> dict_mem y d = true.

(** The loop invariant: the pipe holds discovered entities, and an entity
    that has left the pipe has had all its neighbours discovered. *)
Definition search_inv (g : graph) (t : string) (pipe : list string)
           (d : parent_dict) : Prop :=
  discovered g t d /\
  (forall x, In x pipe -> dict_mem x d = true) /\
  (forall x, dict_mem x d = true ->
     In x pipe \/ forall y, In y (child_nodes g x) -> dict_mem y d = true).

(** *** Sample graphs *)

Definition rel (parent child : string) : Relationship :=
  mkRelationship parent "ID" child (String.append parent "_ID").

(** [S] is a child of both [A] and [C]; [T] is two hops away through [A]
    and three hops away through [B] and [C]. *)
Definition ring_graph : graph :=
  [rel "T" "A"; rel "T" "B"; rel "B" "C"; rel "C" "S"; rel "A" "S"].

(** Two components. *)
Definition split_graph : graph :=
  [rel "PATIENTS" "ADMISSIONS"; rel "D_ITEMS" "CHARTEVENTS"].

(** The schema of the specification's end-to-end scenario. *)
Definition chain_graph : graph :=
  [rel "PATIENTS" "ADMISSIONS"; rel "ADMISSIONS" "LABEVENTS"].

End Path.

(** ** pandas frames *)

Module Frame.

(** A cell or an index label.  [VTime] is a timestamp in seconds; [VNaN]
    stands for every missing value ([NaN], [NaT], [None]).  A column is
    taken to be homogeneous apart from missing values, as a pandas dtype
    makes it. *)
Inductive value : Type :=
| VInt (z : Z)
| VStr (s : string)
| VTime (t : Z)
| VNaN.

(** Python's [==] between scalars: a missing value equals nothing. *)
Definition value_eqb (a b : value) : bool :=
  match a, b with
  | VInt x, VInt y => Z.eqb x y
  | VStr x, VStr y => String.eqb x y
  | VTime x, VTime y => Z.eqb x y
  | _, _ => false
  end.

(** Matching of index labels: as [value_eqb], but a missing label matches
    a missing label. *)
Definition label_eqb (a b : value) : bool :=
  match a, b with
  | VNaN, VNaN => true
  | _, _ => value_eqb a b
  end.

(** A row: its index label and its cells by column name. *)
Record Row : Type := mkRow {
  label : value;
  cells : list (string * value)
}.

(** A frame: the column names in order, and the rows in order.  In a
    well-formed frame every row has one cell per column; a cell that is
    absent reads as missing. *)
Record DataFrame : Type := mkFrame {
  columns : list string;
  rows : list Row
}.

Fixpoint assoc {A} (k : string) (l : list (string * A)) : option A :=
  match l with
  | [] => None
  | (k', v) :: l' => if String.eqb k' k then Some v else assoc k l'
  end.

Definition cell (r : Row) (c : string) : value :=
  match assoc c (cells r) with
  | Some v => v
  | None => VNaN
  end.

(** [c in df.columns] *)
Definition has_column (df : DataFrame) (c : string) : bool :=
  existsb (String.eqb c) (columns df).

(** [df.index] *)
Definition index (df : DataFrame) : list value := map label (rows df).

(** [df[c].values]; [KeyError] when there is no such column. *)
Definition column_values (df : DataFrame) (c : string) : outcome (list value) :=
  if has_column df c then Ok (map (fun r => cell r c) (rows df))
  else Raise KeyError.

(** [df[c]] as a series: label and value of every row. *)
Definition series (df : DataFrame) (c : string)
  : outcome (list (value * value)) :=
  if has_column df c then Ok (map (fun r => (label r, cell r c)) (rows df))
  else Raise KeyError.

(** [df[mask]] for a boolean mask computed row by row. *)
Definition select (df : DataFrame) (keep : Row -> bool) : DataFrame :=
  mkFrame (columns df) (filter keep (rows df)).

(** The rows carrying one label. *)
Definition rows_at (df : DataFrame) (l : value) : list Row :=
  filter (fun r => label_eqb (label r) l) (rows df).

(** [df.loc[labels]] for a list of labels: for each requested label in
    turn, the rows carrying it; [KeyError] if a requested label is carried
    by no row. *)
Fixpoint loc_rows (df : DataFrame) (labels : list value) : outcome (list Row) :=
  match labels with
  | [] => Ok []
  | l :: rest =>
      match rows_at df l with
      | [] => Raise KeyError
      | found => tl <- loc_rows df rest ;; Ok (found ++ tl)
      end
  end.

Definition loc (df : DataFrame) (labels : list value) : outcome DataFrame :=
  rs <- loc_rows df labels ;; Ok (mkFrame (columns df) rs).

(** [df.index = labels]: [ValueError] unless there is one label per row. *)
Definition set_index_labels (df : DataFrame) (labels : list value)
  : outcome DataFrame :=
  if Nat.eqb (List.length labels) (List.length (rows df))
  then Ok (mkFrame (columns df)
                   (map (fun lr => mkRow (fst lr) (cells (snd lr)))
                        (combine labels (rows df))))
  else Raise (ValueError "Length mismatch").

Fixpoint lookup_label (l : value) (s : list (value * value)) : option value :=
  match s with
  | [] => None
  | (l', v) :: s' => if label_eqb l' l then Some v else lookup_label l s'
  end.

Fixpoint labels_eqb (a b : list value) : bool :=
  match a, b with
  | [], [] => true
  | x :: a', y :: b' => label_eqb x y && labels_eqb a' b'
  | _, _ => false
  end.

Fixpoint unique_labels (ls : list value) : bool :=
  match ls with
  | [] => true
  | l :: rest => negb (existsb (label_eqb l) rest) && unique_labels rest
  end.

(** Replaces the cell [c] of a row, or adds it after the others. *)
Fixpoint set_assoc (c : string) (v : value) (l : list (string * value))
  : list (string * value) :=
  match l with
  | [] => [(c, v)]
  | (c', v') :: l' =>
      if String.eqb c' c then (c', v) :: l' else (c', v') :: set_assoc c v l'
  end.

Definition set_cell (c : string) (r : Row) (v : value) : Row :=
  mkRow (label r) (set_assoc c v (cells r)).

Fixpoint set_cells (c : string) (rs : list Row) (vs : list value) : list Row :=
  match rs, vs with
  | r :: rs', v :: vs' => set_cell c r v :: set_cells c rs' vs'
  | _, _ => []
  end.

(** The values of a series brought to the index of a frame: taken as they
    are when the two indexes are identical; otherwise looked up label by
    label, a label the series lacks giving a missing value, which pandas
    refuses to do ([ValueError]) when the series repeats a label. *)
Definition align (df : DataFrame) (s : list (value * value))
  : outcome (list value) :=
  if labels_eqb (map fst s) (index df) then Ok (map snd s)
  else if unique_labels (map fst s)
       then Ok (map (fun r => match lookup_label (label r) s with
                              | Some v => v
                              | None => VNaN
                              end) (rows df))
       else Raise (ValueError "cannot reindex on an axis with duplicate labels").

(** [df[c] = s] for a series [s].  A frame without rows first takes the
    index of a non-empty series. *)
Definition assign_column (df : DataFrame) (c : string)
           (s : list (value * value)) : outcome DataFrame :=
  let cols := if has_column df c then columns df else columns df ++ [c] in
  match rows df, s with
  | [], _ :: _ =>
      Ok (mkFrame cols (map (fun lv => mkRow (fst lv) [(c, snd lv)]) s))
  | _, _ =>
      vs <- align df s ;;
      Ok (mkFrame cols (set_cells c (rows df) vs))
  end.

Fixpoint remove_assoc (c : string) (l : list (string * value))
  : list (string * value) :=
  match l with
  | [] => []
  | (c', v) :: l' =>
      if String.eqb c' c then remove_assoc c l' else (c', v) :: remove_assoc c l'
  end.

(** An entity set: its dataframes by name and its relationships. *)
Record EntitySet : Type := mkEntitySet {
  dataframes : list (string * DataFrame);
  relationships : list Relationship
}.

(** [entityset[name]] *)
Definition es_get (es : EntitySet) (name : string) : outcome DataFrame :=
  match assoc name (dataframes es) with
  | Some df => Ok df
  | None => Raise KeyError
  end.

(** The entity set with the dataframe [name] replaced by [df]. *)
Definition es_set (es : EntitySet) (name : string) (df : DataFrame) : EntitySet :=
  mkEntitySet ((name, df) :: dataframes es) (relationships es).

End Frame.

(** ** Record selection: [get_records] *)

Module Records.
Import Frame.

(** [entity[time_index] <= cutoff_time], one cell: a timestamp compares, a
    missing value compares false, anything else is a [TypeError] (pandas
    decides this by the dtype of the column, the model cell by cell). *)
Definition le_cutoff (cutoff_time : Z) (v : value) : outcome bool :=
  match v with
  | VTime t => Ok (Z.leb t cutoff_time)
  | VNaN => Ok false
  | _ => Raise TypeError
  end.

(** The boolean mask over the rows of a frame, from a fallible test. *)
Fixpoint mask_rows (test : Row -> outcome bool) (rs : list Row)
  : outcome (list Row) :=
  match rs with
  | [] => Ok []
  | r :: rest =>
      b <- test r ;;
      tl <- mask_rows test rest ;;
      Ok (if b then r :: tl else tl)
  end.

Definition get_records (es : EntitySet) (subject_id : value)
           (entity_id : string) (time_index : option string)
           (cutoff_time : option Z) : outcome DataFrame :=
  entity <- es_get es entity_id ;;
  let entity_df :=
    if has_column entity "SUBJECT_ID"
    then select entity (fun r => value_eqb (cell r "SUBJECT_ID") subject_id)
    else entity in
  match cutoff_time, time_index with
  | Some ct, Some ti =>
      if has_column entity_df ti
      then rs <- mask_rows (fun r => le_cutoff ct (cell r ti)) (rows entity_df) ;;
           Ok (mkFrame (columns entity_df) rs)
      else Raise KeyError
  | _, _ => Ok entity_df
  end.

(** *** Sample data: laboratory events of two patients *)

Definition lab_row (id subject charttime value : Z) : Row :=
  mkRow (VInt id)
        [("ROW_ID", VInt id); ("SUBJECT_ID", VInt subject);
         ("CHARTTIME", VTime charttime); ("VALUENUM", VInt value)].

Definition lab_columns : list string :=
  ["ROW_ID"; "SUBJECT_ID"; "CHARTTIME"; "VALUENUM"].

Definition hour : Z := 3600.

(** Admission at time 0; cutoff 48 hours later. *)
Definition lab_rows : list Row :=
  [lab_row 1 10 (2 * hour) 7; lab_row 2 11 (3 * hour) 9;
   lab_row 3 10 (48 * hour) 5].

Definition late_row : Row := lab_row 4 10 (49 * hour) 99.

Definition lab_es (rs : list Row) : EntitySet :=
  mkEntitySet [("LABEVENTS", mkFrame lab_columns rs)] Path.chain_graph.

End Records.

(** ** Cutoff-time propagation: [transfer_cutoff_times] *)

Module Cutoff.
Import Frame.

(** *** pandas operations used by the propagation *)

(** Order of group keys ([groupby] sorts them): numbers, then timestamps,
    then strings. *)
Definition value_rank (v : value) : nat :=
  match v with
  | VInt _ => 0
  | VTime _ => 1
  | VStr _ => 2
  | VNaN => 3
  end.

Definition value_leb (a b : value) : bool :=
  match a, b with
  | VInt x, VInt y => Z.leb x y
  | VTime x, VTime y => Z.leb x y
  | VStr x, VStr y => String.leb x y
  | _, _ => Nat.leb (value_rank a) (value_rank b)
  end.

(** Insertion into a list kept in ascending order. *)
Fixpoint insert_key (k : value) (ks : list value) : list value :=
  match ks with
  | [] => [k]
  | k' :: rest =>
      if value_leb k k' then k :: ks else k' :: insert_key k rest
  end.

Definition sort_keys (ks : list value) : list value :=
  fold_right insert_key [] ks.

(** The values that are not missing, each once. *)
Fixpoint distinct_keys (vals : list value) : list value :=
  match vals with
  | [] => []
  | VNaN :: rest => distinct_keys rest
  | v :: rest =>
      if existsb (label_eqb v) rest then distinct_keys rest
      else v :: distinct_keys rest
  end.

(** The distinct keys of a grouping column in ascending order; rows whose
    key is missing belong to no group. *)
Definition group_keys (vals : list value) : list value :=
  sort_keys (distinct_keys vals).

(** The value a cell of the [time] column is ordered by; a missing value
    is skipped, a string cannot be ordered. *)
Definition time_key (v : value) : outcome (option Z) :=
  match v with
  | VTime t => Ok (Some t)
  | VInt z => Ok (Some z)
  | VNaN => Ok None
  | VStr _ => Raise TypeError
  end.

(** Labels and time keys of the rows of one group, rows without a time
    left out. *)
Fixpoint group_times (rs : list Row) : outcome (list (value * Z)) :=
  match rs with
  | [] => Ok []
  | r :: rest =>
      k <- time_key (cell r "time") ;;
      tl <- group_times rest ;;
      Ok (match k with
          | Some t => (label r, t) :: tl
          | None => tl
          end)
  end.

(** The label of the first entry that is best under [better]. *)
Fixpoint idx_best (better : Z -> Z -> bool) (members : list (value * Z))
         (best : value * Z) : value :=
  match members with
  | [] => fst best
  | (l, t) :: rest =>
      if better t (snd best) then idx_best better rest (l, t)
      else idx_best better rest best
  end.

(** The label [idxmax] (or [idxmin]) gives for one group, from the labels
    and times of its rows that have a time.  For a group whose times are
    all missing pandas 2 gives a missing label, with a warning that later
    versions will raise instead. *)
Definition idx_group (better : Z -> Z -> bool) (members : list (value * Z))
  : value :=
  match members with
  | [] => VNaN
  | m :: rest => idx_best better rest m
  end.

(** [df.groupby(key).time.idxmax().values] once the group key of every
    row is known (with [Z.ltb] the other way round, [idxmin]): per group,
    in key order, the label of the first row whose time is extreme. *)
Fixpoint idx_groups (better : Z -> Z -> bool) (keyed : list (value * Row))
         (keys : list value) : outcome (list value) :=
  match keys with
  | [] => Ok []
  | k :: rest =>
      ms <- group_times
              (map snd (filter (fun kr => value_eqb (fst kr) k) keyed)) ;;
      tl <- idx_groups better keyed rest ;;
      Ok (idx_group better ms :: tl)
  end.

(** [df.groupby(key).time.idxmax().values] for a Series [key]: [groupby]
    brings the values of [key] to the index of [df] (see [align]); they
    are the group keys of the rows, and a row whose key is missing belongs
    to no group.  The attribute [time] of the grouped frame is its column
    of that name. *)
Definition groupby_time_idx (better : Z -> Z -> bool) (df : DataFrame)
           (key : list (value * value)) : outcome (list value) :=
  group_of <- align df key ;;
  if negb (has_column df "time") then Raise AttributeError
  else idx_groups better (combine group_of (rows df)) (group_keys group_of).

(** [later t best]: the time [t] replaces the best time so far in
    [idxmax]; [earlier t best]: it does in [idxmin]. *)
Definition later (t best : Z) : bool := Z.ltb best t.
Definition earlier (t best : Z) : bool := Z.ltb t best.

Definition idxmax := groupby_time_idx later.
Definition idxmin := groupby_time_idx earlier.

(** [df.set_index(key, drop=True)] for a Series [key]: the values of
    [key] become the labels, row by row; no column is dropped, which
    [drop] does for keys that are column labels.  [ValueError] unless
    [key] has one value per row. *)
Definition set_index (df : DataFrame) (key : list (value * value))
  : outcome DataFrame :=
  set_index_labels df (map snd key).

(** The label of a column that a value is, if it is one.  Column labels
    are strings. *)
Definition column_label (df : DataFrame) (v : value) : option string :=
  match v with
  | VStr c => if has_column df c then Some c else None
  | _ => None
  end.

(** [df[key]] for a Series [key] (not a boolean one): pandas takes the
    values of [key] for column labels and selects these columns, in the
    order of [key]; [KeyError] when a value of [key] is not the label of a
    column.  The frame selected is given by its column labels. *)
Fixpoint getitem (df : DataFrame) (key : list value) : outcome (list string) :=
  match key with
  | [] => Ok []
  | v :: rest =>
      match column_label df v with
      | Some c => cs <- getitem df rest ;; Ok (c :: cs)
      | None => Raise KeyError
      end
  end.

(** [df.loc[a]] for the array [a] that [.values] gives for a frame: the
    array has two dimensions, which [loc] refuses. *)
Definition loc_values (df : DataFrame) (selected : list string)
  : outcome DataFrame :=
  Raise (ValueError "Cannot index with multidimensional key").

(** [df[c] = selected[c]], one step of [df[key] = selected].  Where the
    label [c] occurs more than once in [selected], [selected[c]] is a frame
    of several columns, which pandas does not assign to one column. *)
Definition setitem_column (child_df : DataFrame) (selected : list string)
           (c : string) (df : DataFrame) : outcome DataFrame :=
  if Nat.ltb 1 (count_occ string_dec selected c)
  then Raise (ValueError
                (if has_column df c
                 then "Columns must be same length as key"
                 else String.append
                        "Cannot set a DataFrame with multiple columns to the single column "
                        c))
  else s <- series child_df c ;; assign_column df c s.

(** [df[key] = selected] for a Series [key] and the frame [selected] of
    the columns of [child_df] that the values of [key] name: column by
    column, in the order of [key].  The result is the frame after the
    statement, with the columns assigned before an exception, and the
    exception if there is one. *)
Fixpoint setitem (child_df : DataFrame) (selected : list string)
         (cs : list string) (df : DataFrame) : DataFrame * outcome unit :=
  match cs with
  | [] => (df, Ok tt)
  | c :: rest =>
      match setitem_column child_df selected c df with
      | Ok df' => setitem child_df selected rest df'
      | Raise e => (df, Raise e)
      | OutOfFuel => (df, OutOfFuel)
      end
  end.

(** *** The function *)

(** The object the local variable [cutoff_times] names: the frame the
    caller passed in, or a frame created during the call.  Assigning a
    column to the former changes the caller's frame. *)
Inductive obj : Type :=
| Caller
| Local (df : DataFrame).

Definition deref (caller : DataFrame) (o : obj) : DataFrame :=
  match o with
  | Caller => caller
  | Local df => df
  end.

(** The relationships between two entities, in either direction. *)
Definition options (es : EntitySet) (source target : string)
  : list Relationship :=
  filter (fun r =>
            (String.eqb (child_dataframe r) source
             && String.eqb (parent_dataframe r) target)
            || (String.eqb (parent_dataframe r) source
                && String.eqb (child_dataframe r) target))
         (relationships es).

(** [r.child_column]: with featuretools 1, the column of the child
    dataframe that refers to the parent, [r.child_dataframe.ww[name]]: a
    Series, not the name of the column. *)
Definition child_column (es : EntitySet) (r : Relationship)
  : outcome (list (value * value)) :=
  child_df <- es_get es (child_dataframe r) ;;
  series child_df (child_column_name r).

(** [entityset[r.child_dataframe.ww.name][r.child_column]], the expression
    lines 105 and 111 share: the child dataframe indexed by a Series of
    foreign keys.  It returns the child dataframe with the labels of the
    columns selected, which requires every foreign key to be the label of a
    column of the child dataframe. *)
Definition child_lookup (es : EntitySet) (r : Relationship)
  : outcome (DataFrame * list string) :=
  child_df <- es_get es (child_dataframe r) ;;
  key <- child_column es r ;;
  selected <- getitem child_df (map snd key) ;;
  Ok (child_df, selected).

(** The branch [target == r.child_dataframe.ww.name] (lines 105 to 107):
    every object it writes to is new. *)
Definition to_child (es : EntitySet) (r : Relationship) (ct : DataFrame)
  : outcome DataFrame :=
  found <- child_lookup es r ;;
  let child_df_index := snd found in
  sel <- loc_values ct child_df_index ;;
  child_df <- es_get es (child_dataframe r) ;;
  set_index_labels sel (index child_df).

(** The first statement of the branch [source ==
    r.child_dataframe.ww.name] (line 111): the right-hand side is evaluated
    first, then the assignment is made to the frame [cutoff_times] names.
    The result is that frame after the statement, and the exception if
    there is one. *)
Definition assign_child_column (es : EntitySet) (r : Relationship)
           (ct : DataFrame) : DataFrame * outcome unit :=
  match child_lookup es r with
  | Ok (child_df, selected) => setitem child_df selected selected ct
  | Raise e => (ct, Raise e)
  | OutOfFuel => (ct, OutOfFuel)
  end.

(** The rest of that branch (lines 112 to 119), on the frame after the
    assignment. *)
Definition reduce_to_parent (es : EntitySet) (r : Relationship)
           (reduce : string) (ct : DataFrame) : outcome DataFrame :=
  idx <- (if String.eqb reduce "latest"
          then key <- child_column es r ;; idxmax ct key
          else if String.eqb reduce "earist"
               then key <- child_column es r ;; idxmin ct key
               else Raise (ValueError "Unknown reduce option.")) ;;
  sel <- loc ct idx ;;
  key <- child_column es r ;;
  set_index sel key.

(** One iteration of the [for] loop.  The result is the caller's frame
    after the iteration, and the object [cutoff_times] then names or the
    exception raised. *)
Definition hop (es : EntitySet) (reduce source target : string)
           (caller : DataFrame) (ct : obj) : DataFrame * outcome obj :=
  match options es source target with
  | [] =>
      (caller,
       Raise (ValueError
                (String.append "No Relationship between "
                   (String.append source (String.append " and " target)))))
  | r :: _ =>
      if String.eqb target (child_dataframe r) then
        (caller, new <- to_child es r (deref caller ct) ;; Ok (Local new))
      else if String.eqb source (child_dataframe r) then
        let (assigned, done) := assign_child_column es r (deref caller ct) in
        (match ct with Caller => assigned | Local _ => caller end,
         bind done (fun _ =>
           new <- reduce_to_parent es r reduce assigned ;; Ok (Local new)))
      else (caller, Ok ct)
  end.

(** The [for] loop over the consecutive entities of the path. *)
Fixpoint hops (es : EntitySet) (reduce : string) (path : list string)
         (caller : DataFrame) (ct : obj) : DataFrame * outcome obj :=
  match path with
  | source :: ((target :: _) as rest) =>
      match hop es reduce source target caller ct with
      | (caller', Ok ct') => hops es reduce rest caller' ct'
      | failed => failed
      end
  | _ => (caller, Ok ct)
  end.

(** [transfer_cutoff_times(entityset, cutoff_times, source_entity,
    target_entity, reduce)]: the caller's frame after the call, and what
    the call returns. *)
Definition transfer_cutoff_times (es : EntitySet) (cutoff_times : DataFrame)
           (source_entity target_entity reduce : string)
  : DataFrame * outcome obj :=
  match Path.find_path (relationships es) source_entity target_entity with
  | Ok paths => hops es reduce (last_path paths) cutoff_times Caller
  | Raise e => (cutoff_times, Raise e)
  | OutOfFuel => (cutoff_times, OutOfFuel)
  end.

(** The frame a call returns, when it returns. *)
Definition returned (res : DataFrame * outcome obj) : outcome DataFrame :=
  o <- snd res ;; Ok (deref (fst res) o).

(** *** Specification vocabulary *)

(** [ordinary_keys es r]: the child dataframe of [r] has a foreign key
    that is not the label of one of its columns, as it does as soon as it
    has a row and its identifiers are not column names. *)
Definition ordinary_keys (es : EntitySet) (r : Relationship) : bool :=
  match es_get es (child_dataframe r) with
  | Ok child_df =>
      match series child_df (child_column_name r) with
      | Ok key =>
          existsb (fun v => match column_label child_df v with
                            | None => true
                            | Some _ => false
                            end) (map snd key)
      | _ => false
      end
  | _ => false
  end.

(** *** Sample data: two patients, three admissions *)

Definition t10 : Z := 10 * 3600.
Definition t12 : Z := 12 * 3600.
Definition t14 : Z := 14 * 3600.

Definition admissions : DataFrame :=
  mkFrame ["HADM_ID"; "SUBJECT_ID"]
    [mkRow (VInt 100) [("HADM_ID", VInt 100); ("SUBJECT_ID", VInt 1)];
     mkRow (VInt 101) [("HADM_ID", VInt 101); ("SUBJECT_ID", VInt 1)];
     mkRow (VInt 102) [("HADM_ID", VInt 102); ("SUBJECT_ID", VInt 2)]].

Definition patients : DataFrame :=
  mkFrame ["SUBJECT_ID"]
    [mkRow (VInt 1) [("SUBJECT_ID", VInt 1)];
     mkRow (VInt 2) [("SUBJECT_ID", VInt 2)]].

Definition hospital : EntitySet :=
  mkEntitySet [("PATIENTS", patients); ("ADMISSIONS", admissions)]
    [mkRelationship "PATIENTS" "SUBJECT_ID" "ADMISSIONS" "SUBJECT_ID"].

(** Cutoff times of the admissions: the two admissions of patient 1 at
    10:00 and 14:00, the admission of patient 2 at 12:00. *)
Definition admission_cutoffs : DataFrame :=
  mkFrame ["time"]
    [mkRow (VInt 100) [("time", VTime t10)];
     mkRow (VInt 101) [("time", VTime t14)];
     mkRow (VInt 102) [("time", VTime t12)]].

(** Cutoff times of the patients. *)
Definition patient_cutoffs : DataFrame :=
  mkFrame ["time"]
    [mkRow (VInt 1) [("time", VTime t10)];
     mkRow (VInt 2) [("time", VTime t12)]].

(** *** Sample data: foreign keys that are column labels *)

(** Alarms of a monitor.  An alarm refers to the vital sign that set it
    off, an item of the table of items, and carries the readings of both
    vital signs in columns named after the items. *)
Definition alarms : DataFrame :=
  mkFrame ["ALARM_ID"; "ITEM"; "HR"; "SBP"]
    [mkRow (VInt 1) [("ALARM_ID", VInt 1); ("ITEM", VStr "HR");
                     ("HR", VInt 140); ("SBP", VInt 110)];
     mkRow (VInt 2) [("ALARM_ID", VInt 2); ("ITEM", VStr "SBP");
                     ("HR", VInt 80); ("SBP", VInt 60)]].

Definition items : DataFrame :=
  mkFrame ["ITEM"]
    [mkRow (VStr "HR") [("ITEM", VStr "HR")];
     mkRow (VStr "SBP") [("ITEM", VStr "SBP")]].

Definition monitor : EntitySet :=
  mkEntitySet [("ITEMS", items); ("ALARMS", alarms)]
    [mkRelationship "ITEMS" "ITEM" "ALARMS" "ITEM"].

(** Cutoff times of the two alarms. *)
Definition alarm_cutoffs : DataFrame :=
  mkFrame ["time"]
    [mkRow (VInt 1) [("time", VTime t10)];
     mkRow (VInt 2) [("time", VTime t14)]].

End Cutoff.

(** ** Feature post-processing: [Featurization] *)

Module Features.
Import Frame.

(** A featuretools feature, as far as the source looks at it: its name;
    the entity it was generated from tells apart features of the same name
    that come from different sources. *)
Record Feature : Type := mkFeature {
  get_name : string;
  from_entity : string
}.

(** Python's [sub in s] on strings. *)
Fixpoint contains (sub s : string) : bool :=
  if String.prefix sub s then true
  else
    match s with
    | EmptyString => false
    | String _ s' => contains sub s'
    end.

(** [s.split(sep)[0]]: what precedes the first occurrence of [sep], all of
    [s] if there is none. *)
Fixpoint before (sep s : string) : string :=
  if String.prefix sep s then EmptyString
  else
    match s with
    | EmptyString => EmptyString
    | String a s' => String a (before sep s')
    end.

Definition WHERE : string := " WHERE ".

(** *** [remove_uninterpretable_features] *)

(** [where_prefix]; the source builds a set, of which only membership is
    used. *)
Definition where_prefix (cols : list string) : list string :=
  map (before WHERE) (filter (contains WHERE) cols).

(** The condition under which a column is listed in
    [uninterpretable_cols]. *)
Definition uninterpretable (cols : list string) (column : string) : bool :=
  existsb (fun prefix => contains prefix column) (where_prefix cols)
  && negb (contains WHERE column).

(** [fm.pop(column)]: removes every column of that name; [KeyError] if
    there is none. *)
Definition pop_column (fm : DataFrame) (column : string) : outcome DataFrame :=
  if has_column fm column
  then Ok (mkFrame (filter (fun c => negb (String.eqb c column)) (columns fm))
                   (map (fun r => mkRow (label r) (remove_assoc column (cells r)))
                        (rows fm)))
  else Raise KeyError.

Fixpoint pop_columns (fm : DataFrame) (cols : list string) : outcome DataFrame :=
  match cols with
  | [] => Ok fm
  | column :: rest => fm' <- pop_column fm column ;; pop_columns fm' rest
  end.

Definition remove_uninterpretable_features (fm : DataFrame) (fl : list Feature)
  : outcome (DataFrame * list Feature) :=
  let uninterpretable_cols :=
    filter (uninterpretable (columns fm)) (columns fm) in
  fm' <- pop_columns fm uninterpretable_cols ;;
  Ok (fm', filter (fun f => has_column fm' (get_name f)) fl).

(** The specification's reading of the condition: the column has no
    [WHERE] and its name is a prefix of the name of a column that has. *)
Definition prefix_of_filtered (cols : list string) (column : string) : bool :=
  negb (contains WHERE column)
  && existsb (fun w => contains WHERE w && String.prefix column w) cols.

(** *** [merge_features] *)

(** The loop [for f in fl]. *)
Fixpoint merge_source (fm : DataFrame) (fl : list Feature)
         (acc : DataFrame * list Feature) : outcome (DataFrame * list Feature) :=
  match fl with
  | [] => Ok acc
  | f :: rest =>
      let col := get_name f in
      if has_column (fst acc) col then merge_source fm rest acc
      else
        s <- series fm col ;;
        feature_matrix <- assign_column (fst acc) col s ;;
        merge_source fm rest (feature_matrix, snd acc ++ [f])
  end.

(** The loop [for fm, fl in zip(fm_list, fl_list)]. *)
Fixpoint merge_sources (sources : list (DataFrame * list Feature))
         (acc : DataFrame * list Feature) : outcome (DataFrame * list Feature) :=
  match sources with
  | [] => Ok acc
  | (fm, fl) :: rest =>
      acc' <- merge_source fm fl acc ;; merge_sources rest acc'
  end.

(** [merge_features(fm_list, fl_list)].  [pd.DataFrame(fm_list[0])] is
    modelled as a frame of its own with the content of [fm_list[0]],
    which is all the returned value depends on. *)
Definition merge_features (fm_list : list DataFrame)
           (fl_list : list (list Feature))
  : outcome (DataFrame * list Feature) :=
  match fm_list, fl_list with
  | fm0 :: _, fl0 :: _ =>
      acc <- merge_sources (combine fm_list fl_list) (fm0, fl0) ;;
      feature_matrix <- loc (fst acc) (index fm0) ;;
      Ok (feature_matrix, snd acc)
  | _, _ => Raise IndexError
  end.

(** Source number [i] produces the feature [name]: the table has the
    column and, for every source but the first, whose table is taken
    whole, the descriptor list names it. *)
Definition produces (i : nat) (fm : DataFrame) (fl : list Feature)
           (name : string) : Prop :=
  has_column fm name = true /\ (i = 0 \/ In name (map get_name fl)).

(** *** Sample data *)

Definition unfiltered_name : string := "MEAN(LAB.VALUE)".
Definition filtered_name : string := "MEAN(LAB.VALUE) WHERE ITEM=Glucose".

(** The names featuretools gives the same two features. *)
Definition ft_unfiltered_name : string := "MEAN(LABEVENTS.VALUENUM)".
Definition ft_filtered_name : string :=
  "MEAN(LABEVENTS.VALUENUM WHERE ITEMID = 50912)".

Definition two_columns (a b : string) : DataFrame :=
  mkFrame [a; b]
    [mkRow (VInt 100) [(a, VInt 7); (b, VInt 5)];
     mkRow (VInt 101) [(a, VInt 8); (b, VInt 6)]].

Definition two_features (a b : string) : list Feature :=
  [mkFeature a "LABEVENTS"; mkFeature b "LABEVENTS"].

(** Two sources that both produce [X]. *)
Definition first_source : DataFrame :=
  mkFrame ["X"]
    [mkRow (VInt 100) [("X", VInt 1)]; mkRow (VInt 101) [("X", VInt 2)]].

Definition second_source : DataFrame :=
  mkFrame ["X"; "Y"]
    [mkRow (VInt 100) [("X", VInt 30); ("Y", VInt 40)];
     mkRow (VInt 101) [("X", VInt 31); ("Y", VInt 41)]].

End Features.

(** ** What-if explanations: [get_what_if_shap_values] *)

Module WhatIf.

(** A cell of the feature matrix: a number of a numeric column, as the
    binary64 float Python holds ([NaN] included), or a value of a column
    of another dtype. *)
Inductive fcell : Type :=
| Num (x : float)
| Obj (s : string).

(** A row of the feature matrix, or of a matrix of perturbed copies: its
    label and its cells by column name. *)
Record FRow : Type := mkFRow {
  flabel : string;
  fcells : list (string * fcell)
}.

(** The feature matrix: its columns, each with whether its dtype is
    numeric, and its rows, labelled with instance ids.  A label is taken
    to occur once; [loc_row] reads the first row that carries it. *)
Record FeatureMatrix : Type := mkFeatureMatrix {
  fcolumns : list (string * bool);
  frows : list FRow
}.

Definition fassoc {A} := @Frame.assoc A.

(** The number in a cell; a cell without a number reads as [NaN]. *)
Definition num (c : option fcell) : float :=
  match c with
  | Some (Num x) => x
  | _ => nan
  end.

(** [fm.select_dtypes(include=[np.number]).columns] *)
Definition numeric_cols (fm : FeatureMatrix) : list string :=
  map fst (filter snd (fcolumns fm)).

(** The numbers of one column, row by row. *)
Definition column_numbers (fm : FeatureMatrix) (c : string) : list float :=
  map (fun r => num (fassoc c (fcells r))) (frows fm).

(** [fm.loc[direct_id]] as the list of its cells in column order. *)
Definition loc_row (fm : FeatureMatrix) (direct_id : string)
  : outcome (list (string * fcell)) :=
  match find (fun r => String.eqb (flabel r) direct_id) (frows fm) with
  | Some r =>
      Ok (map (fun c => (fst c, match fassoc (fst c) (fcells r) with
                                | Some v => v
                                | None => Num nan
                                end)) (fcolumns fm))
  | None => Raise KeyError
  end.

(** [frame.loc[feature, feature] = x] on the transposed matrix: in the
    row, every cell of the column [feature] becomes [x]. *)
Definition set_feature (feature : string) (x : float)
           (cells : list (string * fcell)) : list (string * fcell) :=
  map (fun kv => if String.eqb (fst kv) feature then (fst kv, Num x) else kv)
      cells.

(** [high_fm.T] and [low_fm.T]: one copy of the instance per feature,
    labelled with the feature and holding [bound feature] there. *)
Definition perturbed (target_fv : list (string * fcell))
           (bound : string -> float) (features : list string) : list FRow :=
  map (fun feature => mkFRow feature (set_feature feature (bound feature) target_fv))
      features.

(** The entry of one feature in the result. *)
Record Entry : Type := mkEntry {
  shap : float;
  prediction : float
}.

(** [shap_task]: a dict from feature name to entry, in insertion order. *)
Definition shap_map := list (string * Entry).

Fixpoint dict_set {A} (k : string) (v : A) (d : list (string * A))
  : list (string * A) :=
  match d with
  | [] => [(k, v)]
  | (k', v') :: d' =>
      if String.eqb k' k then (k', v) :: d' else (k', v') :: dict_set k v d'
  end.

(** What the function returns: the map of one target, or a map per
    target. *)
Inductive result : Type :=
| Single (m : shap_map)
| PerTarget (ms : list (string * shap_map)).

(** A call to the model manager, with the matrix submitted. *)
Inductive call : Type :=
| Explain (X : list FRow) (target : string)
| PredictProba (X : list FRow).

Definition submitted (c : call) : list FRow :=
  match c with
  | Explain X _ => X
  | PredictProba X => X
  end.

Section Engine.

(** pandas' column statistics [mean] and [std], which skip missing
    values; numeric routines outside the repository. *)
Variable agg_mean agg_std : list float -> float.

(** The model manager, as the function uses it:
    [model_manager.explain(X=X, target=target)], the lookup
    [explanations.loc[i, feature]] in what it returns,
    [model_manager.predict_proba(X=X)] and [model_manager.models.keys()]. *)
Variable explanation : Type.
Variable explain : list FRow -> string -> outcome explanation.
Variable explanation_loc : explanation -> nat -> string -> outcome float.
Variable predict_proba : list FRow -> outcome (list (string * list float)).
Variable model_names : list string.

(** [stat['low']] and [stat['high']] of a column. *)
Definition stat_mean (fm : FeatureMatrix) (c : string) : float :=
  agg_mean (column_numbers fm c).

Definition stat_std (fm : FeatureMatrix) (c : string) : float :=
  agg_std (column_numbers fm c).

Definition stat_low (fm : FeatureMatrix) (c : string) : float :=
  (stat_mean fm c - stat_std fm c * 1.96)%float.

Definition stat_high (fm : FeatureMatrix) (c : string) : float :=
  (stat_mean fm c + stat_std fm c * 1.96)%float.

(** [numeric_target_fv[numeric_target_fv > stat['high']].index] *)
Definition high_features (fm : FeatureMatrix)
           (target_fv : list (string * fcell)) : list string :=
  filter (fun c => PrimFloat.ltb (stat_high fm c) (num (fassoc c target_fv)))
         (numeric_cols fm).

(** [numeric_target_fv[numeric_target_fv < stat['low']].index] *)
Definition low_features (fm : FeatureMatrix)
           (target_fv : list (string * fcell)) : list string :=
  filter (fun c => PrimFloat.ltb (num (fassoc c target_fv)) (stat_low fm c))
         (numeric_cols fm).

(** The loop [for i, feature in enumerate(features)]. *)
Fixpoint record_entries (explanations : explanation)
         (predictions : list float) (i : nat) (features : list string)
         (shap_task : shap_map) : outcome shap_map :=
  match features with
  | [] => Ok shap_task
  | feature :: rest =>
      sv <- explanation_loc explanations i feature ;;
      p <- match nth_error predictions i with
           | Some p => Ok p
           | None => Raise IndexError
           end ;;
      record_entries explanations predictions (S i) rest
                     (dict_set feature (mkEntry sv p) shap_task)
  end.

(** The body of [if len(features) > 0]: the perturbed copies are
    submitted to [explain], then to [predict_proba], and the entries
    recorded.  The calls made are appended to the log. *)
Definition rescore (target : string) (X : list FRow) (features : list string)
           (shap_task : shap_map) (log : list call)
  : list call * outcome shap_map :=
  match explain X target with
  | Ok explanations =>
      (log ++ [Explain X target; PredictProba X],
       scores <- predict_proba X ;;
       predictions <- match fassoc target scores with
                      | Some ps => Ok ps
                      | None => Raise KeyError
                      end ;;
       record_entries explanations predictions 0 features shap_task)
  | Raise e => (log ++ [Explain X target], Raise e)
  | OutOfFuel => (log ++ [Explain X target], OutOfFuel)
  end.

(** One iteration of [for target in targets]. *)
Definition explain_target (fm : FeatureMatrix)
           (target_fv : list (string * fcell)) (target : string)
           (log : list call) : list call * outcome shap_map :=
  let hs := high_features fm target_fv in
  let ls := low_features fm target_fv in
  let after_high :=
    match hs with
    | [] => (log, Ok [])
    | _ => rescore target (perturbed target_fv (stat_high fm) hs) hs [] log
    end in
  match after_high with
  | (log1, Ok shap_task) =>
      match ls with
      | [] => (log1, Ok shap_task)
      | _ => rescore target (perturbed target_fv (stat_low fm) ls) ls
                     shap_task log1
      end
  | failed => failed
  end.

(** What the [except] clause returns, [target] being the value of the
    variable when the exception is raised. *)
Definition on_exception (target : option string) : result :=
  match target with
  | Some _ => Single []
  | None => PerTarget (map (fun t => (t, [])) model_names)
  end.

(** The loop over the targets and the statements after it.  The loop
    assigns to the variable [target], so that after a loop of at least one
    iteration [target] is not [None]: [last] is its value.  An exception
    in iteration [target] reaches the [except] clause with that value. *)
Fixpoint over_targets (fm : FeatureMatrix) (target_fv : list (string * fcell))
         (targets : list string) (shap_values : list (string * shap_map))
         (last : option string) (log : list call) : list call * result :=
  match targets with
  | [] =>
      (log,
       match last with
       | Some t =>
           match fassoc t shap_values with
           | Some m => Single m
           | None => on_exception last
           end
       | None => PerTarget shap_values
       end)
  | target :: rest =>
      match explain_target fm target_fv target log with
      | (log', Ok shap_task) =>
          over_targets fm target_fv rest
                       (dict_set target shap_task shap_values)
                       (Some target) log'
      | (log', _) => (log', on_exception (Some target))
      end
  end.

(** [get_what_if_shap_values(fm, model_manager, direct_id, target)]: the
    calls made to the model manager, in order, and the value returned. *)
Definition get_what_if_shap_values (fm : FeatureMatrix) (direct_id : string)
           (target : option string) : list call * result :=
  let targets := match target with
                 | None => model_names
                 | Some t => [t]
                 end in
  match numeric_cols fm with
  | [] => ([], on_exception target)
  | _ =>
      match loc_row fm direct_id with
      | Ok target_fv => over_targets fm target_fv targets [] target []
      | _ => ([], on_exception target)
      end
  end.

(** *** Specification vocabulary *)

(** The keys of the returned mapping. *)
Definition explained (res : result) : list string :=
  match res with
  | Single m => map fst m
  | PerTarget ms => flat_map (fun tm => map fst (snd tm)) ms
  end.

(** [clamped fm target_fv row]: the row, labelled with a numeric feature
    [f], holds the high boundary of [f] where the instance is above it,
    or the low boundary where the instance is below it, and the
    instance's own cell in every other column. *)
Definition clamped (fm : FeatureMatrix) (target_fv : list (string * fcell))
           (row : FRow) : Prop :=
  let f := flabel row in
  In f (numeric_cols fm) /\
  ((PrimFloat.ltb (stat_high fm f) (num (fassoc f target_fv)) = true /\
    fassoc f (fcells row) = Some (Num (stat_high fm f))) \/
   (PrimFloat.ltb (num (fassoc f target_fv)) (stat_low fm f) = true /\
    fassoc f (fcells row) = Some (Num (stat_low fm f)))) /\
  forall c, c <> f -> fassoc c (fcells row) = fassoc c target_fv.

(** Every matrix submitted so far is the matrix of the copies perturbed at
    the high boundary or the one of the copies perturbed at the low
    boundary. *)
Definition log_ok (fm : FeatureMatrix) (target_fv : list (string * fcell))
           (log : list call) : Prop :=
  forall c, In c log ->
    submitted c
      = perturbed target_fv (stat_high fm) (high_features fm target_fv) \/
    submitted c
      = perturbed target_fv (stat_low fm) (low_features fm target_fv).

(** The features of a map lie outside their reference interval. *)
Definition keys_ok (fm : FeatureMatrix) (target_fv : list (string * fcell))
           (m : shap_map) : Prop :=
  forall k, In k (map fst m) ->
    In k (high_features fm target_fv) \/ In k (low_features fm target_fv).

End Engine.

(** *** Sample data: the example of the specification *)

(** Stand-ins for the statistics of a reference population of mean 10 and
    standard deviation 2. *)
Definition mean10 (xs : list float) : float := 10%float.
Definition std2 (xs : list float) : float := 2%float.

(** A model manager with one model, whose answers do not matter here. *)
Definition toy_explain (X : list FRow) (target : string) : outcome unit := Ok tt.
Definition toy_loc (e : unit) (i : nat) (feature : string) : outcome float :=
  Ok 0.5%float.
Definition toy_predict (X : list FRow) : outcome (list (string * list float)) :=
  Ok [("mortality", map (fun _ => 0.25%float) X)].

(** Two instances; the first has a heart rate of 20 and an age of 11. *)
Definition toy_fm : FeatureMatrix :=
  mkFeatureMatrix [("HR", true); ("AGE", true); ("GENDER", false)]
    [mkFRow "100" [("HR", Num 20); ("AGE", Num 11); ("GENDER", Obj "F")];
     mkFRow "101" [("HR", Num 9); ("AGE", Num 10); ("GENDER", Obj "M")]].

Definition toy_what_if : list call * result :=
  get_what_if_shap_values mean10 std2 unit toy_explain toy_loc toy_predict
                          ["mortality"] toy_fm "100" (Some "mortality").

(** *** Sample data: statistics computed from the columns *)

(** The mean and the sample standard deviation of a column without
    missing values, computed in binary64 the way pandas does: the sum over
    the count, and the square root of the sum of the squared deviations
    from the mean over the count less one. *)
Definition float_sum (xs : list float) : float :=
  fold_left PrimFloat.add xs 0%float.

Definition float_count (xs : list float) : float :=
  fold_left (fun n _ => (n + 1)%float) xs 0%float.

Definition float_mean (xs : list float) : float :=
  (float_sum xs / float_count xs)%float.

Definition float_std (xs : list float) : float :=
  let m := float_mean xs in
  PrimFloat.sqrt (float_sum (map (fun x => ((m - x) * (m - x))%float) xs)
                  / (float_count xs - 1))%float.

(** Six instances.  The heart rates have mean 11 and the ages mean 9,
    both with variance 6: the heart rate 16 of instance 100 is above the
    high boundary of the heart rates, and its age 4 is below the low
    boundary of the ages. *)
Definition cohort_fm : FeatureMatrix :=
  mkFeatureMatrix [("HR", true); ("AGE", true); ("GENDER", false)]
    [mkFRow "100" [("HR", Num 16); ("AGE", Num 4); ("GENDER", Obj "F")];
     mkFRow "101" [("HR", Num 10); ("AGE", Num 10); ("GENDER", Obj "M")];
     mkFRow "102" [("HR", Num 10); ("AGE", Num 10); ("GENDER", Obj "F")];
     mkFRow "103" [("HR", Num 10); ("AGE", Num 10); ("GENDER", Obj "M")];
     mkFRow "104" [("HR", Num 10); ("AGE", Num 10); ("GENDER", Obj "F")];
     mkFRow "105" [("HR", Num 10); ("AGE", Num 10); ("GENDER", Obj "M")]].

Definition cohort_fv : list (string * fcell) :=
  [("HR", Num 16); ("AGE", Num 4); ("GENDER", Obj "F")].

(** The copy of instance 100 with the heart rate at its high boundary,
    and the copy with the age at its low boundary. *)
Definition hr_at_high : FRow :=
  mkFRow "HR" [("HR", Num (11 + PrimFloat.sqrt 6 * 1.96)); ("AGE", Num 4);
               ("GENDER", Obj "F")].

Definition age_at_low : FRow :=
  mkFRow "AGE" [("HR", Num 16); ("AGE", Num (9 - PrimFloat.sqrt 6 * 1.96));
                ("GENDER", Obj "F")].

Definition cohort_what_if : list call * result :=
  get_what_if_shap_values float_mean float_std unit toy_explain toy_loc
                          toy_predict ["mortality"] cohort_fm "100"
                          (Some "mortality").

(** A constant column: three instances with the same dose, 0.1 scaled by
    a power of two.  The sum of the three doses is rounded, so that the
    mean computed differs from the dose in its last bit; the squared
    deviations underflow to zero, and so does the standard deviation. *)
Definition dose : float := (0.1 * 0x1p-500)%float.

(** The rate is constant as well; the mean computed for it is the rate. *)
Definition constant_fm : FeatureMatrix :=
  mkFeatureMatrix [("DOSE", true); ("RATE", true)]
    [mkFRow "100" [("DOSE", Num dose); ("RATE", Num 10)];
     mkFRow "101" [("DOSE", Num dose); ("RATE", Num 10)];
     mkFRow "102" [("DOSE", Num dose); ("RATE", Num 10)]].

Definition constant_what_if : list call * result :=
  get_what_if_shap_values float_mean float_std unit toy_explain toy_loc
                          toy_predict ["mortality"] constant_fm "100"
                          (Some "mortality").

(** A matrix of one instance: the sample standard deviation of a single
    value is undefined. *)
Definition single_fm : FeatureMatrix :=
  mkFeatureMatrix [("HR", true)] [mkFRow "100" [("HR", Num 20)]].

Definition single_what_if : list call * result :=
  get_what_if_shap_values float_mean float_std unit toy_explain toy_loc
                          toy_predict ["mortality"] single_fm "100"
                          (Some "mortality").

End WhatIf.

(** ** Order of binary64 floats *)

Module FloatOrder.

(** A sum or difference with a zero compares as its other operand. *)
Definition same_order (r x : spec_float) : Prop :=
  forall v, SFcompare r v = SFcompare x v /\ SFcompare v r = SFcompare v x.

End FloatOrder.

(** ** Cutoff-time propagation: the check for a missing relationship *)

Module CutoffErrors.

(** The exception of the check [if len(options) == 0]. *)
Definition no_relationship (source target : string) : exn :=
  ValueError (String.append "No Relationship between "
                (String.append source (String.append " and " target))).

(** [quiet o]: the outcome [o] is not a [ValueError] whose message starts
    as that of the check does. *)
Definition quiet {A} (o : outcome A) : Prop :=
  forall msg, o = Raise (ValueError msg) ->
              String.prefix "No Relationship" msg = false.

End CutoffErrors.

(** ** What-if explanations: the calls to the model manager *)

Module WhatIfCalls.
Import WhatIf.

(** [paired log]: every call to [predict_proba] comes directly after a call
    to [explain] on the same matrix. *)
Definition paired (log : list call) : Prop :=
  forall i X, nth_error log i = Some (PredictProba X) ->
  exists j t, i = S j /\ nth_error log j = Some (Explain X t).

(** A model manager with two models. *)
Definition two_models : list string := ["readmission"; "mortality"].

Definition two_predict (X : list FRow) : outcome (list (string * list float)) :=
  Ok [("readmission", map (fun _ => 0.75%float) X);
      ("mortality", map (fun _ => 0.25%float) X)].

Definition two_what_if (target : option string) : list call * result :=
  get_what_if_shap_values mean10 std2 unit toy_explain toy_loc two_predict
                          two_models toy_fm "100" target.

End WhatIfCalls.

(** ** Loading and traversal helpers: [remove_nan_entries],
    [get_forward_entities] *)

Module Entities.
Import Frame.

(** The loop of [remove_nan_entries]: for each key column in turn,
    [df = df[df[column] == df[column]]].  A missing value is the only one
    that differs from itself; [df[column]] raises [KeyError] when the frame
    has no such column. *)
Fixpoint drop_missing (df : DataFrame) (key_columns : list string)
  : outcome DataFrame :=
  match key_columns with
  | [] => Ok df
  | column :: rest =>
      if has_column df column
      then drop_missing
             (select df (fun r => value_eqb (cell r column) (cell r column)))
             rest
      else Raise KeyError
  end.

(** [remove_nan_entries(df, key_columns, verbose)]: the frame returned and,
    when [verbose], the two numbers printed: rows pruned and rows read. *)
Definition remove_nan_entries (df : DataFrame) (key_columns : list string)
           (verbose : bool) : outcome (DataFrame * option (nat * nat)) :=
  let n_row := List.length (rows df) in
  out <- drop_missing df key_columns ;;
  Ok (out, if verbose then Some (n_row - List.length (rows out), n_row)
           else None).

(** The [while] loop of [get_forward_entities]: the first entity of the
    pipe is taken out and recorded, and its parents are put at the end of
    the pipe, whether or not they have been met before. *)
Fixpoint forward_loop (g : Path.graph) (fuel : nat)
         (entity_id_pipe ids : list string) : outcome (list string) :=
  match entity_id_pipe with
  | [] => Ok ids
  | entity_id :: pipe =>
      match fuel with
      | O => OutOfFuel
      | S fuel' =>
          forward_loop g fuel'
                       (pipe ++ Path.get_forward_dataframes g entity_id)
                       (ids ++ [entity_id])
      end
  end.

(** [get_forward_entities(entityset, entity_id)].  The loop has no bound of
    its own: the fuel is an argument. *)
Definition get_forward_entities (g : Path.graph) (entity_id : string)
           (fuel : nat) : outcome (list string) :=
  forward_loop g fuel [entity_id] [].

(** [forward g a b]: [b] is [a] or is reached from [a] by going from child
    to parent. *)
Inductive forward (g : Path.graph) (a : string) : string -> Prop :=
| forward_refl : forward g a a
| forward_step b c :
    forward g a b -> In c (Path.get_forward_dataframes g b) -> forward g a c.

(** The number of iterations the loop spends on an entity of depth at most
    [n]: one, and those spent on each of its parents. *)
Fixpoint forward_cost (g : Path.graph) (n : nat) (x : string) : nat :=
  match n with
  | O => 1
  | S n' => S (list_sum (map (forward_cost g n')
                             (Path.get_forward_dataframes g x)))
  end.

(** *** Sample data *)

(** Admissions with a missing patient identifier and a missing index. *)
Definition raw_admissions : DataFrame :=
  mkFrame ["HADM_ID"; "SUBJECT_ID"]
    [mkRow (VInt 0) [("HADM_ID", VInt 100); ("SUBJECT_ID", VInt 1)];
     mkRow (VInt 1) [("HADM_ID", VInt 101); ("SUBJECT_ID", VNaN)];
     mkRow (VInt 2) [("HADM_ID", VNaN); ("SUBJECT_ID", VInt 2)];
     mkRow (VInt 3) [("HADM_ID", VInt 103); ("SUBJECT_ID", VInt 2)]].

(** Two entities, each the parent of the other. *)
Definition loop_graph : Path.graph := [Path.rel "A" "B"; Path.rel "B" "A"].

Definition chain_rank (name : string) : nat :=
  if String.eqb name "PATIENTS" then 0
  else if String.eqb name "ADMISSIONS" then 1 else 2.

End Entities.

(** ** Patient records: [get_temporal] and the tasks' [get_cutoff_times] *)

Module Patient.
Import Frame Records.

(** The part of a [Task] the functions read; [entity_configs] gives, for
    each configured entity, its [time_index] entry if it has one. *)
Record Task : Type := mkTask {
  target_entity : string;
  backward_entities : list string;
  entity_configs : list (string * option string)
}.

(** [df.loc[l][c]] and [df.loc[l, c]], followed by [.iloc[0]] when what is
    found is a series, that is when several rows carry the label: the cell
    of the first of them. *)
Definition first_at (df : DataFrame) (l : value) (c : string) : outcome value :=
  match rows_at df l with
  | [] => Raise KeyError
  | r :: _ => if has_column df c then Ok (cell r c) else Raise KeyError
  end.

(** [df.fillna(v)] *)
Definition fillna (v : value) (df : DataFrame) : DataFrame :=
  mkFrame (columns df)
    (map (fun r =>
            mkRow (label r)
                  (map (fun c => (c, match cell r c with
                                     | VNaN => v
                                     | x => x
                                     end)) (columns df)))
         (rows df)).

(** [get_records(es, subject_id, entity_id, time_index,
    cutoff_time=cutoff_time)] with the cutoff time read from the [time]
    column of the cutoff frame, a datetime column: a timestamp, or [NaT],
    which is not [None] and is greater or equal to nothing.  Another kind
    of value cannot be compared with the time index. *)
Definition records_until (es : EntitySet) (subject_id : value)
           (entity_id : string) (time_index : option string)
           (cutoff_time : value) : outcome DataFrame :=
  match cutoff_time with
  | VTime t => get_records es subject_id entity_id time_index (Some t)
  | _ =>
      entity_df <- get_records es subject_id entity_id None None ;;
      match time_index with
      | None => Ok entity_df
      | Some ti =>
          if has_column entity_df ti
          then match cutoff_time with
               | VNaN => Ok (mkFrame (columns entity_df) [])
               | _ => Raise TypeError
               end
          else Raise KeyError
      end
  end.

(** The records of one entity, as handed to [to_csv]:
    [get_records(es, subject_id, entity_id,
    task.entity_configs[entity_id].get('time_index', None),
    cutoff_time=cutoff_time).fillna('N/A')]. *)
Definition records_of (es : EntitySet) (task : Task)
           (subject_id cutoff_time : value) (entity_id : string)
  : outcome DataFrame :=
  match assoc entity_id (entity_configs task) with
  | None => Raise KeyError
  | Some time_index =>
      df <- records_until es subject_id entity_id time_index cutoff_time ;;
      Ok (fillna (VStr "N/A") df)
  end.

(** The dict comprehension over [task.backward_entities]. *)
Fixpoint records_of_all (es : EntitySet) (task : Task)
         (subject_id cutoff_time : value) (entities : list string)
         (records : list (string * DataFrame))
  : outcome (list (string * DataFrame)) :=
  match entities with
  | [] => Ok records
  | entity_id :: rest =>
      df <- records_of es task subject_id cutoff_time entity_id ;;
      records_of_all es task subject_id cutoff_time rest
                     (WhatIf.dict_set entity_id df records)
  end.

(** What [get_temporal] returns, before the serialisation by [to_csv]:
    the records of one entity, or a dict from entity to records. *)
Inductive temporal : Type :=
| Records (df : DataFrame)
| RecordsByEntity (records : list (string * DataFrame)).

(** [get_temporal(es, task, direct_id, entity_id, cutoff_times)] *)
Definition get_temporal (es : EntitySet) (task : Task) (direct_id : value)
           (entity_id : option string) (cutoff_times : option DataFrame)
  : outcome temporal :=
  target_df <- es_get es (target_entity task) ;;
  subject_id <- first_at target_df direct_id "SUBJECT_ID" ;;
  ct <- match cutoff_times with
        | Some ct => Ok ct
        | None => Raise AttributeError
        end ;;
  cutoff_time <- first_at ct direct_id "time" ;;
  match entity_id with
  | None =>
      records <- records_of_all es task subject_id cutoff_time
                                (backward_entities task) [] ;;
      Ok (RecordsByEntity records)
  | Some entity_id =>
      df <- records_of es task subject_id cutoff_time entity_id ;;
      Ok (Records df)
  end.

(** [cutoff_time['time'] += timedelta(hours=hours)], one cell, timestamps
    being counted in seconds. *)
Definition add_hours (hours : Z) (v : value) : outcome value :=
  match v with
  | VTime t => Ok (VTime (t + hours * 3600))
  | VNaN => Ok VNaN
  | _ => Raise TypeError
  end.

Fixpoint cutoff_rows (hours : Z) (index_col time_col : string)
         (rs : list Row) : outcome (list Row) :=
  match rs with
  | [] => Ok []
  | r :: rest =>
      t <- add_hours hours (cell r time_col) ;;
      tl <- cutoff_rows hours index_col time_col rest ;;
      Ok (mkRow (label r) [("instance_id", cell r index_col); ("time", t)] :: tl)
  end.

(** [get_cutoff_times(es)] of the mortality tasks, whose target entity is
    [ADMISSIONS]; [index_col] and [time_col] are the entries [index] and
    [time_index] of the configuration of that entity, and [hours] the
    length of the window. *)
Definition get_cutoff_times (hours : Z) (index_col time_col : string)
           (es : EntitySet) : outcome DataFrame :=
  entity_df <- es_get es "ADMISSIONS" ;;
  if has_column entity_df index_col && has_column entity_df time_col
  then rs <- cutoff_rows hours index_col time_col (rows entity_df) ;;
       Ok (mkFrame ["instance_id"; "time"] rs)
  else Raise KeyError.

(** [mimic_48h_in_admission_mortality_task] adds 72 hours,
    [pic_48h_in_admission_mortality_task] 48. *)
Definition mimic_get_cutoff_times := get_cutoff_times 72.
Definition pic_get_cutoff_times := get_cutoff_times 48.

(** *** Sample data: one admission at time 0, laboratory events of two
    patients *)

Definition ward : EntitySet :=
  mkEntitySet
    [("ADMISSIONS",
      mkFrame ["HADM_ID"; "SUBJECT_ID"; "ADMITTIME"]
        [mkRow (VInt 100) [("HADM_ID", VInt 100); ("SUBJECT_ID", VInt 10);
                           ("ADMITTIME", VTime 0)]]);
     ("LABEVENTS", mkFrame lab_columns (lab_rows ++ [late_row]))]
    Path.chain_graph.

Definition ward_task : Task :=
  mkTask "ADMISSIONS" ["LABEVENTS"] [("LABEVENTS", Some "CHARTTIME")].

Definition ward_cutoffs : DataFrame :=
  mkFrame ["instance_id"; "time"]
    [mkRow (VInt 100) [("instance_id", VInt 100); ("time", VTime (48 * hour))]].

Definition ward_records : DataFrame :=
  mkFrame lab_columns
    [lab_row 1 10 (2 * hour) 7; lab_row 3 10 (48 * hour) 5].

End Patient.

(** ** Feature descriptions and their grouping: [feature_helpers] *)

Module Descriptors.

(** *** Features *)

(** A featuretools feature, as [feature_helpers] reads it: [get_name()],
    [primitive.name] ([None] for an identity feature), [dataframe_name],
    [column_name] (an attribute of identity features only), the name of
    the feature [where] when the instance has this attribute
    ([where_name]), and [base_features]. *)
#[local] Unset Elimination Schemes.
Inductive FeatureBase : Type :=
  mkFeatureBase (get_name : string) (primitive_name : option string)
                (dataframe_name : string) (column_name : option string)
                (where_name : option string) (base_features : list FeatureBase).
#[local] Set Elimination Schemes.

Definition get_name (f : FeatureBase) : string :=
  match f with mkFeatureBase n _ _ _ _ _ => n end.
Definition primitive_name (f : FeatureBase) : option string :=
  match f with mkFeatureBase _ p _ _ _ _ => p end.
Definition dataframe_name (f : FeatureBase) : string :=
  match f with mkFeatureBase _ _ d _ _ _ => d end.
Definition column_name (f : FeatureBase) : option string :=
  match f with mkFeatureBase _ _ _ c _ _ => c end.
Definition where_name (f : FeatureBase) : option string :=
  match f with mkFeatureBase _ _ _ _ w _ => w end.
Definition base_features (f : FeatureBase) : list FeatureBase :=
  match f with mkFeatureBase _ _ _ _ _ b => b end.

(** What a call raises: an exception of [Py], or the [UserWarning] the
    helpers raise themselves. *)
Inductive raised : Type :=
| Builtin (e : exn)
| UserWarning (msg : string).

Inductive attempt (A : Type) : Type :=
| Returns (a : A)
| Raises (r : raised).

Arguments Returns {A} a.
Arguments Raises {A} r.

Definition and_then {A B} (m : attempt A) (k : A -> attempt B) : attempt B :=
  match m with
  | Returns a => k a
  | Raises r => Raises r
  end.

(** [get_leaves(feature)] *)
Fixpoint get_leaves (feature : FeatureBase) : list FeatureBase :=
  match feature with
  | mkFeatureBase _ _ _ _ _ [] => [feature]
  | mkFeatureBase _ _ _ _ _ bases => flat_map get_leaves bases
  end.

(** [list(set(names))]: each name once.  The order Python gives the
    elements is not determined; the helpers use the list only when it has
    at most one element. *)
Fixpoint distinct (names : list string) : list string :=
  match names with
  | [] => []
  | n :: rest =>
      if existsb (String.eqb n) rest then distinct rest else n :: distinct rest
  end.

Definition multiple_entities : string :=
  "The system do not support features constructed with data from multiple entities. Will choose the first entity instead.".

Definition multiple_variables : string :=
  "The system do not support features constructed with data from multiple variables. Will choose the first variable instead.".

(** [get_relevant_entity_id(feature)] *)
Definition get_relevant_entity_id (feature : FeatureBase) : attempt string :=
  let leave_nodes := get_leaves feature in
  let entity_ids := distinct (map dataframe_name leave_nodes) in
  if Nat.ltb 1 (List.length entity_ids)
  then Raises (UserWarning multiple_entities)
  else match entity_ids with
       | e :: _ => Returns e
       | [] => Raises (Builtin IndexError)
       end.

(** [[leaf.column_name for leaf in leave_nodes]]: [AttributeError] for a
    leaf without the attribute. *)
Fixpoint leaf_columns (leave_nodes : list FeatureBase) : attempt (list string) :=
  match leave_nodes with
  | [] => Returns []
  | leaf :: rest =>
      match column_name leaf with
      | None => Raises (Builtin AttributeError)
      | Some c => and_then (leaf_columns rest) (fun cs => Returns (c :: cs))
      end
  end.

(** [get_relevant_column_id(feature, ignore_columns)] *)
Definition get_relevant_column_id (feature : FeatureBase)
           (ignore_columns : option (list string)) : attempt string :=
  let leave_nodes := get_leaves feature in
  and_then (leaf_columns leave_nodes) (fun names =>
  let column_ids := distinct names in
  let column_ids :=
    match ignore_columns with
    | None => column_ids
    | Some ignored =>
        filter (fun col => negb (existsb (String.eqb col) ignored)) column_ids
    end in
  if Nat.ltb 1 (List.length column_ids)
  then Raises (UserWarning multiple_variables)
  else match column_ids with
       | c :: _ => Returns c
       | [] => Raises (Builtin IndexError)
       end).

(** *** Descriptions *)

(** The dict under the key [item]; the key [itemAlias] is there only when
    an item dictionary was given, and its value may be [None]. *)
Record Item : Type := mkItem {
  item_columnId : string;
  itemId : string;
  itemAlias : option (option string)
}.

(** The dict describing a feature or a group.  A key that can be absent
    ([item], [parentId], [childrenIds]) is an option, [None] meaning that
    the dict does not have the key; a value that can be [None]
    ([primitive], [columnId], [alias], the value of [item]) is an option
    as well. *)
Record Info : Type := mkInfo {
  id : string;
  primitive : option string;
  entityId : string;
  columnId : option string;
  alias : option string;
  desc : string;
  item : option (option Item);
  parentId : option nat;
  childrenIds : option (list nat)
}.

(** [str.format] of a value that may be [None]. *)
Definition show (s : option string) : string :=
  match s with
  | Some s => s
  | None => "None"
  end.

(** ["{}({})".format(a, b)] *)
Definition call_string (a b : option string) : string :=
  String.append (show a) (String.append "(" (String.append (show b) ")")).

(** What follows the first occurrence of [sep] in [s], if there is one. *)
Fixpoint after (sep s : string) : option string :=
  if String.prefix sep s
  then Some (String.substring (String.length sep)
                              (String.length s - String.length sep) s)
  else
    match s with
    | EmptyString => None
    | String _ s' => after sep s'
    end.

(** [s.split(sep)[1]] *)
Definition split_second (sep s : string) : attempt string :=
  match after sep s with
  | None => Raises (Builtin IndexError)
  | Some rest => Returns (Features.before sep rest)
  end.

(** [get_feature_description(feature, item_dict, ignore_columns)];
    [item_dict] maps an entity to the labels of its items. *)
Definition get_feature_description (feature : FeatureBase)
           (item_dict : option (list (string * list (string * string))))
           (ignore_columns : option (list string)) : attempt Info :=
  let ignore_columns :=
    match ignore_columns with
    | None => ["CHARTTIME"; "chartime"]
    | Some ignored => ignored
    end in
  and_then (get_relevant_entity_id feature) (fun entityId =>
  and_then (get_relevant_column_id feature (Some ignore_columns))
           (fun columnId =>
  match where_name feature with
  | None =>
      Returns (mkInfo (get_name feature) (primitive_name feature) entityId
                      (Some columnId) (Some columnId) columnId None None None)
  | Some filter_name =>
      let item_columnId := Features.before " = " filter_name in
      and_then (split_second " = " filter_name) (fun itemId =>
      match item_dict with
      | None =>
          Returns (mkInfo (get_name feature) (primitive_name feature) entityId
                          (Some columnId) (primitive_name feature)
                          (call_string (primitive_name feature) (Some itemId))
                          (Some (Some (mkItem item_columnId itemId None)))
                          None None)
      | Some item_dict =>
          match Frame.assoc entityId item_dict with
          | None => Raises (Builtin AttributeError)
          | Some labels =>
              let itemAlias := Frame.assoc itemId labels in
              Returns (mkInfo (get_name feature) (primitive_name feature)
                              entityId (Some columnId) (primitive_name feature)
                              (call_string (primitive_name feature) itemAlias)
                              (Some (Some (mkItem item_columnId itemId
                                                  (Some itemAlias))))
                              None None)
          end
      end)
  end)).

(** *** Grouping *)

Fixpoint update_nth {A} (n : nat) (f : A -> A) (l : list A) : list A :=
  match l, n with
  | [], _ => []
  | a :: l', O => f a :: l'
  | a :: l', S n' => a :: update_nth n' f l'
  end.

Definition with_parent (p : nat) (f : Info) : Info :=
  mkInfo (id f) (primitive f) (entityId f) (columnId f) (alias f) (desc f)
         (item f) (Some p) (childrenIds f).

Definition with_children (l : list nat) (f : Info) : Info :=
  mkInfo (id f) (primitive f) (entityId f) (columnId f) (alias f) (desc f)
         (item f) (parentId f) (Some l).

(** [grouped_features[i]['parentId'] = p]; [i] is the position of a
    feature of the list being grouped, of which [grouped_features] holds a
    copy. *)
Definition set_parent (i p : nat) (grouped_features : list Info) : list Info :=
  update_nth i (with_parent p) grouped_features.

(** [group[key][0]['childrenIds'].append(i)], where [group[key]] is the
    pair of a group node and of the length [p] of [grouped_features] just
    after the node was appended to it: the node is the object at position
    [p - 1] of [grouped_features]. *)
Definition append_child (p i : nat) (grouped_features : list Info)
  : outcome (list Info) :=
  match nth_error grouped_features (p - 1) with
  | None => Raise IndexError
  | Some group_node =>
      match childrenIds group_node with
      | None => Raise KeyError
      | Some l =>
          Ok (update_nth (p - 1) (with_children (l ++ [i])) grouped_features)
      end
  end.

(** The loop of [group_features_by_where_item]; [i] counts the features
    met so far. *)
Fixpoint where_item_loop (features : list Info) (i : nat)
         (grouped_features : list Info) (where_item_group : list (string * nat))
  : outcome (list Info) :=
  match features with
  | [] => Ok grouped_features
  | f :: rest =>
      match parentId f, item f with
      | None, Some it =>
          match it with
          | None => Raise TypeError
          | Some it =>
              match Frame.assoc (itemId it) where_item_group with
              | Some p =>
                  grouped <- append_child p i grouped_features ;;
                  where_item_loop rest (S i) (set_parent i p grouped)
                                  where_item_group
              | None =>
                  match itemAlias it with
                  | None => Raise KeyError
                  | Some item_alias =>
                      let group_node :=
                        mkInfo (itemId it) None (entityId f) (columnId f)
                               item_alias (desc f) (item f) (parentId f)
                               (Some [i]) in
                      let grouped := grouped_features ++ [group_node] in
                      let p := List.length grouped in
                      where_item_loop rest (S i) (set_parent i p grouped)
                                      ((itemId it, p) :: where_item_group)
                  end
              end
          end
      | _, _ => where_item_loop rest (S i) grouped_features where_item_group
      end
  end.

(** [group_features_by_where_item(features)] *)
Definition group_features_by_where_item (features : list Info)
  : outcome (list Info) :=
  where_item_loop features 0 features [].

(** The loop of [group_features_by_entity]. *)
Fixpoint entity_loop (features : list Info) (i : nat)
         (grouped_features : list Info) (entity_group : list (string * nat))
  : outcome (list Info) :=
  match features with
  | [] => Ok grouped_features
  | f :: rest =>
      match parentId f with
      | Some _ => entity_loop rest (S i) grouped_features entity_group
      | None =>
          match Frame.assoc (entityId f) entity_group with
          | Some p =>
              grouped <- append_child p i grouped_features ;;
              entity_loop rest (S i) (set_parent i p grouped) entity_group
          | None =>
              let group_node :=
                mkInfo (entityId f) None (entityId f) None (Some (entityId f))
                       (desc f) (Some None) (parentId f) (Some [i]) in
              let grouped := grouped_features ++ [group_node] in
              let p := List.length grouped in
              entity_loop rest (S i) (set_parent i p grouped)
                          ((entityId f, p) :: entity_group)
          end
      end
  end.

(** [group_features_by_entity(features)] *)
Definition group_features_by_entity (features : list Info)
  : outcome (list Info) :=
  entity_loop features 0 features [].

(** *** Specification vocabulary *)

(** The key under which a feature is grouped, if it is: the item of a
    feature without parent that has one, and the entity of a feature
    without parent. *)
Definition where_key (f : Info) : option string :=
  match parentId f, item f with
  | None, Some (Some it) => Some (itemId it)
  | _, _ => None
  end.

Definition entity_key (f : Info) : option string :=
  match parentId f with
  | None => Some (entityId f)
  | Some _ => None
  end.

(** The group node made for the feature [f] at position [i]. *)
Definition where_node (f : Info) (i : nat) : Info :=
  match item f with
  | Some (Some it) =>
      mkInfo (itemId it) None (entityId f) (columnId f)
             (match itemAlias it with Some a => a | None => None end)
             (desc f) (item f) (parentId f) (Some [i])
  | _ => f
  end.

Definition entity_node (f : Info) (i : nat) : Info :=
  mkInfo (entityId f) None (entityId f) None (Some (entityId f))
         (desc f) (Some None) (parentId f) (Some [i]).

(** The loop the two functions share, for a key and a group node. *)
Fixpoint group_loop (key : Info -> option string) (node : Info -> nat -> Info)
         (features : list Info) (i : nat) (grouped_features : list Info)
         (group : list (string * nat)) : outcome (list Info) :=
  match features with
  | [] => Ok grouped_features
  | f :: rest =>
      match key f with
      | None => group_loop key node rest (S i) grouped_features group
      | Some k =>
          match Frame.assoc k group with
          | Some p =>
              grouped <- append_child p i grouped_features ;;
              group_loop key node rest (S i) (set_parent i p grouped) group
          | None =>
              let grouped := grouped_features ++ [node f i] in
              let p := List.length grouped in
              group_loop key node rest (S i) (set_parent i p grouped)
                         ((k, p) :: group)
          end
      end
  end.

Definition has_key (key : Info -> option string) (k : string) (f : Info)
  : bool :=
  match key f with
  | Some k' => String.eqb k' k
  | None => false
  end.

(** The positions, counted from [i], of the features of key [k]. *)
Fixpoint positions (key : Info -> option string) (k : string)
         (features : list Info) (i : nat) : list nat :=
  match features with
  | [] => []
  | f :: rest =>
      if has_key key k f then i :: positions key k rest (S i)
      else positions key k rest (S i)
  end.

(** The keys of the features, each once, in the order in which they are
    first met. *)
Definition first_keys (key : Info -> option string) (features : list Info)
  : list string :=
  fold_left (fun met f =>
               match key f with
               | Some k => if existsb (String.eqb k) met then met else met ++ [k]
               | None => met
               end) features [].

(** [grouped key features out]: [out] is [features], each feature of some
    key given the parent [p] where the node at position [p - 1] of [out] is
    the group node of that key, followed by one group node per key, in the
    order in which the keys are first met among the features; the node of
    a key is made for the first feature of the key, and its children are
    the positions of the features of the key. *)
Definition grouped (key : Info -> option string) (node : Info -> nat -> Info)
           (features out : list Info) : Prop :=
  exists upd nodes,
    out = upd ++ nodes /\
    map id nodes = first_keys key features /\
    Forall2 (fun f g =>
               match key f with
               | None => g = f
               | Some k =>
                   exists p group_node,
                     g = with_parent p f /\
                     List.length features < p /\
                     nth_error out (p - 1) = Some group_node /\
                     id group_node = k
               end) features upd /\
    NoDup (map id nodes) /\
    Forall (fun group_node =>
              exists f i,
                nth_error features i = Some f /\
                key f = Some (id group_node) /\
                hd_error (positions key (id group_node) features 0) = Some i /\
                group_node
                = with_children (positions key (id group_node) features 0)
                                (node f i))
           nodes.

(** *** Sample data *)

Definition glucose_mean : FeatureBase :=
  mkFeatureBase "MEAN(LABEVENTS.VALUENUM WHERE ITEMID = 50931)" (Some "mean")
    "ADMISSIONS" None (Some "ITEMID = 50931")
    [mkFeatureBase "VALUENUM" None "LABEVENTS" (Some "VALUENUM") None []].

Definition glucose_trend : FeatureBase :=
  mkFeatureBase "TREND(LABEVENTS.VALUENUM, CHARTTIME)" (Some "trend")
    "ADMISSIONS" None None
    [mkFeatureBase "VALUENUM" None "LABEVENTS" (Some "VALUENUM") None [];
     mkFeatureBase "CHARTTIME" None "LABEVENTS" (Some "CHARTTIME") None []].

Definition two_tables : FeatureBase :=
  mkFeatureBase "MEAN(LABEVENTS.VALUENUM) + AGE" (Some "add_numeric")
    "ADMISSIONS" None None
    [mkFeatureBase "VALUENUM" None "LABEVENTS" (Some "VALUENUM") None [];
     mkFeatureBase "AGE" None "PATIENTS" (Some "AGE") None []].

Definition lab_items : list (string * list (string * string)) :=
  [("LABEVENTS", [("50931", "Glucose")])].

Definition info_glucose_mean : Info :=
  mkInfo "MEAN(LABEVENTS.VALUENUM WHERE ITEMID = 50931)" (Some "mean")
         "LABEVENTS" (Some "VALUENUM") (Some "mean") "mean(Glucose)"
         (Some (Some (mkItem "ITEMID" "50931" (Some (Some "Glucose")))))
         None None.

Definition info_glucose_std : Info :=
  mkInfo "STD(LABEVENTS.VALUENUM WHERE ITEMID = 50931)" (Some "std")
         "LABEVENTS" (Some "VALUENUM") (Some "std") "std(Glucose)"
         (Some (Some (mkItem "ITEMID" "50931" (Some (Some "Glucose")))))
         None None.

Definition info_sodium_mean : Info :=
  mkInfo "MEAN(LABEVENTS.VALUENUM WHERE ITEMID = 50983)" (Some "mean")
         "LABEVENTS" (Some "VALUENUM") (Some "mean") "mean(Sodium)"
         (Some (Some (mkItem "ITEMID" "50983" (Some (Some "Sodium")))))
         None None.

(** The description of [glucose_mean] made without an item dictionary. *)
Definition info_glucose_code : Info :=
  mkInfo "MEAN(LABEVENTS.VALUENUM WHERE ITEMID = 50931)" (Some "mean")
         "LABEVENTS" (Some "VALUENUM") (Some "mean") "mean(50931)"
         (Some (Some (mkItem "ITEMID" "50931" None))) None None.

Definition info_age : Info :=
  mkInfo "AGE" None "PATIENTS" (Some "AGE") (Some "AGE") "AGE" None None None.

End Descriptors.

(** ** The primitive [AgeRange] *)

Module AgeRange.

Definition newborn : string := "newborn (0–4 weeks)".
Definition infant : string := "infant (4 weeks - 1 year)".
Definition toddler : string := "toddler (1-2 years)".
Definition preschooler : string := "preschooler or above(>2 years)".

(** [self.age_ranges], in insertion order; the upper bound [float('inf')]
    is [None]. *)
Definition age_ranges : list ((Z * option Z) * string) :=
  [((0, Some (4 * 7)), newborn);
   ((4 * 7, Some 365), infant);
   ((365, Some (365 * 2)), toddler);
   ((365 * 2, None), preschooler)]%Z.

(** The loop [for (lower, upper), category in self.age_ranges.items()]. *)
Fixpoint first_range (ranges : list ((Z * option Z) * string)) (day : Z)
  : string :=
  match ranges with
  | [] => "unknown"
  | ((lower, upper), category) :: rest =>
      if Z.leb lower day
         && match upper with
            | Some u => Z.ltb day u
            | None => true
            end
      then category
      else first_range rest day
  end.

(** [age_range(day)] for a day count of the integer column the primitive
    is applied to. *)
Definition age_range (day : Z) : string := first_range age_ranges day.

End AgeRange.

(** ** Feature generation: [Featurization._generate_features] *)

Module Featurization.
Import Frame.

(** What [_generate_features] reads of [self.task]: the target entity,
    the entries [index] and [time_index] of the configuration of each
    entity, and the ignored columns. *)
Record Task : Type := mkTask {
  target_entity : string;
  entity_configs : list (string * (option string * option string));
  ignore_variables : list (string * list string)
}.

(** The keyword arguments the callers of [_generate_features] hand on to
    [dfs]; a list of primitives that is not given is [None]. *)
Record Primitives : Type := mkPrimitives {
  agg_primitives : option (list string);
  where_primitives : option (list string);
  trans_primitives : option (list string);
  max_features : Z
}.

(** A featuretools feature: its name and the computation of its value for
    an instance of the target dataframe from the data of an entity set. *)
Record FeatureBase : Type := mkFeatureBase {
  get_name : string;
  calculate : EntitySet -> value -> value
}.

(** What feature synthesis reads of an entity set: the dataframes with
    their columns, and the relationships. *)
Definition schema (es : EntitySet)
  : list (string * list string) * list Relationship :=
  (map (fun kv => (fst kv, columns (snd kv))) (dataframes es),
   relationships es).

(** Modelled from the spec: the comparison of a time-index value with the
    cutoff time of an instance, inside featuretools.  A row is in the
    window when its time-index value is at or before the cutoff time
    (before it, when [include_cutoff_time] is false); a missing time or a
    missing cutoff time compares false. *)
Definition known (include_cutoff_time : bool) (time v : value) : bool :=
  match time, v with
  | VTime c, VTime t => if include_cutoff_time then Z.leb t c else Z.ltb t c
  | _, _ => false
  end.

(** Modelled from the spec: the aggregation window of a dataframe at a
    cutoff time, inside featuretools.  [time_index] gives the time index
    of the dataframes that have one; a dataframe without time index is
    used whole. *)
Definition window (time_index : list (string * string))
           (include_cutoff_time : bool) (time : value) (name : string)
           (df : DataFrame) : DataFrame :=
  match assoc name time_index with
  | Some ti => select df (fun r => known include_cutoff_time time (cell r ti))
  | None => df
  end.

(** The entity set as the features of an instance see it: every dataframe
    cut down to its window. *)
Definition known_at (time_index : list (string * string))
           (include_cutoff_time : bool) (time : value) (es : EntitySet)
  : EntitySet :=
  mkEntitySet
    (map (fun kv =>
            (fst kv,
             window time_index include_cutoff_time time (fst kv) (snd kv)))
         (dataframes es))
    (relationships es).

(** [target_df.loc[:, [index_col, time_col]]] with the columns renamed to
    [instance_id] and [time]. *)
Definition instance_times (target_df : DataFrame) (index_col time_col : string)
  : outcome DataFrame :=
  if has_column target_df index_col && has_column target_df time_col
  then Ok (mkFrame ["instance_id"; "time"]
             (map (fun r => mkRow (label r)
                              [("instance_id", cell r index_col);
                               ("time", cell r time_col)])
                  (rows target_df)))
  else Raise KeyError.

(** [d[k]] on a dict. *)
Definition config_of {A} (k : string) (d : list (string * A)) : outcome A :=
  match assoc k d with
  | Some v => Ok v
  | None => Raise KeyError
  end.

(** [config[k]] for an entry [k] that may be missing. *)
Definition entry (e : option string) : outcome string :=
  match e with
  | Some v => Ok v
  | None => Raise KeyError
  end.

(** The cutoff times [_generate_features] hands to [dfs]: the frame it is
    given or, without one, the time index of the target dataframe. *)
Definition cutoff_frame (es : EntitySet) (task : Task)
           (cutoff_time : option DataFrame) : outcome DataFrame :=
  match cutoff_time with
  | Some given => Ok given
  | None =>
      target_df <- es_get es (target_entity task) ;;
      config <- config_of (target_entity task) (entity_configs task) ;;
      index_col <- entry (fst config) ;;
      config <- config_of (target_entity task) (entity_configs task) ;;
      time_col <- entry (snd config) ;;
      instance_times target_df index_col time_col
  end.

Section Dfs.

(** Deep feature synthesis proper, inside featuretools: the features built
    from the schema of the entity set, the target dataframe, the allowed
    paths, the ignored columns, the depth and the primitives.  It is kept
    abstract; it reads neither the rows of the entity set nor the cutoff
    times. *)
Variable build_features :
  list (string * list string) * list Relationship -> string ->
  list (list string) -> list (string * list string) -> nat -> Primitives ->
  list FeatureBase.

(** Modelled from the spec: featuretools' [calculate_feature_matrix], a
    library function outside the repository.  It follows section 4.3,
    which is also what the documentation of featuretools says of
    [cutoff_time] (the resulting feature matrix will use data up to and
    including the cutoff time) and of [include_cutoff_time]: one row per
    row of the cutoff frame, labelled by the instance, each feature
    calculated for the instance on the windows at the cutoff time of that
    row. *)
Definition calculate_feature_matrix (features : list FeatureBase)
           (entityset : EntitySet) (time_index : list (string * string))
           (cutoff_time : DataFrame) (include_cutoff_time : bool)
  : DataFrame :=
  mkFrame (map get_name features)
    (map (fun c =>
            mkRow (cell c "instance_id")
              (map (fun f =>
                      (get_name f,
                       calculate f
                         (known_at time_index include_cutoff_time
                                   (cell c "time") entityset)
                         (cell c "instance_id")))
                   features))
         (rows cutoff_time)).

(** Modelled from the spec: featuretools' [dfs], a library function
    outside the repository, called with a frame of cutoff times: the
    features are built, then calculated.  The instances are read from the
    column [instance_id] of the cutoff frame and the times from its column
    [time], which is how the repository names them; without these columns
    the call raises [AttributeError].  What else [dfs] checks of its
    arguments is left out. *)
Definition dfs (entityset : EntitySet) (time_index : list (string * string))
           (target_dataframe_name : string) (allowed_paths : list (list string))
           (ignore_columns : list (string * list string))
           (cutoff_time : DataFrame) (max_depth : nat)
           (include_cutoff_time : bool) (kwargs : Primitives)
  : outcome (DataFrame * list FeatureBase) :=
  if has_column cutoff_time "instance_id" && has_column cutoff_time "time"
  then
    let features :=
      build_features (schema entityset) target_dataframe_name allowed_paths
                     ignore_columns max_depth kwargs in
    Ok (calculate_feature_matrix features entityset time_index cutoff_time
                                 include_cutoff_time,
        features)
  else Raise AttributeError.

(** [self._generate_features(target_entity, cutoff_time, **kwargs)];
    [time_index] is the time index the entity set [self.es] records for
    its dataframes. *)
Definition _generate_features (es : EntitySet)
           (time_index : list (string * string)) (task : Task)
           (target_entity' : string) (cutoff_time : option DataFrame)
           (kwargs : Primitives) : outcome (DataFrame * list FeatureBase) :=
  cutoff_time <- cutoff_frame es task cutoff_time ;;
  allowed_paths <- Path.find_path (relationships es) (target_entity task)
                                  target_entity' ;;
  dfs es time_index (target_entity task) allowed_paths (ignore_variables task)
      cutoff_time 2 true kwargs.

(** [self._patients(cutoff_time=cutoff_time)] and the like. *)
Definition _patients es time_index task cutoff_time :=
  _generate_features es time_index task "PATIENTS" cutoff_time
    (mkPrimitives None None (Some []) 100).

Definition _vital_signs es time_index task cutoff_time :=
  _generate_features es time_index task "SURGERY_VITAL_SIGNS" cutoff_time
    (mkPrimitives (Some ["mean"; "std"; "trend"])
                  (Some ["mean"; "std"; "trend"]) (Some []) 100).

Definition _chart_events es time_index task cutoff_time :=
  _generate_features es time_index task "CHARTEVENTS" cutoff_time
    (mkPrimitives (Some ["mean"; "std"; "trend"])
                  (Some ["mean"; "std"; "trend"]) (Some []) 100).

Definition _lab_tests es time_index task cutoff_time :=
  _generate_features es time_index task "LABEVENTS" cutoff_time
    (mkPrimitives (Some ["mean"]) (Some ["mean"]) (Some []) 100).

End Dfs.

(** *** Sample data: the admission of [Patient.ward], one feature *)

Definition int_of (v : value) : Z :=
  match v with
  | VInt z => z
  | _ => 0%Z
  end.

(** [SUM(LABEVENTS.VALUENUM)] of an admission: over the laboratory events
    of the patient admitted. *)
Definition sum_valuenum : FeatureBase :=
  mkFeatureBase "SUM(LABEVENTS.VALUENUM)"
    (fun es instance =>
       match es_get es "ADMISSIONS", es_get es "LABEVENTS" with
       | Ok admissions, Ok labevents =>
           match rows_at admissions instance with
           | [] => VNaN
           | a :: _ =>
               VInt (fold_left Z.add
                       (map (fun r => int_of (cell r "VALUENUM"))
                            (filter (fun r => value_eqb (cell r "SUBJECT_ID")
                                                        (cell a "SUBJECT_ID"))
                                    (rows labevents)))
                       0%Z)
           end
       | _, _ => VNaN
       end).

Definition lab_features
           (_ : list (string * list string) * list Relationship) (_ : string)
           (_ : list (list string)) (_ : list (string * list string))
           (_ : nat) (_ : Primitives) : list FeatureBase :=
  [sum_valuenum].

Definition ward_time_index : list (string * string) :=
  [("ADMISSIONS", "ADMITTIME"); ("LABEVENTS", "CHARTTIME")].

Definition ward_task : Task :=
  mkTask "ADMISSIONS"
         [("ADMISSIONS", (Some "HADM_ID", Some "ADMITTIME"));
          ("LABEVENTS", (Some "ROW_ID", Some "CHARTTIME"))]
         [].

(** The laboratory events of [Patient.ward] with the event charted at 49
    hours, and without it. *)
Definition ward_with_late : EntitySet :=
  es_set Patient.ward "LABEVENTS"
         (mkFrame Records.lab_columns
                  (Records.lab_rows ++ Records.late_row :: [])).

Definition ward_without_late : EntitySet :=
  es_set Patient.ward "LABEVENTS"
         (mkFrame Records.lab_columns (Records.lab_rows ++ [])).

(** The events of patient 10 charted within 48 hours have the values 7 and
    5. *)
Definition ward_features : DataFrame :=
  mkFrame ["SUM(LABEVENTS.VALUENUM)"]
    [mkRow (VInt 100) [("SUM(LABEVENTS.VALUENUM)", VInt 12)]].

Definition lab_kwargs : Primitives :=
  mkPrimitives (Some ["mean"]) (Some ["mean"]) (Some []) 100.

End Featurization.

(** * Properties *)

(** ** Path resolution *)

Module PathFacts.
Import Path.

Lemma pop_snoc {A} (l l' : list A) (x : A) :
  pop l = Some (l', x) -> l = l' ++ [x].
Proof.
  revert l' x; induction l as [|a l IH]; intros l' x; simpl; [discriminate|].
  destruct (pop l) as [[init y]|] eqn:E.
  - intros H; inversion H; subst; simpl. f_equal. now apply IH.
  - intros H; inversion H; subst. destruct l as [|b l]; [reflexivity|].
    simpl in E. destruct (pop l) as [[? ?]|]; discriminate.
Qed.

Lemma pop_none {A} (l : list A) : pop l = None -> l = [].
Proof.
  destruct l as [|a l]; [reflexivity|]. simpl.
  destruct (pop l) as [[? ?]|]; discriminate.
Qed.

Lemma dict_mem_cons k c v d :
  dict_mem k ((c, v) :: d) = String.eqb c k || dict_mem k d.
Proof. reflexivity. Qed.

Lemma dict_mem_get k d : dict_mem k d = true <-> dict_get d k <> None.
Proof.
  induction d as [|[c v] d IH]; simpl.
  - split; [discriminate | congruence].
  - destruct (String.eqb c k); simpl; [split; [discriminate | reflexivity] | exact IH].
Qed.

Lemma dict_get_mem k d v : dict_get d k = Some v -> dict_mem k d = true.
Proof. intros H. apply dict_mem_get. congruence. Qed.

(** *** Termination of the search loop *)

Lemma undiscovered_cons_le U c v d :
  undiscovered U ((c, v) :: d) <= undiscovered U d.
Proof.
  unfold undiscovered. induction U as [|x U IH]; [apply Nat.le_refl|].
  cbn [filter]. rewrite dict_mem_cons.
  destruct (String.eqb c x); destruct (dict_mem x d); cbn [negb orb List.length]; lia.
Qed.

Lemma undiscovered_cons_lt U c v d :
  In c U -> dict_mem c d = false ->
  undiscovered U ((c, v) :: d) < undiscovered U d.
Proof.
  intros Hin Hm. induction U as [|x U IH]; [destruct Hin|].
  pose proof (undiscovered_cons_le U c v d) as L.
  unfold undiscovered in *. cbn [filter]. rewrite dict_mem_cons.
  destruct Hin as [->|Hin].
  - rewrite String.eqb_refl, Hm. cbn [negb orb List.length]. lia.
  - specialize (IH Hin).
    destruct (String.eqb c x); destruct (dict_mem x d); cbn [negb orb List.length]; lia.
Qed.

Lemma expand_measure U p cs : forall pipe d pipe' d',
  incl cs U ->
  expand p cs pipe d = (pipe', d') ->
  2 * undiscovered U d' + List.length pipe' <= 2 * undiscovered U d + List.length pipe.
Proof.
  induction cs as [|c cs IH]; intros pipe d pipe' d' Hincl H; simpl in H.
  - inversion H; subst; lia.
  - assert (incl cs U) as Hcs by (intros x Hx; apply Hincl; now right).
    destruct (dict_mem c d) eqn:E.
    + now apply IH.
    + apply IH in H; [|exact Hcs].
      assert (In c U) as Hc by (apply Hincl; now left).
      pose proof (undiscovered_cons_lt U c (Some p) d Hc E).
      rewrite length_app in H. simpl in H. lia.
Qed.

Lemma child_nodes_names g t p : incl (child_nodes g p) (all_names g t).
Proof.
  intros x Hx. unfold child_nodes, get_backward_dataframes,
    get_forward_dataframes in Hx.
  right. apply in_flat_map.
  apply in_app_or in Hx. destruct Hx as [Hx|Hx];
    apply in_map_iff in Hx; destruct Hx as [r [<- Hr]];
    apply filter_In in Hr; destruct Hr as [Hr _];
    exists r; split; simpl; auto.
Qed.

Lemma search_total g s t : forall fuel pipe d,
  2 * undiscovered (all_names g t) d + List.length pipe < fuel ->
  search g s fuel pipe d <> None.
Proof.
  induction fuel as [|fuel IH]; intros pipe d Hlt; [lia|]. simpl.
  destruct (pop pipe) as [[pipe' p]|] eqn:Ep; [|discriminate].
  destruct (String.eqb p s); [discriminate|].
  destruct (expand p (child_nodes g p) pipe' d) as [pipe2 d2] eqn:Ex.
  apply IH.
  apply pop_snoc in Ep. subst pipe. rewrite length_app in Hlt. simpl in Hlt.
  pose proof (expand_measure (all_names g t) p _ _ _ _ _
                (child_nodes_names g t p) Ex). lia.
Qed.

(** *** What the search discovers *)

Lemma discovered_target g t d : discovered g t d -> dict_mem t d = true.
Proof.
  induction 1; simpl.
  - now rewrite String.eqb_refl.
  - rewrite IHdiscovered. apply orb_true_r.
Qed.

Lemma discovered_get g t d n v :
  discovered g t d -> dict_get d n = Some v ->
  match v with
  | None => n = t
  | Some p => dict_mem p d = true /\ In n (child_nodes g p)
  end.
Proof.
  induction 1 as [|d p c Hd IH Hp Hc Hin]; simpl.
  - destruct (String.eqb_spec t n); [|discriminate].
    intros E; inversion E; subst; reflexivity.
  - destruct (String.eqb_spec c n) as [->|Hne].
    + intros E; inversion E; subst. split; [|exact Hin].
      simpl. rewrite Hp. apply orb_true_r.
    + intros E. specialize (IH E). destruct v as [q|]; [|exact IH].
      destruct IH as [IH1 IH2]. split; [|exact IH2].
      simpl. rewrite IH1. apply orb_true_r.
Qed.

Lemma discovered_connected g t d :
  discovered g t d -> forall x, dict_mem x d = true -> connected g t x.
Proof.
  induction 1 as [|d p c Hd IH Hp Hc Hin]; intros x; simpl.
  - destruct (String.eqb_spec t x) as [->|]; [constructor | discriminate].
  - destruct (String.eqb_spec c x) as [->|Hne]; simpl.
    + intros _. apply conn_step with (b := p); [now apply IH | exact Hin].
    + apply IH.
Qed.

Lemma expand_spec g t p cs : forall pipe d pipe' d',
  expand p cs pipe d = (pipe', d') ->
  (forall x, dict_mem x d = true -> dict_mem x d' = true) /\
  (forall x, In x cs -> dict_mem x d' = true) /\
  (forall x, In x pipe -> In x pipe') /\
  (forall x, dict_mem x d' = true -> dict_mem x d = true \/ In x pipe') /\
  (forall x, In x pipe' -> In x pipe \/ dict_mem x d' = true) /\
  (discovered g t d -> dict_mem p d = true -> incl cs (child_nodes g p) ->
   discovered g t d').
Proof.
  induction cs as [|c cs IH]; intros pipe d pipe' d' H; simpl in H.
  - inversion H; subst. repeat split; auto; intros x [].
  - destruct (dict_mem c d) eqn:E.
    + destruct (IH _ _ _ _ H) as (I1 & I2 & I3 & I4 & I5 & I6).
      repeat split; auto.
      * intros x [<-|Hx]; auto.
      * intros Hd Hp Hincl. apply I6; auto.
        intros x Hx; apply Hincl; now right.
    + destruct (IH _ _ _ _ H) as (I1 & I2 & I3 & I4 & I5 & I6).
      assert (dict_mem c d' = true) as Hc.
      { apply I1. rewrite dict_mem_cons, String.eqb_refl. reflexivity. }
      repeat split.
      * intros x Hx. apply I1. rewrite dict_mem_cons, Hx. apply orb_true_r.
      * intros x [<-|Hx]; auto.
      * intros x Hx. apply I3. apply in_or_app. now left.
      * intros x Hx. destruct (I4 x Hx) as [Hm|Hi]; [|now right].
        rewrite dict_mem_cons in Hm. apply orb_true_iff in Hm.
        destruct Hm as [Hm|Hm]; [|now left].
        apply String.eqb_eq in Hm. subst x. right. apply I3.
        apply in_or_app. right. now left.
      * intros x Hx. destruct (I5 x Hx) as [Hi|Hm]; [|now right].
        apply in_app_or in Hi. destruct Hi as [Hi|[<-|[]]]; [now left | now right].
      * intros Hd Hp Hincl. apply I6.
        -- apply disc_child; auto. apply Hincl. now left.
        -- rewrite dict_mem_cons, Hp. apply orb_true_r.
        -- intros x Hx; apply Hincl; now right.
Qed.

Lemma search_spec g s t : forall fuel pipe d d',
  search_inv g t pipe d ->
  search g s fuel pipe d = Some d' ->
  discovered g t d' /\ (dict_mem s d' = true \/ closed g d').
Proof.
  induction fuel as [|fuel IH]; intros pipe d d' (Hd & Hp & Hc) H;
    simpl in H; [discriminate|].
  destruct (pop pipe) as [[pipe' p]|] eqn:Ep.
  - apply pop_snoc in Ep. subst pipe.
    assert (dict_mem p d = true) as Hpm
      by (apply Hp, in_or_app; right; now left).
    destruct (String.eqb_spec p s) as [->|Hne].
    + inversion H; subst. split; auto.
    + destruct (expand p (child_nodes g p) pipe' d) as [pipe2 d2] eqn:Ex.
      destruct (expand_spec g t _ _ _ _ _ _ Ex) as (I1 & I2 & I3 & I4 & I5 & I6).
      apply (IH pipe2 d2 d'); [|exact H].
      split; [apply I6; auto; apply incl_refl|]. split.
      * intros x Hx. destruct (I5 x Hx) as [Hi|Hm]; [|exact Hm].
        apply I1, Hp, in_or_app. now left.
      * intros x Hx. destruct (I4 x Hx) as [Hm|Hi]; [|now left].
        destruct (Hc x Hm) as [Hi|Hcl].
        -- apply in_app_or in Hi. destruct Hi as [Hi|[<-|[]]].
           ++ left. now apply I3.
           ++ right. exact I2.
        -- right. intros y Hy. apply I1. now apply Hcl.
  - inversion H; subst. split; [exact Hd|]. right.
    apply pop_none in Ep. subst pipe.
    intros x Hx. destruct (Hc x Hx) as [[]|Hcl]. exact Hcl.
Qed.

Lemma closed_connected g t d :
  dict_mem t d = true -> closed g d ->
  forall x, connected g t x -> dict_mem x d = true.
Proof.
  intros Ht Hcl x Hx. induction Hx as [|b c _ IH Hadj]; [exact Ht|].
  exact (Hcl b IH c Hadj).
Qed.

(** *** The walk along parent pointers *)

Lemma prefixes_snoc {A} (q : list A) (p : A) :
  prefixes (q ++ [p]) = prefixes q ++ [q ++ [p]].
Proof.
  induction q as [|a q IH]; [reflexivity|].
  simpl. rewrite IH, map_app. reflexivity.
Qed.

Lemma last_prefixes (q : list string) : q <> [] -> last_path (prefixes q) = q.
Proof.
  destruct q as [|a q] using rev_ind; [congruence|]. intros _.
  rewrite prefixes_snoc. unfold last_path. apply last_last.
Qed.

Lemma walk_weaken g t d c v :
  discovered g t d -> dict_mem c d = false ->
  forall fuel node paths,
    dict_mem node d = true ->
    walk ((c, v) :: d) t fuel node paths = walk d t fuel node paths.
Proof.
  intros Hd Hc. induction fuel as [|fuel IH]; intros node paths Hn;
    [reflexivity|].
  simpl. destruct (String.eqb node t); [reflexivity|].
  destruct (String.eqb_spec c node) as [->|Hne]; [congruence|].
  destruct (dict_get d node) as [[p|]|] eqn:Eg; try reflexivity.
  apply IH. exact (proj1 (discovered_get g t d node (Some p) Hd Eg)).
Qed.

Lemma linked_adjacent g a b rest :
  In a (child_nodes g b) -> linked g (b :: rest) = true ->
  linked g (a :: b :: rest) = true.
Proof.
  intros Hin Hl. change (adjacentb g b a && linked g (b :: rest) = true).
  rewrite Hl, andb_true_r.
  unfold adjacentb. apply existsb_exists. exists a. split; [exact Hin|].
  apply String.eqb_refl.
Qed.

Lemma walk_ok g t d :
  discovered g t d ->
  forall node fuel q,
    dict_mem node d = true -> List.length d <= fuel ->
    exists c,
      walk d t fuel node (prefixes (q ++ [node]))
        = Ok (prefixes (q ++ node :: c)) /\
      linked g (node :: c) = true /\ last (node :: c) "" = t.
Proof.
  induction 1 as [|d p0 c0 Hd IH Hp Hc Hin]; intros node fuel q Hn Hf.
  - simpl in Hn. rewrite orb_false_r in Hn. apply String.eqb_eq in Hn.
    subst node. exists []. destruct fuel; simpl; rewrite String.eqb_refl; auto.
  - rewrite dict_mem_cons in Hn.
    destruct (String.eqb_spec c0 node) as [<-|Hne].
    + destruct fuel as [|fuel]; [simpl in Hf; lia|].
      assert (c0 <> t) as Hct.
      { intros ->. rewrite (discovered_target g t d Hd) in Hc. discriminate. }
      simpl. apply String.eqb_neq in Hct. rewrite Hct, String.eqb_refl.
      rewrite last_prefixes by (destruct q; discriminate).
      rewrite <- prefixes_snoc.
      rewrite (walk_weaken g t d c0 (Some p0) Hd Hc) by exact Hp.
      destruct (IH p0 fuel (q ++ [c0]) Hp) as (c & Hw & Hl & Hlast).
      { simpl in Hf. lia. }
      exists (p0 :: c). rewrite Hw, <- app_assoc. simpl. split; [reflexivity|].
      split; [|exact Hlast].
      change (linked g (c0 :: p0 :: c) = true). now apply linked_adjacent.
    + simpl in Hn.
      rewrite (walk_weaken g t d c0 (Some p0) Hd Hc) by exact Hn.
      apply IH; [exact Hn | simpl in Hf; lia].
Qed.

(** *** The outcome of [find_path] *)

Lemma undiscovered_le U d : undiscovered U d <= List.length U.
Proof. apply filter_length_le. Qed.

(** [find_path] either returns the prefixes of a path from the source to
    the target, or raises [KeyError] because the search stopped with every
    neighbour of a discovered entity discovered and the source not among
    them. *)
Lemma find_path_cases g s t :
  (exists c,
     find_path g s t = Ok (prefixes (s :: c)) /\
     linked g (s :: c) = true /\ last (s :: c) "" = t) \/
  (find_path g s t = Raise KeyError /\ s <> t /\
   exists d, dict_mem t d = true /\ dict_mem s d = false /\ closed g d).
Proof.
  unfold find_path.
  destruct (search g s (search_fuel g t) [t] [(t, None)]) as [d|] eqn:Es.
  - assert (search_inv g t [t] [(t, None)]) as Hinv.
    { split; [constructor|]. split.
      - intros x [<-|[]]. simpl. now rewrite String.eqb_refl.
      - intros x Hx. left. simpl in Hx. rewrite orb_false_r in Hx.
        apply String.eqb_eq in Hx. now left. }
    destruct (search_spec g s t _ _ _ _ Hinv Es) as [Hd Hs].
    destruct (dict_mem s d) eqn:Em.
    + left. destruct (walk_ok g t d Hd s (List.length d) [] Em (Nat.le_refl _))
        as (c & Hw & Hl & Hlast).
      exists c. simpl in Hw. auto.
    + right. destruct Hs as [Hs|Hcl]; [discriminate|].
      pose proof (discovered_target g t d Hd) as Ht.
      assert (s <> t) as Hne by (intros ->; congruence).
      split; [|split; [exact Hne | exists d; auto]].
      destruct (List.length d) as [|n] eqn:El; [destruct d; discriminate|].
      cbn [walk]. apply String.eqb_neq in Hne. rewrite Hne.
      destruct (dict_get d s) as [v|] eqn:Eg; [|reflexivity].
      apply dict_get_mem in Eg. congruence.
  - exfalso. revert Es. apply (search_total g s t). unfold search_fuel.
    pose proof (undiscovered_le (all_names g t) [(t, None)]).
    cbn [List.length]. lia.
Qed.

Lemma linked_connected g t : forall c s,
  linked g (s :: c) = true -> last (s :: c) "" = t -> connected g t s.
Proof.
  induction c as [|b c IH]; intros s Hl Hlast.
  - simpl in Hlast. subst. constructor.
  - change (adjacentb g b s && linked g (b :: c) = true) in Hl.
    apply andb_true_iff in Hl. destruct Hl as [Hadj Hl].
    apply conn_step with (b := b).
    + apply IH; [exact Hl | exact Hlast].
    + unfold adjacentb in Hadj. apply existsb_exists in Hadj.
      destruct Hadj as [x [Hx Hxs]]. apply String.eqb_eq in Hxs. now subst.
Qed.

Lemma adjacent_names g b c :
  adjacent g b c -> In b (entity_names g) /\ In c (entity_names g).
Proof.
  unfold adjacent, child_nodes, get_backward_dataframes,
    get_forward_dataframes, entity_names.
  intros H. apply in_app_or in H.
  destruct H as [H|H]; apply in_map_iff in H; destruct H as [r [<- Hr]];
    apply filter_In in Hr; destruct Hr as [Hr Hb];
    apply String.eqb_eq in Hb; subst b;
    split; apply in_flat_map; exists r; simpl; auto.
Qed.

Lemma connected_names g a b :
  connected g a b -> a = b \/ (In a (entity_names g) /\ In b (entity_names g)).
Proof.
  induction 1 as [|b c _ IH Hadj]; [now left|]. right.
  destruct (adjacent_names g b c Hadj) as [Hb Hc].
  destruct IH as [->|[Ha _]]; auto.
Qed.

Lemma find_path_same g s : find_path g s s = Ok [[s]].
Proof.
  unfold find_path, search_fuel. cbn [plus search pop].
  rewrite String.eqb_refl. cbn [List.length walk].
  now rewrite String.eqb_refl.
Qed.

(** [find_path] always completes: the fuel of the model is never the cause
    of its outcome. *)
Lemma find_path_total g s t : find_path g s t <> OutOfFuel.
Proof.
  destruct (find_path_cases g s t) as [(c & H & _)|(H & _)]; rewrite H;
    discriminate.
Qed.

(** C3, as stated in the specification, fails: in [ring_graph] the path
    returned from [S] to [T] has three hops although [S; A; T] is a path
    with two. *)
Lemma find_path_not_shortest :
  find_path ring_graph "S" "T"
    = Ok [["S"]; ["S"; "C"]; ["S"; "C"; "B"]; ["S"; "C"; "B"; "T"]] /\
  is_path ring_graph ["S"; "A"; "T"] "S" "T" = true /\
  hops ["S"; "A"; "T"] < hops ["S"; "C"; "B"; "T"].
Proof. repeat split; vm_compute; lia. Qed.

(** C3 (amended): [find_path] searches outward from the target with a
    last-in-first-out work list, recording the parent each entity was
    discovered from.  Whenever source and target are connected it returns;
    what it returns is the list of non-empty prefixes of one path that
    starts at the source, ends at the target and links directly related
    entities; and the result is a function of the graph and the two names. *)
Theorem find_path_returns_path (g : graph) (s t : string) :
  (connected g t s -> exists paths, find_path g s t = Ok paths) /\
  (forall paths, find_path g s t = Ok paths ->
     paths = prefixes (last_path paths) /\
     is_path g (last_path paths) s t = true) /\
  (forall r1 r2, find_path g s t = r1 -> find_path g s t = r2 -> r1 = r2).
Proof.
  split; [|split].
  - intros Hconn.
    destruct (find_path_cases g s t) as [(c & H & _)|(_ & _ & d & Ht & Hs & Hcl)].
    + eauto.
    + rewrite (closed_connected g t d Ht Hcl s Hconn) in Hs. discriminate.
  - intros paths H.
    destruct (find_path_cases g s t) as [(c & H' & Hl & Hlast)|(H' & _)];
      [|congruence].
    assert (paths = prefixes (s :: c)) as -> by congruence.
    rewrite last_prefixes by discriminate. split; [reflexivity|].
    unfold is_path. rewrite Hl, Hlast, !String.eqb_refl. reflexivity.
  - congruence.
Qed.

Lemma find_path_returns_path_witness :
  [["LABEVENTS"]; ["LABEVENTS"; "ADMISSIONS"];
   ["LABEVENTS"; "ADMISSIONS"; "PATIENTS"]]
    = prefixes ["LABEVENTS"; "ADMISSIONS"; "PATIENTS"] /\
  is_path chain_graph ["LABEVENTS"; "ADMISSIONS"; "PATIENTS"]
          "LABEVENTS" "PATIENTS" = true.
Proof.
  exact (proj1 (proj2 (find_path_returns_path chain_graph "LABEVENTS" "PATIENTS"))
           _ eq_refl).
Defined.

(** C9, as stated in the specification, fails: for entities in different
    components, and for an unknown name, the exception raised is the
    [KeyError] of the parent lookup, not a [NoPathError]. *)
Lemma find_path_raises_KeyError :
  find_path split_graph "CHARTEVENTS" "PATIENTS" = Raise KeyError /\
  find_path split_graph "NO_SUCH_ENTITY" "PATIENTS" = Raise KeyError /\
  exn_name KeyError <> "NoPathError".
Proof. repeat split; vm_compute; discriminate. Qed.

(** C9 (amended): when the source differs from the target and is not
    connected to it, in particular when either name is unknown to the
    graph, [find_path] fails with the [KeyError] raised by the lookup in
    the parent dictionary; when source and target are the same name it
    returns the single one-element path. *)
Theorem find_path_failure_mode (g : graph) (s t : string) :
  (s = t -> find_path g s t = Ok [[s]]) /\
  (s <> t ->
   ~ connected g t s \/ ~ In s (entity_names g) \/ ~ In t (entity_names g) ->
   find_path g s t = Raise KeyError).
Proof.
  split.
  - intros ->. apply find_path_same.
  - intros Hne Hdis.
    assert (~ connected g t s) as Hnc.
    { destruct Hdis as [H|H]; [exact H|]. intros Hc.
      destruct (connected_names g t s Hc) as [E|[Ht Hs]]; [congruence|].
      destruct H as [H|H]; contradiction. }
    destruct (find_path_cases g s t) as [(c & _ & Hl & Hlast)|(H & _)];
      [|exact H].
    exfalso. apply Hnc. exact (linked_connected g t c s Hl Hlast).
Qed.

Lemma find_path_failure_mode_witness :
  find_path split_graph "PATIENTS" "PATIENTS" = Ok [["PATIENTS"]] /\
  find_path split_graph "NO_SUCH_ENTITY" "PATIENTS" = Raise KeyError.
Proof.
  destruct (find_path_failure_mode split_graph "PATIENTS" "PATIENTS") as [H _].
  destruct (find_path_failure_mode split_graph "NO_SUCH_ENTITY" "PATIENTS")
    as [_ K].
  split.
  - apply H. reflexivity.
  - apply K.
    + discriminate.
    + right. left. simpl. intros Hin.
      repeat (destruct Hin as [Hin|Hin]; [discriminate|]). exact Hin.
Defined.

End PathFacts.

(** ** Frames *)

Module FrameFacts.
Import Frame.

Lemma bind_ok {A B} (m : outcome A) (k : A -> outcome B) (b : B) :
  bind m k = Ok b -> exists a, m = Ok a /\ k a = Ok b.
Proof. destruct m; simpl; try discriminate. eauto. Qed.

(** *** [loc] *)

Lemma loc_rows_length df : forall ls rs,
  loc_rows df ls = Ok rs -> List.length ls <= List.length rs.
Proof.
  induction ls as [|l ls IH]; intros rs H; simpl in H.
  - inversion H. apply Nat.le_refl.
  - destruct (rows_at df l) as [|x found] eqn:E; [discriminate|].
    apply bind_ok in H. destruct H as (tl & Htl & H). inversion H; subst rs.
    specialize (IH tl Htl). simpl. rewrite length_app. lia.
Qed.

(** When [loc] returns as many rows as labels were requested, each label
    selected exactly one row. *)
Lemma loc_rows_one_each df : forall ls rs,
  loc_rows df ls = Ok rs -> List.length rs = List.length ls ->
  Forall2 (fun l r => rows_at df l = [r]) ls rs.
Proof.
  induction ls as [|l ls IH]; intros rs H Hlen; simpl in H.
  - inversion H. constructor.
  - destruct (rows_at df l) as [|x found] eqn:E; [discriminate|].
    apply bind_ok in H. destruct H as (tl & Htl & H). inversion H; subst rs.
    pose proof (loc_rows_length df ls tl Htl) as Hge.
    simpl in Hlen. rewrite length_app in Hlen.
    destruct found as [|y found]; [|simpl in Hlen; lia].
    simpl. constructor; [exact E|]. apply IH; [exact Htl|].
    simpl in Hlen. lia.
Qed.

Lemma loc_rows_in df : forall ls rs,
  loc_rows df ls = Ok rs ->
  forall r, In r rs -> In r (rows df) /\ exists l, In l ls /\ label_eqb (label r) l = true.
Proof.
  induction ls as [|l ls IH]; intros rs H r Hr; simpl in H.
  - inversion H; subst. destruct Hr.
  - destruct (rows_at df l) as [|x found] eqn:E; [discriminate|].
    apply bind_ok in H. destruct H as (tl & Htl & H). inversion H; subst rs.
    change (In r ((x :: found) ++ tl)) in Hr.
    apply in_app_or in Hr. destruct Hr as [Hr|Hr].
    + rewrite <- E in Hr. unfold rows_at in Hr. apply filter_In in Hr.
      destruct Hr as [Hin Hl]. split; [exact Hin|]. exists l. split; [now left | exact Hl].
    + destruct (IH tl Htl r Hr) as [Hin (l' & Hl' & Hm)].
      split; [exact Hin|]. exists l'. split; [now right | exact Hm].
Qed.

Lemma loc_rows_missing df : forall ls l,
  In l ls -> rows_at df l = [] -> loc_rows df ls = Raise KeyError.
Proof.
  induction ls as [|a ls IH]; intros l Hin Hl; [destruct Hin|]. simpl.
  destruct Hin as [->|Hin].
  - now rewrite Hl.
  - destruct (rows_at df a); [reflexivity|]. now rewrite (IH l Hin Hl).
Qed.

(** *** Cells and labels *)

Lemma label_eqb_refl l : label_eqb l l = true.
Proof.
  destruct l; simpl; auto using Z.eqb_refl, String.eqb_refl.
Qed.

Lemma assoc_set_assoc c v l : assoc c (set_assoc c v l) = Some v.
Proof.
  induction l as [|[c' v'] l IH]; simpl.
  - now rewrite String.eqb_refl.
  - destruct (String.eqb c' c) eqn:E; simpl; rewrite E; auto.
Qed.

Lemma cell_set_cell c r v : cell (set_cell c r v) c = v.
Proof. unfold cell, set_cell. simpl. now rewrite assoc_set_assoc. Qed.

Lemma label_eqb_eq a b : label_eqb a b = true <-> a = b.
Proof.
  destruct a, b; simpl; split; intros H; try discriminate; try reflexivity;
    try (apply Z.eqb_eq in H; now subst);
    try (apply String.eqb_eq in H; now subst);
    try (inversion H; subst; auto using Z.eqb_refl, String.eqb_refl).
Qed.

Lemma labels_eqb_refl l : labels_eqb l l = true.
Proof.
  induction l as [|a l IH]; [reflexivity|]. simpl. rewrite IH.
  now rewrite (proj2 (label_eqb_eq a a) eq_refl).
Qed.

Lemma unique_labels_NoDup ls : unique_labels ls = true -> NoDup ls.
Proof.
  induction ls as [|l ls IH]; simpl; [constructor|].
  rewrite andb_true_iff, negb_true_iff. intros [Hn Hu].
  constructor; [|now apply IH]. intros Hin.
  assert (existsb (label_eqb l) ls = true) as K; [|congruence].
  apply existsb_exists. exists l. split; [exact Hin|]. now apply label_eqb_eq.
Qed.

Lemma filter_none {A} (p : A -> bool) (l : list A) :
  (forall x, In x l -> p x = false) -> filter p l = [].
Proof.
  induction l as [|a l IH]; intros H; [reflexivity|]. simpl.
  rewrite (H a) by now left. apply IH. intros x Hx. apply H. now right.
Qed.

Lemma rows_at_unique : forall rs r,
  NoDup (map label rs) -> In r rs ->
  filter (fun r' => label_eqb (label r') (label r)) rs = [r].
Proof.
  induction rs as [|a rs IH]; intros r Hnd Hin; [destruct Hin|].
  inversion Hnd as [|? ? Hnotin Hnd']; subst. simpl.
  destruct Hin as [->|Hin].
  - rewrite (proj2 (label_eqb_eq _ _) eq_refl). f_equal.
    apply filter_none. intros r' Hr'.
    destruct (label_eqb (label r') (label r)) eqn:E; [|reflexivity].
    apply label_eqb_eq in E. exfalso. apply Hnotin. rewrite <- E.
    now apply in_map.
  - destruct (label_eqb (label a) (label r)) eqn:E.
    + apply label_eqb_eq in E. exfalso. apply Hnotin. rewrite E.
      now apply in_map.
    + now apply IH.
Qed.

Lemma loc_rows_all df :
  NoDup (index df) ->
  forall rs, incl rs (rows df) -> loc_rows df (map label rs) = Ok rs.
Proof.
  intros Hnd. induction rs as [|r rs IH]; intros Hincl; [reflexivity|].
  cbn [map loc_rows]. unfold rows_at.
  rewrite (rows_at_unique (rows df) r Hnd) by (apply Hincl; now left).
  rewrite IH by (intros x Hx; apply Hincl; now right). reflexivity.
Qed.

Lemma loc_self df :
  unique_labels (index df) = true -> loc df (index df) = Ok df.
Proof.
  intros Hu. unfold loc, index.
  rewrite (loc_rows_all df (unique_labels_NoDup _ Hu) (rows df) (incl_refl _)).
  destruct df; reflexivity.
Qed.

Lemma assoc_remove_other c c' (l : list (string * value)) :
  c' <> c -> assoc c' (remove_assoc c l) = assoc c' l.
Proof.
  intros Hne. induction l as [|[k v] l IH]; [reflexivity|]. simpl.
  destruct (String.eqb_spec k c) as [->|Hk].
  - rewrite IH. apply not_eq_sym in Hne. apply String.eqb_neq in Hne.
    now rewrite Hne.
  - simpl. now rewrite IH.
Qed.

End FrameFacts.

(** ** Record selection *)

Module RecordsFacts.
Import Frame Records.

Lemma mask_rows_ok test : forall rs out,
  mask_rows test rs = Ok out ->
  forall r, In r out -> In r rs /\ test r = Ok true.
Proof.
  induction rs as [|a rs IH]; intros out H r Hr; simpl in H.
  - inversion H; subst. destruct Hr.
  - destruct (test a) as [b| |] eqn:Ea; simpl in H; try discriminate.
    destruct (mask_rows test rs) as [tl| |] eqn:Em; simpl in H; try discriminate.
    inversion H; subst out. destruct b.
    + destruct Hr as [<-|Hr]; [split; [now left | exact Ea]|].
      destruct (IH tl eq_refl r Hr). split; [now right | assumption].
    + destruct (IH tl eq_refl r Hr). split; [now right | assumption].
Qed.

Lemma mask_rows_skip test late : forall pre post,
  test late = Ok false ->
  mask_rows test (pre ++ late :: post) = mask_rows test (pre ++ post).
Proof.
  intros pre post Hl. induction pre as [|a pre IH]; simpl.
  - rewrite Hl. simpl. destruct (mask_rows test post); reflexivity.
  - rewrite IH. reflexivity.
Qed.

Lemma es_get_set es name df : es_get (es_set es name df) name = Ok df.
Proof. unfold es_get, es_set. simpl. now rewrite String.eqb_refl. Qed.

Lemma le_cutoff_true ct v :
  le_cutoff ct v = Ok true -> exists t, v = VTime t /\ (t <= ct)%Z.
Proof.
  destruct v as [z|s|t|]; simpl; try discriminate.
  intros H. inversion H as [E]. exists t. split; [reflexivity|].
  now apply Z.leb_le.
Qed.

Lemma get_records_window es subject_id entity_id time_index cutoff_time df :
  get_records es subject_id entity_id (Some time_index) (Some cutoff_time)
    = Ok df ->
  forall r, In r (rows df) ->
    exists t, cell r time_index = VTime t /\ (t <= cutoff_time)%Z.
Proof.
  intros H r Hr. unfold get_records in H.
  destruct (es_get es entity_id) as [entity| |]; simpl in H; try discriminate.
  match type of H with
  | (if has_column ?e _ then _ else _) = _ => set (entity_df := e) in *
  end.
  destruct (has_column entity_df time_index); [|discriminate].
  destruct (mask_rows _ (rows entity_df)) as [rs| |] eqn:Em; simpl in H;
    try discriminate.
  inversion H; subst df. simpl in Hr.
  destruct (mask_rows_ok _ _ _ Em r Hr) as [_ Ht].
  now apply le_cutoff_true.
Qed.

Lemma get_records_skips_late es subject_id entity_id time_index cutoff_time
      cols pre post late t' :
  cell late time_index = VTime t' -> (cutoff_time < t')%Z ->
  get_records (es_set es entity_id (mkFrame cols (pre ++ late :: post)))
              subject_id entity_id (Some time_index) (Some cutoff_time)
  = get_records (es_set es entity_id (mkFrame cols (pre ++ post)))
                subject_id entity_id (Some time_index) (Some cutoff_time).
Proof.
  intros Hlate Hgt.
  unfold get_records. rewrite !es_get_set. cbn [bind].
  assert (le_cutoff cutoff_time (cell late time_index) = Ok false) as Hl.
  { rewrite Hlate. cbn [le_cutoff]. f_equal. apply Z.leb_gt. exact Hgt. }
  unfold has_column, select. cbn [columns rows].
  destruct (existsb (String.eqb "SUBJECT_ID") cols); cbn [columns rows].
  + destruct (existsb (String.eqb time_index) cols); [|reflexivity].
    rewrite !filter_app. cbn [filter].
    destruct (value_eqb (cell late "SUBJECT_ID") subject_id);
      [|reflexivity].
    now rewrite (mask_rows_skip _ late _ _ Hl).
  + destruct (existsb (String.eqb time_index) cols); [|reflexivity].
    now rewrite (mask_rows_skip _ late _ _ Hl).
Qed.

(** X27: with a time index and a cutoff time given, every row [get_records]
    returns has a time-index value at or before the cutoff; and a row of
    the entity dated after the cutoff has no influence on the outcome:
    the call on the entity with such a row inserted anywhere equals the
    call on the entity without it. *)
Theorem get_records_no_leakage (es : EntitySet) (subject_id : value)
        (entity_id time_index : string) (cutoff_time : Z) :
  (forall df,
     get_records es subject_id entity_id (Some time_index) (Some cutoff_time)
       = Ok df ->
     forall r, In r (rows df) ->
       exists t, cell r time_index = VTime t /\ (t <= cutoff_time)%Z) /\
  (forall cols pre post late t',
     cell late time_index = VTime t' -> (cutoff_time < t')%Z ->
     get_records (es_set es entity_id (mkFrame cols (pre ++ late :: post)))
                 subject_id entity_id (Some time_index) (Some cutoff_time)
     = get_records (es_set es entity_id (mkFrame cols (pre ++ post)))
                   subject_id entity_id (Some time_index) (Some cutoff_time)).
Proof.
  split.
  - apply get_records_window.
  - apply get_records_skips_late.
Qed.

Lemma get_records_no_leakage_witness :
  get_records (es_set (lab_es lab_rows) "LABEVENTS"
                 (mkFrame lab_columns
                          ([lab_row 1 10 (2 * hour) 7] ++ late_row ::
                           [lab_row 2 11 (3 * hour) 9;
                            lab_row 3 10 (48 * hour) 5])))
              (VInt 10) "LABEVENTS" (Some "CHARTTIME") (Some (48 * hour)%Z)
  = get_records (es_set (lab_es lab_rows) "LABEVENTS"
                   (mkFrame lab_columns
                            ([lab_row 1 10 (2 * hour) 7] ++
                             [lab_row 2 11 (3 * hour) 9;
                              lab_row 3 10 (48 * hour) 5])))
                (VInt 10) "LABEVENTS" (Some "CHARTTIME") (Some (48 * hour)%Z).
Proof.
  apply (proj2 (get_records_no_leakage (lab_es lab_rows) (VInt 10)
                  "LABEVENTS" "CHARTTIME" (48 * hour)%Z))
    with (t' := (49 * hour)%Z).
  - reflexivity.
  - vm_compute. reflexivity.
Defined.

(** The end-to-end scenario: the window of the admission holds the rows
    charted within 48 hours, and not the one charted at 49 hours. *)
Example get_records_scenario :
  get_records (lab_es (lab_rows ++ [late_row])) (VInt 10) "LABEVENTS"
              (Some "CHARTTIME") (Some (48 * hour)%Z)
  = Ok (mkFrame lab_columns
                [lab_row 1 10 (2 * hour) 7; lab_row 3 10 (48 * hour) 5]).
Proof. reflexivity. Qed.

End RecordsFacts.

(** ** Cutoff-time propagation *)

Module CutoffFacts.
Import Frame Cutoff FrameFacts.

Lemma value_eqb_eq a b : value_eqb a b = true -> a = b.
Proof.
  destruct a, b; simpl; intros H; try discriminate;
    try (apply Z.eqb_eq in H; now subst);
    apply String.eqb_eq in H; now subst.
Qed.

(** *** The lookup by a Series of foreign keys *)

(** The lookup fails as soon as one key is not a column label. *)
Lemma getitem_KeyError df : forall key,
  existsb (fun v => match column_label df v with
                    | None => true
                    | Some _ => false
                    end) key = true ->
  getitem df key = Raise KeyError.
Proof.
  induction key as [|v key IH]; simpl; [discriminate|].
  destruct (column_label df v) as [c|]; [|reflexivity].
  simpl. intros H. now rewrite (IH H).
Qed.

(** It fails with no other exception. *)
Lemma getitem_cases df : forall key,
  getitem df key = Raise KeyError \/ exists cs, getitem df key = Ok cs.
Proof.
  induction key as [|v key IH]; simpl; [right; eauto|].
  destruct (column_label df v) as [c|]; [|now left].
  destruct IH as [->|(cs & ->)]; [now left | right; simpl; eauto].
Qed.

Lemma child_lookup_ordinary es r :
  ordinary_keys es r = true -> child_lookup es r = Raise KeyError.
Proof.
  unfold ordinary_keys, child_lookup, child_column.
  destruct (es_get es (child_dataframe r)) as [child_df| |];
    [|discriminate|discriminate].
  cbn [bind].
  destruct (series child_df (child_column_name r)) as [key| |];
    [|discriminate|discriminate].
  cbn [bind]. intros H. now rewrite (getitem_KeyError child_df _ H).
Qed.

(** *** The parent-to-child branch *)

(** Lines 105 to 107 never complete: the lookup raises [KeyError], or it
    selects columns and [loc] refuses the two-dimensional array. *)
Lemma to_child_never_returns es r ct out : to_child es r ct <> Ok out.
Proof.
  unfold to_child. destruct (child_lookup es r) as [found| |]; discriminate.
Qed.

Lemma to_child_ordinary es r ct :
  ordinary_keys es r = true -> to_child es r ct = Raise KeyError.
Proof.
  intros H. unfold to_child. now rewrite (child_lookup_ordinary es r H).
Qed.

(** *** The child-to-parent branch *)

(** Line 111 raises before it assigns anything. *)
Lemma assign_child_column_ordinary es r ct :
  ordinary_keys es r = true ->
  assign_child_column es r ct = (ct, Raise KeyError).
Proof.
  intros H. unfold assign_child_column.
  now rewrite (child_lookup_ordinary es r H).
Qed.

(** Lines 112 to 117: the minimum is taken for the spelling ["earist"];
    every value of [reduce] other than ["latest"] and ["earist"],
    ["earliest"] among them, is answered with [ValueError]. *)
Lemma reduce_to_parent_unknown es r reduce ct :
  reduce <> "latest" -> reduce <> "earist" ->
  reduce_to_parent es r reduce ct = Raise (ValueError "Unknown reduce option.").
Proof.
  intros H1 H2. unfold reduce_to_parent.
  apply String.eqb_neq in H1, H2. now rewrite H1, H2.
Qed.

Example reduce_to_parent_earliest es r ct :
  reduce_to_parent es r "earliest" ct
  = Raise (ValueError "Unknown reduce option.").
Proof. reflexivity. Qed.

(** *** One hop *)

Lemma options_head es source target r rest :
  options es source target = r :: rest ->
  (child_dataframe r = source /\ parent_dataframe r = target) \/
  (parent_dataframe r = source /\ child_dataframe r = target).
Proof.
  intros H.
  assert (In r (options es source target)) as Hin by (rewrite H; now left).
  unfold options in Hin. apply filter_In in Hin. destruct Hin as [_ Hb].
  apply orb_true_iff in Hb.
  destruct Hb as [Hb|Hb]; apply andb_true_iff in Hb; destruct Hb as [Ha Hb];
    apply String.eqb_eq in Ha, Hb; auto.
Qed.

Lemma options_In es source target r rest :
  options es source target = r :: rest -> In r (relationships es).
Proof.
  intros H.
  assert (In r (options es source target)) as Hin by (rewrite H; now left).
  unfold options in Hin. apply filter_In in Hin. exact (proj1 Hin).
Qed.

(** A hop whose child dataframe has ordinary keys raises [KeyError],
    whichever way it goes, and leaves the caller's frame as it was. *)
Lemma hop_ordinary es reduce source target caller ct r rest :
  options es source target = r :: rest ->
  ordinary_keys es r = true ->
  hop es reduce source target caller ct = (caller, Raise KeyError).
Proof.
  intros Hopt Hord. unfold hop. rewrite Hopt.
  destruct (String.eqb_spec target (child_dataframe r)) as [Ht|Hne].
  - now rewrite (to_child_ordinary es r _ Hord).
  - destruct (options_head es source target r rest Hopt) as [[Hs _]|[_ Ht]];
      [|congruence].
    subst source. rewrite String.eqb_refl.
    rewrite (assign_child_column_ordinary es r _ Hord).
    destruct ct; reflexivity.
Qed.

(** A parent-to-child hop never completes. *)
Lemma hop_to_child_never_returns es reduce source target caller ct r rest :
  options es source target = r :: rest ->
  target = child_dataframe r ->
  forall out, snd (hop es reduce source target caller ct) <> Ok out.
Proof.
  intros Hopt Ht out. unfold hop. rewrite Hopt, Ht, String.eqb_refl.
  cbn [snd]. pose proof (to_child_never_returns es r (deref caller ct)) as H.
  destruct (to_child es r (deref caller ct)) as [new| |];
    [destruct (H new eq_refl) | discriminate | discriminate].
Qed.

(** No child-to-parent hop completes with a reduction other than
    ["latest"] and ["earist"]. *)
Lemma hop_to_parent_unknown_reduce es reduce source target caller ct r rest :
  options es source target = r :: rest ->
  target <> child_dataframe r ->
  reduce <> "latest" -> reduce <> "earist" ->
  forall out, snd (hop es reduce source target caller ct) <> Ok out.
Proof.
  intros Hopt Hne H1 H2 out. unfold hop. rewrite Hopt.
  destruct (options_head es source target r rest Hopt) as [[Hs _]|[_ Ht]];
    [|congruence].
  apply not_eq_sym in Hne. apply String.eqb_neq in Hne.
  rewrite String.eqb_sym, Hne. subst source. rewrite String.eqb_refl.
  destruct (assign_child_column es r (deref caller ct)) as [assigned done].
  cbn [snd]. destruct done as [u| |]; cbn [bind]; try discriminate.
  rewrite reduce_to_parent_unknown by assumption. discriminate.
Qed.

(** *** The loop *)

Lemma hops_cons es reduce source target rest caller ct :
  hops es reduce (source :: target :: rest) caller ct
  = match hop es reduce source target caller ct with
    | (caller', Ok ct') => hops es reduce (target :: rest) caller' ct'
    | failed => failed
    end.
Proof. reflexivity. Qed.

(** Once [cutoff_times] names a frame created during the call, the
    caller's frame is no longer written to. *)
Lemma hop_local_frame es reduce source target caller df :
  fst (hop es reduce source target caller (Local df)) = caller.
Proof.
  unfold hop. destruct (options es source target) as [|r rest]; [reflexivity|].
  destruct (String.eqb target (child_dataframe r)); [reflexivity|].
  destruct (String.eqb source (child_dataframe r)); [|reflexivity].
  cbn [deref]. destruct (assign_child_column es r df); reflexivity.
Qed.

Lemma hop_local_result es reduce source target caller df caller' o :
  hop es reduce source target caller (Local df) = (caller', Ok o) ->
  exists df', o = Local df'.
Proof.
  unfold hop. destruct (options es source target) as [|r rest]; [discriminate|].
  destruct (String.eqb target (child_dataframe r)).
  - intros H. inversion H as [[Hc Ho]]. apply bind_ok in Ho.
    destruct Ho as (new & _ & Ho). inversion Ho. eauto.
  - destruct (String.eqb source (child_dataframe r)).
    + cbn [deref]. destruct (assign_child_column es r df) as [assigned done].
      intros H. inversion H as [[Hc Ho]]. apply bind_ok in Ho.
      destruct Ho as (u & _ & Ho). apply bind_ok in Ho.
      destruct Ho as (new & _ & Ho). inversion Ho. eauto.
    + intros H. inversion H. eauto.
Qed.

Lemma hops_local_frame es reduce : forall path caller df,
  fst (hops es reduce path caller (Local df)) = caller.
Proof.
  induction path as [|source path IH]; intros caller df; [reflexivity|].
  destruct path as [|target path]; [reflexivity|].
  rewrite hops_cons.
  pose proof (hop_local_frame es reduce source target caller df) as Hf.
  destruct (hop es reduce source target caller (Local df)) as [caller' [o| |]] eqn:E;
    cbn [fst] in Hf; subst caller'; try reflexivity.
  destruct (hop_local_result _ _ _ _ _ _ _ _ E) as [df' ->]. apply IH.
Qed.

(** *** The claims *)

(** C4: the claim is not met by the code.  Every patient has a cutoff
    time, and yet the propagation to the admissions gives no admission
    the cutoff time of its patient: it raises [KeyError] on line 105,
    where the child dataframe is indexed by the Series [r.child_column],
    whose values, the patient identifiers 1, 1 and 2, are looked up
    among the column labels of the admissions. *)
Theorem transfer_to_child_raises :
  transfer_cutoff_times hospital patient_cutoffs
    "PATIENTS" "ADMISSIONS" "latest" = (patient_cutoffs, Raise KeyError) /\
  child_column hospital
    (mkRelationship "PATIENTS" "SUBJECT_ID" "ADMISSIONS" "SUBJECT_ID")
  = Ok [(VInt 100, VInt 1); (VInt 101, VInt 1); (VInt 102, VInt 2)] /\
  index patient_cutoffs = [VInt 1; VInt 2] /\
  columns admissions = ["HADM_ID"; "SUBJECT_ID"].
Proof. repeat split. Qed.

(** C2: the claim is not met by the code.  With cutoff times 10:00 and
    14:00 for the two admissions of patient 1, the propagation to the
    patients gives patient 1 neither 14:00 under ["latest"] nor 10:00
    under ["earliest"]: both calls raise [KeyError] on line 111, where
    the child dataframe is indexed by the Series [r.child_column]. *)
Theorem transfer_earliest_raises :
  transfer_cutoff_times hospital admission_cutoffs
    "ADMISSIONS" "PATIENTS" "earliest" = (admission_cutoffs, Raise KeyError) /\
  transfer_cutoff_times hospital admission_cutoffs
    "ADMISSIONS" "PATIENTS" "latest" = (admission_cutoffs, Raise KeyError).
Proof. split; reflexivity. Qed.

(** C10: the claim is not met by the code.  Line 111 assigns to the frame
    the caller passed.  The alarms refer to their items by identifiers
    that are column labels of the alarms, so that the lookup on the
    right-hand side selects the columns [HR] and [SBP]; after the call
    the caller's frame of cutoff times, which had the single column
    [time], has these two columns as well. *)
Theorem transfer_changes_caller_frame :
  fst (transfer_cutoff_times monitor alarm_cutoffs "ALARMS" "ITEMS" "latest")
  = mkFrame ["time"; "HR"; "SBP"]
      [mkRow (VInt 1) [("time", VTime t10); ("HR", VInt 140); ("SBP", VInt 110)];
       mkRow (VInt 2) [("time", VTime t14); ("HR", VInt 80); ("SBP", VInt 60)]] /\
  columns alarm_cutoffs = ["time"].
Proof. split; reflexivity. Qed.

(** What that call returns: the cutoff times of the two items. *)
Example transfer_monitor_returns :
  returned (transfer_cutoff_times monitor alarm_cutoffs
              "ALARMS" "ITEMS" "latest")
  = Ok (mkFrame ["time"; "HR"; "SBP"]
          [mkRow (VStr "HR")
                 [("time", VTime t10); ("HR", VInt 140); ("SBP", VInt 110)];
           mkRow (VStr "SBP")
                 [("time", VTime t14); ("HR", VInt 80); ("SBP", VInt 60)]]).
Proof. reflexivity. Qed.

End CutoffFacts.

(** ** Feature post-processing *)

Module FeaturesFacts.
Import Frame Features FrameFacts.

Lemma existsb_eqb_In (c : string) (l : list string) :
  existsb (String.eqb c) l = true <-> In c l.
Proof.
  rewrite existsb_exists. split.
  - intros (x & Hx & E). apply String.eqb_eq in E. now subst.
  - intros H. exists c. split; [exact H | apply String.eqb_refl].
Qed.

Lemma filter_twice {A} (p q : A -> bool) (l : list A) :
  filter p (filter q l) = filter (fun x => q x && p x) l.
Proof.
  induction l as [|a l IH]; [reflexivity|]. simpl.
  destruct (q a); simpl; [destruct (p a)|]; now rewrite IH.
Qed.

(** *** Removal of columns *)

Lemma pop_columns_spec : forall cols fm,
  NoDup cols -> incl cols (columns fm) ->
  exists fm',
    pop_columns fm cols = Ok fm' /\
    columns fm' = filter (fun c => negb (existsb (String.eqb c) cols)) (columns fm) /\
    index fm' = index fm /\
    forall c, ~ In c cols ->
      map (fun r => cell r c) (rows fm') = map (fun r => cell r c) (rows fm).
Proof.
  induction cols as [|column cols IH]; intros fm Hnd Hincl.
  - exists fm. repeat split.
    cbn [existsb negb]. induction (columns fm) as [|a l IHl]; [reflexivity|].
    simpl. now rewrite <- IHl.
  - inversion Hnd as [|? ? Hnotin Hnd']; subst.
    assert (has_column fm column = true) as Hc.
    { apply existsb_eqb_In. apply Hincl. now left. }
    cbn [pop_columns]. unfold pop_column. rewrite Hc. cbn [bind].
    set (fm1 := mkFrame _ _).
    destruct (IH fm1 Hnd') as (fm' & Hpop & Hcols & Hidx & Hcells).
    { intros x Hx. unfold fm1. cbn [columns]. apply filter_In. split.
      - apply Hincl. now right.
      - apply negb_true_iff, String.eqb_neq. intros ->. contradiction. }
    exists fm'. split; [exact Hpop|]. split; [|split].
    + rewrite Hcols. unfold fm1. cbn [columns]. rewrite filter_twice.
      apply filter_ext. intros c. cbn [existsb].
      rewrite negb_orb. reflexivity.
    + rewrite Hidx. unfold fm1, index. cbn [rows]. rewrite map_map. reflexivity.
    + intros c Hnin. rewrite Hcells by (intros H; apply Hnin; now right).
      unfold fm1. cbn [rows]. rewrite map_map. apply map_ext. intros r.
      unfold cell. cbn [cells]. rewrite assoc_remove_other; [reflexivity|].
      intros ->. apply Hnin. now left.
Qed.

Lemma uninterpretable_iff cols column :
  uninterpretable cols column = true <->
  contains WHERE column = false /\
  exists w, In w cols /\ contains WHERE w = true /\
            contains (before WHERE w) column = true.
Proof.
  unfold uninterpretable, where_prefix.
  rewrite andb_true_iff, negb_true_iff, existsb_exists. split.
  - intros [(p & Hp & Hc) Hw]. split; [exact Hw|].
    apply in_map_iff in Hp. destruct Hp as (w & <- & Hin).
    apply filter_In in Hin. destruct Hin as [Hin Hww]. eauto.
  - intros [Hw (w & Hin & Hww & Hc)]. split; [|exact Hw].
    exists (before WHERE w). split; [|exact Hc].
    apply in_map_iff. exists w. split; [reflexivity|].
    apply filter_In. auto.
Qed.

(** C8, as stated in the specification, fails: with the names
    featuretools gives an aggregation and its filtered variant, the
    unfiltered column is dropped, although its name is not a prefix of
    the name of the filtered one. *)
Lemma dropped_without_being_a_prefix :
  remove_uninterpretable_features
    (two_columns ft_unfiltered_name ft_filtered_name)
    (two_features ft_unfiltered_name ft_filtered_name)
  = Ok (mkFrame [ft_filtered_name]
          [mkRow (VInt 100) [(ft_filtered_name, VInt 5)];
           mkRow (VInt 101) [(ft_filtered_name, VInt 6)]],
        [mkFeature ft_filtered_name "LABEVENTS"]) /\
  prefix_of_filtered [ft_unfiltered_name; ft_filtered_name] ft_unfiltered_name
  = false.
Proof. split; reflexivity. Qed.

(** C8 (amended): on a feature matrix whose column names are distinct,
    [remove_uninterpretable_features] returns; a column is dropped if and
    only if its name does not contain [" WHERE "] and contains, anywhere,
    the part before the first [" WHERE "] of the name of some column that
    does; the other columns keep their order and their values; and the
    descriptors kept are exactly those, in order, whose name is a
    surviving column. *)
Theorem remove_uninterpretable_features_spec (fm : DataFrame)
        (fl : list Feature) :
  NoDup (columns fm) ->
  exists fm',
    remove_uninterpretable_features fm fl
      = Ok (fm', filter (fun f => has_column fm' (get_name f)) fl) /\
    columns fm'
      = filter (fun c => negb (uninterpretable (columns fm) c)) (columns fm) /\
    (forall c, In c (columns fm) ->
       (~ In c (columns fm') <->
        contains WHERE c = false /\
        exists w, In w (columns fm) /\ contains WHERE w = true /\
                  contains (before WHERE w) c = true)) /\
    index fm' = index fm /\
    (forall c, In c (columns fm') ->
       column_values fm' c = column_values fm c).
Proof.
  intros Hnd. unfold remove_uninterpretable_features.
  set (ucols := filter (uninterpretable (columns fm)) (columns fm)).
  destruct (pop_columns_spec ucols fm) as (fm' & Hpop & Hcols & Hidx & Hcells).
  { now apply NoDup_filter. }
  { intros x Hx. apply filter_In in Hx. tauto. }
  assert (columns fm'
          = filter (fun c => negb (uninterpretable (columns fm) c)) (columns fm))
    as Hcols'.
  { rewrite Hcols. apply filter_ext_in. intros c Hc. f_equal.
    destruct (uninterpretable (columns fm) c) eqn:E.
    - apply existsb_eqb_In. apply filter_In. auto.
    - destruct (existsb (String.eqb c) ucols) eqn:E'; [|reflexivity].
      apply existsb_eqb_In in E'. apply filter_In in E'. destruct E'. congruence. }
  exists fm'. rewrite Hpop. cbn [bind].
  split; [reflexivity|]. split; [exact Hcols'|]. split; [|split; [exact Hidx|]].
  - intros c Hc. rewrite <- uninterpretable_iff. rewrite Hcols', filter_In.
    destruct (uninterpretable (columns fm) c); cbn [negb]; split.
    + reflexivity.
    + intros _ [_ H]. discriminate.
    + intros H. exfalso. apply H. auto.
    + discriminate.
  - intros c Hc. unfold column_values.
    assert (In c (columns fm) /\ uninterpretable (columns fm) c = false) as [Hin Hu].
    { rewrite Hcols' in Hc. apply filter_In in Hc. destruct Hc as [H1 H2].
      apply negb_true_iff in H2. auto. }
    unfold has_column.
    rewrite (proj2 (existsb_eqb_In c (columns fm')) Hc).
    rewrite (proj2 (existsb_eqb_In c (columns fm)) Hin).
    f_equal. apply Hcells. intros H. apply filter_In in H. destruct H. congruence.
Qed.

Lemma remove_uninterpretable_features_spec_witness :
  exists fm',
    remove_uninterpretable_features
      (two_columns unfiltered_name filtered_name)
      (two_features unfiltered_name filtered_name)
      = Ok (fm', filter (fun f => has_column fm' (get_name f))
                        (two_features unfiltered_name filtered_name)) /\
    columns fm' = [filtered_name].
Proof.
  destruct (remove_uninterpretable_features_spec
              (two_columns unfiltered_name filtered_name)
              (two_features unfiltered_name filtered_name))
    as (fm' & H1 & H2 & _).
  - repeat constructor; simpl; intuition discriminate.
  - exists fm'. split; [exact H1 | exact H2].
Defined.

(** *** Merging *)

Lemma assoc_set_other c c' v (l : list (string * value)) :
  c' <> c -> assoc c' (set_assoc c v l) = assoc c' l.
Proof.
  intros Hne. apply not_eq_sym in Hne. apply String.eqb_neq in Hne.
  induction l as [|[k w] l IH]; simpl; [now rewrite Hne|].
  destruct (String.eqb_spec k c) as [->|Hk]; simpl.
  - now rewrite Hne.
  - now rewrite IH.
Qed.

Lemma set_cells_labels c : forall rs vs,
  List.length vs = List.length rs ->
  map label (set_cells c rs vs) = map label rs.
Proof.
  induction rs as [|r rs IH]; intros [|v vs] H; try discriminate; [reflexivity|].
  simpl. f_equal. apply IH. now inversion H.
Qed.

Lemma set_cells_new c : forall rs vs,
  List.length vs = List.length rs ->
  map (fun r => cell r c) (set_cells c rs vs) = vs.
Proof.
  induction rs as [|r rs IH]; intros [|v vs] H; try discriminate; [reflexivity|].
  cbn [set_cells map]. rewrite FrameFacts.cell_set_cell. f_equal.
  apply IH. now inversion H.
Qed.

Lemma set_cells_other c c' : c' <> c -> forall rs vs,
  List.length vs = List.length rs ->
  map (fun r => cell r c') (set_cells c rs vs) = map (fun r => cell r c') rs.
Proof.
  intros Hne. induction rs as [|r rs IH]; intros [|v vs] H; try discriminate;
    [reflexivity|].
  cbn [set_cells map]. f_equal; [|apply IH; now inversion H].
  unfold cell, set_cell. cbn [cells]. now rewrite assoc_set_other.
Qed.

(** Assigning a new column from a series that has the index of the
    frame. *)
Lemma assign_new_column A c s :
  map fst s = index A -> has_column A c = false ->
  assign_column A c s
  = Ok (mkFrame (columns A ++ [c]) (set_cells c (rows A) (map snd s))).
Proof.
  intros Hidx Hc. unfold assign_column, align. rewrite Hc, Hidx, labels_eqb_refl.
  unfold index in Hidx.
  destruct (rows A) as [|r rs]; destruct s as [|lv s']; try discriminate;
    reflexivity.
Qed.

Lemma has_column_app A c c' rs :
  has_column (mkFrame (columns A ++ [c]) rs) c'
  = has_column A c' || String.eqb c' c.
Proof.
  unfold has_column. cbn [columns]. rewrite existsb_app. simpl.
  now rewrite orb_false_r.
Qed.

(** What one source does to the matrix: the index and the columns
    already there are kept, and a column that appears is named by the
    source's descriptor list and has the values of the source's table. *)
Lemma merge_source_spec fm : forall fl acc acc',
  index fm = index (fst acc) ->
  merge_source fm fl acc = Ok acc' ->
  index (fst acc') = index (fst acc) /\
  (forall c, has_column (fst acc) c = true ->
     has_column (fst acc') c = true /\
     column_values (fst acc') c = column_values (fst acc) c) /\
  (forall c, has_column (fst acc') c = true ->
     has_column (fst acc) c = true \/
     (In c (map get_name fl) /\ has_column fm c = true /\
      column_values (fst acc') c = column_values fm c)) /\
  (forall c, In c (map get_name fl) -> has_column (fst acc') c = true).
Proof.
  induction fl as [|f fl IH]; intros [A L] acc' Hidx H; cbn [fst] in *.
  - inversion H; subst. cbn [fst]. repeat split; auto; intros c [].
  - cbn [merge_source fst snd] in H.
    destruct (has_column A (get_name f)) eqn:Ec.
    + destruct (IH (A, L) acc' Hidx H) as (I1 & I2 & I3 & I4). cbn [fst] in *.
      split; [exact I1|]. split; [exact I2|]. split.
      * intros c Hc. destruct (I3 c Hc) as [K|(K1 & K2 & K3)]; [now left|].
        right. split; [now right | auto].
      * intros c [<-|Hc]; [|now apply I4]. exact (proj1 (I2 _ Ec)).
    + apply FrameFacts.bind_ok in H. destruct H as (s & Hs & H).
      apply FrameFacts.bind_ok in H. destruct H as (A1 & HA1 & H).
      unfold series in Hs.
      destruct (has_column fm (get_name f)) eqn:Efm; [|discriminate].
      inversion Hs; subst s. clear Hs.
      assert (map fst (map (fun r => (label r, cell r (get_name f))) (rows fm))
              = index A) as Hsi.
      { rewrite map_map. cbn [fst]. exact Hidx. }
      rewrite (assign_new_column A _ _ Hsi Ec) in HA1.
      inversion HA1; subst A1. clear HA1.
      rewrite map_map in H. cbn [snd] in H.
      set (vs := map (fun r => cell r (get_name f)) (rows fm)) in *.
      assert (List.length vs = List.length (rows A)) as Hlen.
      { unfold vs. rewrite length_map.
        unfold index in Hidx. apply (f_equal (@List.length value)) in Hidx.
        now rewrite !length_map in Hidx. }
      set (A1 := mkFrame (columns A ++ [get_name f])
                         (set_cells (get_name f) (rows A) vs)) in *.
      assert (index A1 = index A) as HiA1
        by (unfold index, A1; cbn [rows]; now apply set_cells_labels).
      destruct (IH (A1, L ++ [f]) acc') as (I1 & I2 & I3 & I4).
      { cbn [fst]. congruence. }
      { exact H. }
      cbn [fst] in *.
      assert (column_values A1 (get_name f) = column_values fm (get_name f))
        as Hnew.
      { unfold column_values. rewrite Efm. unfold A1 at 1.
        rewrite has_column_app, String.eqb_refl, orb_true_r. f_equal.
        unfold A1. cbn [rows]. now apply set_cells_new. }
      assert (has_column A1 (get_name f) = true) as HcA1.
      { unfold A1. rewrite has_column_app, String.eqb_refl. apply orb_true_r. }
      split; [congruence|]. split; [|split].
      * intros c Hc.
        assert (has_column A1 c = true) as Hc1.
        { unfold A1. rewrite has_column_app, Hc. reflexivity. }
        destruct (I2 c Hc1) as [K1 K2]. split; [exact K1|]. rewrite K2.
        unfold column_values. rewrite Hc1, Hc. f_equal.
        unfold A1. cbn [rows]. apply set_cells_other; [|exact Hlen].
        intros ->. congruence.
      * intros c Hc. destruct (I3 c Hc) as [K|(K1 & K2 & K3)].
        -- unfold A1 in K. rewrite has_column_app in K.
           apply orb_true_iff in K. destruct K as [K|K]; [now left|].
           apply String.eqb_eq in K. subst c. right.
           split; [now left|]. split; [exact Efm|].
           rewrite (proj2 (I2 _ HcA1)). exact Hnew.
        -- right. split; [now right | auto].
      * intros c [<-|Hc]; [|now apply I4]. exact (proj1 (I2 _ HcA1)).
Qed.

Lemma merge_sources_spec : forall sources acc acc',
  (forall fm fl, In (fm, fl) sources -> index fm = index (fst acc)) ->
  merge_sources sources acc = Ok acc' ->
  index (fst acc') = index (fst acc) /\
  (forall c, has_column (fst acc) c = true ->
     has_column (fst acc') c = true /\
     column_values (fst acc') c = column_values (fst acc) c) /\
  (forall c, has_column (fst acc') c = true ->
     has_column (fst acc) c = true \/
     exists j fm fl,
       nth_error sources j = Some (fm, fl) /\
       In c (map get_name fl) /\ has_column fm c = true).
Proof.
  induction sources as [|[fm fl] sources IH]; intros acc acc' Hidx H.
  - inversion H; subst. repeat split; auto.
  - cbn [merge_sources] in H. apply FrameFacts.bind_ok in H.
    destruct H as (acc1 & H1 & H).
    destruct (merge_source_spec fm fl acc acc1) as (S1 & S2 & S3 & _);
      [apply (Hidx fm fl); now left | exact H1 |].
    destruct (IH acc1 acc') as (I1 & I2 & I3).
    { intros fm' fl' Hin. rewrite S1. apply (Hidx fm' fl'). now right. }
    { exact H. }
    split; [congruence|]. split.
    + intros c Hc. destruct (S2 c Hc) as [K1 K2].
      destruct (I2 c K1) as [K3 K4]. split; [exact K3 | congruence].
    + intros c Hc. destruct (I3 c Hc) as [K|(j & fm' & fl' & Hn & K1 & K2)].
      * destruct (S3 c K) as [K'|(K1 & K2 & _)]; [now left|].
        right. exists 0, fm, fl. auto.
      * right. exists (S j), fm', fl'. auto.
Qed.

Lemma merge_sources_app : forall pre post acc,
  merge_sources (pre ++ post) acc
  = (acc1 <- merge_sources pre acc ;; merge_sources post acc1).
Proof.
  induction pre as [|[fm fl] pre IH]; intros post acc; [reflexivity|].
  cbn [app merge_sources]. destruct (merge_source fm fl acc); cbn [bind]; auto.
Qed.

(** C7: let the merge of the source tables succeed, all of them carrying
    the index of the first, whose labels are distinct.  For every feature
    name, the column of the merged matrix holds the values of the first
    source, in the order given, that produces the name: a later source
    that produces it too neither replaces nor alters them. *)
Theorem merge_precedence (fm_list : list DataFrame)
        (fl_list : list (list Feature)) (fm0 : DataFrame)
        (merged : DataFrame) (fl : list Feature) :
  merge_features fm_list fl_list = Ok (merged, fl) ->
  hd_error fm_list = Some fm0 ->
  Forall (fun fm => index fm = index fm0) fm_list ->
  unique_labels (index fm0) = true ->
  forall i fm_i fl_i name,
    nth_error (combine fm_list fl_list) i = Some (fm_i, fl_i) ->
    produces i fm_i fl_i name ->
    (forall j fm_j fl_j,
       j < i -> nth_error (combine fm_list fl_list) j = Some (fm_j, fl_j) ->
       ~ produces j fm_j fl_j name) ->
    column_values merged name = column_values fm_i name.
Proof.
  intros H Hhd Hidx Hu i fm_i fl_i name Hn [Hcol Hprod] Hfirst.
  destruct fm_list as [|fm0' fms]; [discriminate|].
  inversion Hhd; subst fm0'. clear Hhd.
  destruct fl_list as [|fl0 fls]; [discriminate|].
  unfold merge_features in H.
  apply FrameFacts.bind_ok in H. destruct H as (acc & Hacc & H).
  apply FrameFacts.bind_ok in H. destruct H as (out & Hout & H).
  inversion H; subst out fl. clear H.
  set (sources := combine (fm0 :: fms) (fl0 :: fls)) in *.
  assert (forall fm fl', In (fm, fl') sources -> index fm = index fm0) as Hsrc.
  { intros fm fl' Hin. apply in_combine_l in Hin.
    rewrite Forall_forall in Hidx. now apply Hidx. }
  destruct (merge_sources_spec sources (fm0, fl0) acc Hsrc Hacc)
    as (A1 & A2 & A3). cbn [fst] in *.
  rewrite <- A1 in Hout. rewrite loc_self in Hout by (rewrite A1; exact Hu).
  inversion Hout; subst merged. clear Hout.
  destruct i as [|i].
  - (* the first table is taken whole *)
    cbn in Hn. inversion Hn; subst fm_i fl_i. exact (proj2 (A2 name Hcol)).
  - destruct Hprod as [Hz|Hin]; [discriminate|].
    destruct (nth_error_split sources (S i) Hn) as (pre & post & Hsplit & Hlen).
    rewrite Hsplit in Hacc. rewrite merge_sources_app in Hacc.
    apply FrameFacts.bind_ok in Hacc. destruct Hacc as (acc1 & Hpre & Hacc).
    cbn [merge_sources] in Hacc. apply FrameFacts.bind_ok in Hacc.
    destruct Hacc as (acc2 & Hmid & Hpost).
    assert (forall fm fl', In (fm, fl') pre -> index fm = index fm0) as Hsrc1.
    { intros fm fl' Hin'. apply (Hsrc fm fl'). rewrite Hsplit.
      apply in_or_app. now left. }
    destruct (merge_sources_spec pre (fm0, fl0) acc1 Hsrc1 Hpre)
      as (P1 & P2 & P3). cbn [fst] in *.
    assert (has_column (fst acc1) name = false) as Hnot.
    { destruct (has_column (fst acc1) name) eqn:E; [|reflexivity]. exfalso.
      destruct (P3 name E) as [K|(j & fm & fl' & Hj & K1 & K2)].
      - apply (Hfirst 0 fm0 fl0); [lia | reflexivity | split; auto].
      - assert (j < S i) as Hlt.
        { rewrite <- Hlen. apply nth_error_Some. congruence. }
        apply (Hfirst j fm fl' Hlt).
        + rewrite Hsplit. rewrite nth_error_app1; [exact Hj|].
          apply nth_error_Some. congruence.
        + split; auto. }
    assert (index fm_i = index (fst acc1)) as Hi1.
    { rewrite P1. apply (Hsrc fm_i fl_i). rewrite Hsplit.
      apply in_or_app. right. now left. }
    destruct (merge_source_spec fm_i fl_i acc1 acc2 Hi1 Hmid)
      as (M1 & M2 & M3 & M4).
    pose proof (M4 name Hin) as Hc2.
    destruct (M3 name Hc2) as [K|(_ & _ & K)]; [congruence|].
    assert (forall fm fl', In (fm, fl') post -> index fm = index (fst acc2))
      as Hsrc2.
    { intros fm fl' Hin'. rewrite M1, P1. apply (Hsrc fm fl'). rewrite Hsplit.
      apply in_or_app. right. now right. }
    destruct (merge_sources_spec post acc2 acc Hsrc2 Hpost) as (_ & Q2 & _).
    rewrite (proj2 (Q2 name Hc2)). exact K.
Qed.

Lemma merge_precedence_witness :
  column_values
    (mkFrame ["X"; "Y"]
       [mkRow (VInt 100) [("X", VInt 1); ("Y", VInt 40)];
        mkRow (VInt 101) [("X", VInt 2); ("Y", VInt 41)]]) "X"
  = column_values first_source "X".
Proof.
  apply (merge_precedence [first_source; second_source]
           [[mkFeature "X" "ADMISSIONS"];
            [mkFeature "X" "LABEVENTS"; mkFeature "Y" "LABEVENTS"]]
           first_source _
           [mkFeature "X" "ADMISSIONS"; mkFeature "Y" "LABEVENTS"])
    with (i := 0) (fl_i := [mkFeature "X" "ADMISSIONS"]).
  - reflexivity.
  - reflexivity.
  - repeat constructor.
  - reflexivity.
  - reflexivity.
  - split; [reflexivity | now left].
  - intros j fm_j fl_j Hj. lia.
Defined.

(** The same on the second column, which only the second source
    produces, and on the descriptor list, where the later duplicate is
    dropped. *)
Example merge_features_example :
  merge_features [first_source; second_source]
    [[mkFeature "X" "ADMISSIONS"];
     [mkFeature "X" "LABEVENTS"; mkFeature "Y" "LABEVENTS"]]
  = Ok (mkFrame ["X"; "Y"]
          [mkRow (VInt 100) [("X", VInt 1); ("Y", VInt 40)];
           mkRow (VInt 101) [("X", VInt 2); ("Y", VInt 41)]],
        [mkFeature "X" "ADMISSIONS"; mkFeature "Y" "LABEVENTS"]).
Proof. reflexivity. Qed.

End FeaturesFacts.

(** ** Facts on binary64 floats *)

Module FloatFacts.
Import FloatOrder.

Local Open Scope float_scope.

Lemma SFcompare_antisym x y :
  SFcompare y x = match SFcompare x y with
                  | Some c => Some (CompOpp c)
                  | None => None
                  end.
Proof.
  destruct x as [sx|sx| |sx mx ex], y as [sy|sy| |sy my ey]; simpl;
    try reflexivity;
    try (destruct sx; reflexivity); try (destruct sy; reflexivity);
    try (destruct sx, sy; reflexivity).
  change (Pos.compare_cont Eq my mx) with (Pos.compare my mx).
  change (Pos.compare_cont Eq mx my) with (Pos.compare mx my).
  rewrite (Z.compare_antisym ex ey), (Pos.compare_antisym mx my).
  destruct sx, sy; try reflexivity;
    destruct (ex ?= ey)%Z; simpl; try reflexivity;
    destruct (mx ?= my)%positive; reflexivity.
Qed.

Lemma SFcompare_refl x : x <> S754_nan -> SFcompare x x = Some Eq.
Proof.
  destruct x as [s|s| |s m e]; simpl; intros H; try congruence.
  - destruct s; reflexivity.
  - change (Pos.compare_cont Eq m m) with (Pos.compare m m).
    rewrite Z.compare_refl, Pos.compare_refl. destruct s; reflexivity.
Qed.

(** [x <= y] excludes [y < x]. *)
Lemma leb_not_gt x y : (x <=? y) = true -> (y <? x) = false.
Proof.
  rewrite leb_spec, ltb_spec. unfold SFleb, SFltb.
  rewrite (SFcompare_antisym (Prim2SF x) (Prim2SF y)).
  destruct (SFcompare (Prim2SF x) (Prim2SF y)) as [[| |]|]; simpl; congruence.
Qed.

Lemma is_nan_spec x : is_nan x = true -> Prim2SF x = S754_nan.
Proof.
  unfold is_nan. rewrite negb_true_iff, eqb_spec. unfold SFeqb. intros H.
  destruct (Prim2SF x) as [s|s| |s m e] eqn:E; try reflexivity;
    rewrite SFcompare_refl in H by discriminate; discriminate.
Qed.

Lemma eqb_zero_spec x : (x =? 0) = true -> exists b, Prim2SF x = S754_zero b.
Proof.
  rewrite eqb_spec. change (Prim2SF 0) with (S754_zero false).
  unfold SFeqb. destruct (Prim2SF x) as [s|s| |s m e]; simpl; eauto;
    try destruct s; discriminate.
Qed.

Lemma SFadd_zero x b : same_order (SFadd prec emax x (S754_zero b)) x.
Proof.
  intros v. destruct x as [sx|sx| |sx mx ex]; try (split; reflexivity).
  destruct sx, b; simpl; destruct v; split; reflexivity.
Qed.

Lemma SFsub_zero x b : same_order (SFsub prec emax x (S754_zero b)) x.
Proof.
  intros v. destruct x as [sx|sx| |sx mx ex]; try (split; reflexivity).
  destruct sx, b; simpl; destruct v; split; reflexivity.
Qed.

Lemma mul_zero_l x :
  (exists b, Prim2SF x = S754_zero b) ->
  exists b, Prim2SF (x * 1.96) = S754_zero b.
Proof.
  intros [b Hb]. rewrite mul_spec, Hb. unfold SF64mul.
  remember (Prim2SF 1.96) as k eqn:Ek. vm_compute in Ek. subst k.
  simpl. eauto.
Qed.

Lemma in_range_not_out low v high :
  (low <=? v) = true -> (v <=? high) = true ->
  (high <? v) = false /\ (v <? low) = false.
Proof. intros H1 H2. split; now apply leb_not_gt. Qed.

Lemma nan_std_not_out m s v :
  is_nan s = true ->
  (m + s * 1.96 <? v) = false /\ (v <? m - s * 1.96) = false.
Proof.
  intros H. apply is_nan_spec in H.
  rewrite !ltb_spec, add_spec, sub_spec, mul_spec, H.
  unfold SF64add, SF64sub, SF64mul, SFltb. cbn [SFmul].
  split.
  - destruct (Prim2SF m); reflexivity.
  - destruct (Prim2SF m), (Prim2SF v); reflexivity.
Qed.

Lemma zero_std_not_out m s v :
  (s =? 0) = true -> (v =? m) = true ->
  (m + s * 1.96 <? v) = false /\ (v <? m - s * 1.96) = false.
Proof.
  intros Hs Hv. destruct (mul_zero_l s (eqb_zero_spec s Hs)) as [b Hb].
  rewrite eqb_spec in Hv. unfold SFeqb in Hv.
  rewrite !ltb_spec, add_spec, sub_spec, Hb. unfold SF64add, SF64sub, SFltb.
  rewrite (proj1 (SFadd_zero (Prim2SF m) b (Prim2SF v))).
  rewrite (proj2 (SFsub_zero (Prim2SF m) b (Prim2SF v))).
  rewrite (SFcompare_antisym (Prim2SF v) (Prim2SF m)).
  destruct (SFcompare (Prim2SF v) (Prim2SF m)) as [[| |]|]; try discriminate.
  split; reflexivity.
Qed.

End FloatFacts.

(** ** What-if explanations *)

Module WhatIfFacts.
Import WhatIf.

Lemma fassoc_set_feature_same f x cells :
  (exists v, fassoc f cells = Some v) ->
  fassoc f (set_feature f x cells) = Some (Num x).
Proof.
  unfold fassoc. induction cells as [|[k v] cells IH]; intros [w Hw];
    simpl in *; [discriminate|].
  destruct (String.eqb k f) eqn:E; simpl; rewrite E; [reflexivity|].
  apply IH. eauto.
Qed.

Lemma fassoc_set_feature_other f c x cells :
  c <> f -> fassoc c (set_feature f x cells) = fassoc c cells.
Proof.
  intros Hne. unfold fassoc.
  induction cells as [|[k v] cells IH]; [reflexivity|]. simpl.
  destruct (String.eqb_spec k f) as [->|Hk]; simpl.
  - apply not_eq_sym in Hne. apply String.eqb_neq in Hne. now rewrite Hne.
  - now rewrite IH.
Qed.

Lemma loc_row_has fm direct_id target_fv f :
  loc_row fm direct_id = Ok target_fv ->
  In f (numeric_cols fm) -> exists v, fassoc f target_fv = Some v.
Proof.
  unfold loc_row, numeric_cols. intros H Hin.
  destruct (find _ (frows fm)) as [r|]; [|discriminate].
  inversion H; subst target_fv. clear H.
  apply in_map_iff in Hin. destruct Hin as (c & <- & Hc).
  apply filter_In in Hc. destruct Hc as [Hc _].
  unfold fassoc. induction (fcolumns fm) as [|c' cols IH]; [destruct Hc|].
  simpl. destruct (String.eqb_spec (fst c') (fst c)) as [E|E]; [eauto|].
  destruct Hc as [->|Hc]; [congruence | now apply IH].
Qed.

Lemma dict_set_keys {A} k k' (v : A) d :
  In k (map fst (dict_set k' v d)) -> k = k' \/ In k (map fst d).
Proof.
  induction d as [|[k0 v0] d IH]; simpl.
  - intros [<-|[]]. now left.
  - destruct (String.eqb k0 k'); simpl; intros [<-|H]; auto.
    destruct (IH H); auto.
Qed.

Lemma dict_set_values {A} k k' (v w : A) d :
  In (k, w) (dict_set k' v d) -> w = v \/ In (k, w) d.
Proof.
  induction d as [|[k0 v0] d IH]; simpl.
  - intros [E|[]]. inversion E. now left.
  - destruct (String.eqb k0 k'); simpl; intros [E|H]; auto.
    + inversion E. now left.
    + destruct (IH H); auto.
Qed.

Lemma fassoc_In {A} k (v : A) d : fassoc k d = Some v -> In (k, v) d.
Proof.
  unfold fassoc. induction d as [|[k0 v0] d IH]; simpl; [discriminate|].
  destruct (String.eqb_spec k0 k) as [->|].
  - intros E; inversion E. now left.
  - intros H. right. now apply IH.
Qed.

Section Engine.

Variable agg_mean agg_std : list float -> float.
Variable explanation : Type.
Variable explain : list FRow -> string -> outcome explanation.
Variable explanation_loc : explanation -> nat -> string -> outcome float.
Variable predict_proba : list FRow -> outcome (list (string * list float)).
Variable model_names : list string.

Abbreviation high_features := (high_features agg_mean agg_std).
Abbreviation low_features := (low_features agg_mean agg_std).
Abbreviation stat_high := (stat_high agg_mean agg_std).
Abbreviation stat_low := (stat_low agg_mean agg_std).
Abbreviation clamped := (clamped agg_mean agg_std).
Abbreviation log_ok := (log_ok agg_mean agg_std).
Abbreviation keys_ok := (keys_ok agg_mean agg_std).
Abbreviation record_entries := (record_entries explanation explanation_loc).
Abbreviation rescore := (rescore explanation explain explanation_loc predict_proba).
Abbreviation explain_target :=
  (explain_target agg_mean agg_std explanation explain explanation_loc
                  predict_proba).
Abbreviation over_targets :=
  (over_targets agg_mean agg_std explanation explain explanation_loc
                predict_proba model_names).
Abbreviation get_what_if_shap_values :=
  (get_what_if_shap_values agg_mean agg_std explanation explain
                           explanation_loc predict_proba model_names).

Lemma perturbed_high_clamped fm direct_id target_fv row :
  loc_row fm direct_id = Ok target_fv ->
  In row (perturbed target_fv (stat_high fm) (high_features fm target_fv)) ->
  clamped fm target_fv row.
Proof.
  intros Hloc Hin. unfold perturbed in Hin. apply in_map_iff in Hin.
  destruct Hin as (f & <- & Hf). apply filter_In in Hf. destruct Hf as [Hnum Hgt].
  unfold WhatIf.clamped. cbn [flabel fcells]. split; [exact Hnum|]. split.
  - left. split; [exact Hgt|]. apply fassoc_set_feature_same.
    exact (loc_row_has fm direct_id target_fv f Hloc Hnum).
  - intros c Hc. now apply fassoc_set_feature_other.
Qed.

Lemma perturbed_low_clamped fm direct_id target_fv row :
  loc_row fm direct_id = Ok target_fv ->
  In row (perturbed target_fv (stat_low fm) (low_features fm target_fv)) ->
  clamped fm target_fv row.
Proof.
  intros Hloc Hin. unfold perturbed in Hin. apply in_map_iff in Hin.
  destruct Hin as (f & <- & Hf). apply filter_In in Hf. destruct Hf as [Hnum Hlt].
  unfold WhatIf.clamped. cbn [flabel fcells]. split; [exact Hnum|]. split.
  - right. split; [exact Hlt|]. apply fassoc_set_feature_same.
    exact (loc_row_has fm direct_id target_fv f Hloc Hnum).
  - intros c Hc. now apply fassoc_set_feature_other.
Qed.

Lemma record_entries_keys e ps : forall fs i task m,
  record_entries e ps i fs task = Ok m ->
  forall k, In k (map fst m) -> In k fs \/ In k (map fst task).
Proof.
  induction fs as [|f fs IH]; intros i task m H k Hk; simpl in H.
  - inversion H; subst. now right.
  - apply FrameFacts.bind_ok in H. destruct H as (sv & _ & H).
    apply FrameFacts.bind_ok in H. destruct H as (p & _ & H).
    destruct (IH _ _ _ H k Hk) as [K|K]; [left; now right|].
    apply dict_set_keys in K. destruct K as [->|K]; [left; now left | now right].
Qed.

Lemma rescore_spec t X fs task log log' r :
  rescore t X fs task log = (log', r) ->
  (exists new, log' = log ++ new /\ forall c, In c new -> submitted c = X) /\
  (forall m, r = Ok m ->
     forall k, In k (map fst m) -> In k fs \/ In k (map fst task)).
Proof.
  unfold WhatIf.rescore. destruct (explain X t) as [e|ex|]; intros H;
    inversion H; subst; clear H.
  - split.
    + eexists. split; [reflexivity|]. intros c [<-|[<-|[]]]; reflexivity.
    + intros m Hm. apply FrameFacts.bind_ok in Hm. destruct Hm as (sc & _ & Hm).
      apply FrameFacts.bind_ok in Hm. destruct Hm as (ps & _ & Hm).
      exact (record_entries_keys e ps fs 0 task m Hm).
  - split; [|discriminate].
    eexists. split; [reflexivity|]. intros c [<-|[]]; reflexivity.
  - split; [|discriminate].
    eexists. split; [reflexivity|]. intros c [<-|[]]; reflexivity.
Qed.

Lemma explain_target_spec fm target_fv t log log' r :
  log_ok fm target_fv log ->
  explain_target fm target_fv t log = (log', r) ->
  log_ok fm target_fv log' /\ (forall m, r = Ok m -> keys_ok fm target_fv m).
Proof.
  intros Hlog. unfold WhatIf.explain_target.
  set (hs := high_features fm target_fv). set (ls := low_features fm target_fv).
  set (Xh := perturbed target_fv (stat_high fm) hs).
  set (Xl := perturbed target_fv (stat_low fm) ls).
  assert (forall log0 new X,
            log_ok fm target_fv log0 ->
            X = Xh \/ X = Xl ->
            (forall c, In c new -> submitted c = X) ->
            log_ok fm target_fv (log0 ++ new)) as Hext.
  { intros log0 new X H0 HX Hnew c Hc.
    apply in_app_or in Hc. destruct Hc as [Hc|Hc]; [now apply (H0 c)|].
    rewrite (Hnew c Hc). exact HX. }
  assert (exists log1 r1,
            match hs with
            | [] => (log, Ok [])
            | _ :: _ => rescore t Xh hs [] log
            end = (log1, r1) /\
            log_ok fm target_fv log1 /\
            forall m, r1 = Ok m -> forall k, In k (map fst m) -> In k hs)
    as (log1 & r1 & E1 & Hlog1 & Hk1).
  { destruct hs as [|h hs'] eqn:Eh.
    - exists log, (Ok []). split; [reflexivity|]. split; [exact Hlog|].
      intros m Hm. inversion Hm. intros k [].
    - destruct (rescore t Xh (h :: hs') [] log) as [log1 r1] eqn:E.
      exists log1, r1. split; [reflexivity|].
      destruct (rescore_spec _ _ _ _ _ _ _ E) as [(new & -> & Hnew) Hkeys].
      split; [apply (Hext log new Xh); auto|].
      intros m Hm k Hk. destruct (Hkeys m Hm k Hk) as [K|[]]. exact K. }
  rewrite E1. destruct r1 as [task| |].
  - destruct ls as [|l ls'] eqn:El.
    + intros H. inversion H; subst. split; [exact Hlog1|].
      intros m Hm. inversion Hm; subst. intros k Hk. left. now apply (Hk1 m).
    + intros H.
      destruct (rescore_spec _ _ _ _ _ _ _ H) as [(new & -> & Hnew) Hkeys].
      split; [apply (Hext log1 new Xl); auto|].
      intros m Hm k Hk. destruct (Hkeys m Hm k Hk) as [K|K].
      * right. unfold ls in El. rewrite El. exact K.
      * left. now apply (Hk1 task).
  - intros H. inversion H; subst. split; [exact Hlog1 | discriminate].
  - intros H. inversion H; subst. split; [exact Hlog1 | discriminate].
Qed.

Lemma explained_on_exception target :
  explained (on_exception model_names target) = [].
Proof.
  destruct target; [reflexivity|]. simpl.
  induction model_names as [|t ts IH]; [reflexivity | exact IH].
Qed.

Lemma over_targets_spec fm target_fv :
  forall targets shap_values last log log' res,
    log_ok fm target_fv log ->
    (forall t m, In (t, m) shap_values -> keys_ok fm target_fv m) ->
    over_targets fm target_fv targets shap_values last log = (log', res) ->
    log_ok fm target_fv log' /\
    forall k, In k (explained res) ->
      In k (high_features fm target_fv) \/ In k (low_features fm target_fv).
Proof.
  induction targets as [|t targets IH];
    intros shap_values last log log' res Hlog Hvals H; cbn [WhatIf.over_targets] in H.
  - inversion H; subst. split; [exact Hlog|]. intros k Hk.
    destruct last as [t|].
    + destruct (fassoc t shap_values) as [m|] eqn:E.
      * apply fassoc_In in E. exact (Hvals t m E k Hk).
      * destruct Hk.
    + simpl in Hk. apply in_flat_map in Hk. destruct Hk as ([t m] & Hin & Hk).
      exact (Hvals t m Hin k Hk).
  - destruct (explain_target fm target_fv t log) as [log1 r1] eqn:E.
    destruct (explain_target_spec fm target_fv t log log1 r1 Hlog E)
      as [Hlog1 Hk1].
    destruct r1 as [task| |].
    + apply (IH _ _ _ _ _ Hlog1) in H; [exact H|].
      intros t' m Hin. apply dict_set_values in Hin.
      destruct Hin as [->|Hin]; [now apply Hk1 | now apply (Hvals t')].
    + inversion H; subst. split; [exact Hlog1|]. intros k [].
    + inversion H; subst. split; [exact Hlog1|]. intros k [].
Qed.

(** What the function submits and what it explains. *)
Lemma get_what_if_spec fm direct_id target target_fv :
  loc_row fm direct_id = Ok target_fv ->
  log_ok fm target_fv (fst (get_what_if_shap_values fm direct_id target)) /\
  forall k, In k (explained (snd (get_what_if_shap_values fm direct_id target))) ->
    In k (high_features fm target_fv) \/ In k (low_features fm target_fv).
Proof.
  intros Hloc. unfold WhatIf.get_what_if_shap_values. rewrite Hloc.
  destruct (numeric_cols fm) as [|c cs].
  - cbn [fst snd]. rewrite explained_on_exception. split; [intros c []|intros k []].
  - match goal with
    | |- context [over_targets fm target_fv ?ts [] target []] =>
        destruct (over_targets fm target_fv ts [] target []) as [log res] eqn:E
    end.
    cbn [fst snd].
    apply (over_targets_spec fm target_fv _ _ _ _ _ _) in E;
      [exact E | intros c0 [] | intros t m []].
Qed.

(** Without the row of the instance nothing is submitted and nothing is
    explained. *)
Lemma get_what_if_unknown_id fm direct_id target :
  (forall target_fv, loc_row fm direct_id <> Ok target_fv) ->
  fst (get_what_if_shap_values fm direct_id target) = [] /\
  explained (snd (get_what_if_shap_values fm direct_id target)) = [].
Proof.
  intros H. unfold WhatIf.get_what_if_shap_values.
  destruct (numeric_cols fm); cbn [fst snd];
    [rewrite explained_on_exception; auto|].
  destruct (loc_row fm direct_id) as [fv| |]; [destruct (H fv eq_refl)| |];
    cbn [fst snd]; rewrite explained_on_exception; auto.
Qed.

(** *** The first matrix submitted *)

Lemma rescore_log t X fs task log :
  exists tail, fst (rescore t X fs task log) = log ++ Explain X t :: tail.
Proof.
  unfold WhatIf.rescore. destruct (explain X t); cbn [fst]; eauto.
Qed.

(** One iteration appends its calls to the log, and the first of them
    submits the copies perturbed at the high boundary if there are any,
    or else those perturbed at the low boundary. *)
Lemma explain_target_log fm target_fv t log :
  (exists more, fst (explain_target fm target_fv t log) = log ++ more) /\
  (high_features fm target_fv <> [] ->
   exists tail,
     fst (explain_target fm target_fv t log)
     = log ++ Explain (perturbed target_fv (stat_high fm)
                                 (high_features fm target_fv)) t :: tail) /\
  (high_features fm target_fv = [] -> low_features fm target_fv <> [] ->
   exists tail,
     fst (explain_target fm target_fv t log)
     = log ++ Explain (perturbed target_fv (stat_low fm)
                                 (low_features fm target_fv)) t :: tail).
Proof.
  unfold WhatIf.explain_target.
  set (hs := high_features fm target_fv). set (ls := low_features fm target_fv).
  set (Xh := perturbed target_fv (stat_high fm) hs).
  set (Xl := perturbed target_fv (stat_low fm) ls).
  destruct hs as [|h hs'] eqn:Eh.
  - destruct ls as [|l ls'] eqn:El.
    + split; [exists []; now rewrite app_nil_r|]. split; congruence.
    + destruct (rescore_log t Xl (l :: ls') [] log) as [tail Ht].
      split; [eauto|]. split; [congruence | eauto].
  - destruct (rescore_log t Xh (h :: hs') [] log) as [tail Ht].
    destruct (rescore t Xh (h :: hs') [] log) as [log1 r1]. cbn [fst] in Ht.
    subst log1.
    match goal with
    | |- (exists more, fst ?e = _) /\ _ =>
        assert (exists tail', fst e = log ++ Explain Xh t :: tail')
          as [tail' Ht']
    end.
    { destruct r1 as [task| |]; cbn [fst]; eauto.
      destruct ls as [|l ls'] eqn:El; cbn [fst]; eauto.
      destruct (rescore_log t Xl (l :: ls') task (log ++ Explain Xh t :: tail))
        as [tail2 H2].
      rewrite H2, <- app_assoc. cbn [app]. eauto. }
    rewrite Ht'. split; [|split]; [eauto | intros _; eauto | congruence].
Qed.

Lemma over_targets_extends fm target_fv :
  forall targets shap_values last log,
  exists more,
    fst (over_targets fm target_fv targets shap_values last log) = log ++ more.
Proof.
  induction targets as [|t targets IH]; intros shap_values last log;
    cbn [WhatIf.over_targets].
  - exists []. now rewrite app_nil_r.
  - destruct (explain_target_log fm target_fv t log) as [[more Hm] _].
    destruct (explain_target fm target_fv t log) as [log1 r1].
    cbn [fst] in Hm. subst log1.
    destruct r1 as [task| |]; cbn [fst]; eauto.
    destruct (IH (dict_set t task shap_values) (Some t) (log ++ more))
      as [more' H'].
    rewrite H', <- app_assoc. eauto.
Qed.

Lemma over_targets_first fm target_fv t targets shap_values last X :
  (forall log, exists tail,
     fst (explain_target fm target_fv t log) = log ++ Explain X t :: tail) ->
  exists rest,
    fst (over_targets fm target_fv (t :: targets) shap_values last [])
    = Explain X t :: rest.
Proof.
  intros Hfirst. cbn [WhatIf.over_targets].
  destruct (Hfirst []) as [tail Ht].
  destruct (explain_target fm target_fv t []) as [log1 r1].
  cbn [fst app] in Ht. subst log1.
  destruct r1 as [task| |]; cbn [fst]; eauto.
  destruct (over_targets_extends fm target_fv targets
              (dict_set t task shap_values) (Some t) (Explain X t :: tail))
    as [more H'].
  rewrite H'. cbn [app]. eauto.
Qed.

(** The first call of [get_what_if_shap_values], for the first target:
    the copies perturbed at the high boundary when there are features
    above it, those perturbed at the low boundary when there are none
    above and some below. *)
Lemma get_what_if_first_call fm direct_id target target_fv t :
  loc_row fm direct_id = Ok target_fv ->
  hd_error (match target with
            | None => model_names
            | Some t0 => [t0]
            end) = Some t ->
  (high_features fm target_fv <> [] ->
   exists rest,
     fst (get_what_if_shap_values fm direct_id target)
     = Explain (perturbed target_fv (stat_high fm)
                          (high_features fm target_fv)) t :: rest) /\
  (high_features fm target_fv = [] -> low_features fm target_fv <> [] ->
   exists rest,
     fst (get_what_if_shap_values fm direct_id target)
     = Explain (perturbed target_fv (stat_low fm)
                          (low_features fm target_fv)) t :: rest).
Proof.
  intros Hloc Ht. unfold WhatIf.get_what_if_shap_values. rewrite Hloc.
  assert (forall fs : list string,
            (forall f, In f fs -> In f (numeric_cols fm)) -> fs <> [] ->
            numeric_cols fm <> []) as Hnum.
  { intros [|f fs] Hin Hne; [congruence|]. intros E.
    specialize (Hin f (or_introl eq_refl)). rewrite E in Hin. destruct Hin. }
  assert (exists targets,
            match target with
            | None => model_names
            | Some t0 => [t0]
            end = t :: targets) as [targets ->].
  { destruct (match target with None => model_names | Some t0 => [t0] end)
      as [|t' targets]; [discriminate|]. inversion Ht. eauto. }
  split.
  - intros Hne.
    assert (numeric_cols fm <> []) as Hn.
    { apply (Hnum (high_features fm target_fv)); [|exact Hne].
      intros f Hf. apply filter_In in Hf. exact (proj1 Hf). }
    destruct (numeric_cols fm) as [|c cs] eqn:Ec; [congruence|].
    apply over_targets_first. intros log.
    exact (proj1 (proj2 (explain_target_log fm target_fv t log)) Hne).
  - intros He Hne.
    assert (numeric_cols fm <> []) as Hn.
    { apply (Hnum (low_features fm target_fv)); [|exact Hne].
      intros f Hf. apply filter_In in Hf. exact (proj1 Hf). }
    destruct (numeric_cols fm) as [|c cs] eqn:Ec; [congruence|].
    apply over_targets_first. intros log.
    exact (proj2 (proj2 (explain_target_log fm target_fv t log)) He Hne).
Qed.

End Engine.

(** Every matrix submitted is one of the two matrices of perturbed copies,
    and each of its rows is clamped. *)
Lemma submitted_clamped
        (agg_mean agg_std : list float -> float) (explanation : Type)
        (explain : list FRow -> string -> outcome explanation)
        (explanation_loc : explanation -> nat -> string -> outcome float)
        (predict_proba : list FRow -> outcome (list (string * list float)))
        (model_names : list string)
        (fm : FeatureMatrix) (direct_id : string) (target : option string)
        (target_fv : list (string * fcell)) (c : call) :
  loc_row fm direct_id = Ok target_fv ->
  In c (fst (get_what_if_shap_values agg_mean agg_std explanation explain
               explanation_loc predict_proba model_names fm direct_id target)) ->
  (submitted c
     = perturbed target_fv (stat_high agg_mean agg_std fm)
                 (high_features agg_mean agg_std fm target_fv) \/
   submitted c
     = perturbed target_fv (stat_low agg_mean agg_std fm)
                 (low_features agg_mean agg_std fm target_fv)) /\
  forall row, In row (submitted c) -> clamped agg_mean agg_std fm target_fv row.
Proof.
  intros Hloc Hc.
  destruct (get_what_if_spec agg_mean agg_std explanation explain
              explanation_loc predict_proba model_names fm direct_id target
              target_fv Hloc) as [Hlog _].
  specialize (Hlog c Hc). split; [exact Hlog|]. intros row Hrow.
  destruct Hlog as [E|E]; rewrite E in Hrow.
  - exact (perturbed_high_clamped agg_mean agg_std fm direct_id target_fv row
             Hloc Hrow).
  - exact (perturbed_low_clamped agg_mean agg_std fm direct_id target_fv row
             Hloc Hrow).
Qed.

(** The features explained lie outside the boundaries. *)
Lemma explained_out_of_range
        (agg_mean agg_std : list float -> float) (explanation : Type)
        (explain : list FRow -> string -> outcome explanation)
        (explanation_loc : explanation -> nat -> string -> outcome float)
        (predict_proba : list FRow -> outcome (list (string * list float)))
        (model_names : list string)
        (fm : FeatureMatrix) (direct_id : string) (target : option string)
        (target_fv : list (string * fcell)) (f : string) :
  loc_row fm direct_id = Ok target_fv ->
  In f (explained (snd (get_what_if_shap_values agg_mean agg_std explanation
                          explain explanation_loc predict_proba model_names
                          fm direct_id target))) ->
  In f (numeric_cols fm) /\
  (PrimFloat.ltb (stat_high agg_mean agg_std fm f) (num (fassoc f target_fv))
   = true \/
   PrimFloat.ltb (num (fassoc f target_fv)) (stat_low agg_mean agg_std fm f)
   = true).
Proof.
  intros Hloc Hf.
  destruct (get_what_if_spec agg_mean agg_std explanation explain
              explanation_loc predict_proba model_names fm direct_id target
              target_fv Hloc) as [_ Hkeys].
  destruct (Hkeys f Hf) as [K|K];
    apply filter_In in K; destruct K as [K1 K2]; auto.
Qed.


(** The example of the specification: mean 10, standard deviation 2,
    value 20.  The row submitted holds 13.92 for the feature and the
    instance's values elsewhere; the second numeric feature, in range, is
    neither perturbed nor explained. *)
Example what_if_boundary_example :
  toy_what_if
  = ([Explain [mkFRow "HR" [("HR", Num 13.92); ("AGE", Num 11);
                            ("GENDER", Obj "F")]] "mortality";
      PredictProba [mkFRow "HR" [("HR", Num 13.92); ("AGE", Num 11);
                                 ("GENDER", Obj "F")]]],
     Single [("HR", mkEntry 0.5 0.25)]).
Proof. vm_compute. reflexivity. Qed.

(** With the statistics computed from the columns: instance 100 is above
    the high boundary of the heart rates and below the low boundary of the
    ages.  Two matrices of one row each are submitted; in the first the
    heart rate alone is moved, to [11 + sqrt 6 * 1.96], in the second the
    age alone, to [9 - sqrt 6 * 1.96]. *)
Example what_if_two_sided_example :
  cohort_what_if
  = ([Explain [hr_at_high] "mortality"; PredictProba [hr_at_high];
      Explain [age_at_low] "mortality"; PredictProba [age_at_low]],
     Single [("HR", mkEntry 0.5 0.25); ("AGE", mkEntry 0.5 0.25)]).
Proof. vm_compute. reflexivity. Qed.





End WhatIfFacts.

(** ** Record selection: what is returned *)

Module SelectionFacts.
Import Frame Records FrameFacts.

Lemma mask_rows_filter test keep : forall rs out,
  (forall r b, In r rs -> test r = Ok b -> b = keep r) ->
  mask_rows test rs = Ok out -> out = filter keep rs.
Proof.
  induction rs as [|r rs IH]; intros out Hk H; simpl in H.
  - now inversion H.
  - apply bind_ok in H. destruct H as (b & Hb & H).
    apply bind_ok in H. destruct H as (tl & Htl & H).
    inversion H; subst out. clear H. simpl.
    rewrite <- (Hk r b (or_introl eq_refl) Hb).
    rewrite (IH tl (fun r0 b0 Hin => Hk r0 b0 (or_intror Hin)) Htl).
    reflexivity.
Qed.

(** [get_records] is a filter on the rows of the entity. *)
Lemma get_records_rows (es : EntitySet) (subject_id : value)
        (entity_id : string) (time_index : option string)
        (cutoff_time : option Z) (entity out : DataFrame) :
  es_get es entity_id = Ok entity ->
  get_records es subject_id entity_id time_index cutoff_time = Ok out ->
  let of_subject r :=
    negb (has_column entity "SUBJECT_ID")
    || value_eqb (cell r "SUBJECT_ID") subject_id in
  let in_time r :=
    match time_index, cutoff_time with
    | Some ti, Some ct =>
        match cell r ti with
        | VTime t => Z.leb t ct
        | _ => false
        end
    | _, _ => true
    end in
  columns out = columns entity /\
  rows out = filter (fun r => of_subject r && in_time r) (rows entity).
Proof.
  intros Hes H of_subject in_time. unfold get_records in H. rewrite Hes in H.
  cbn [bind] in H.
  set (entity_df := if has_column entity "SUBJECT_ID"
                    then select entity (fun r => value_eqb (cell r "SUBJECT_ID") subject_id)
                    else entity) in *.
  assert (columns entity_df = columns entity /\
          rows entity_df = filter of_subject (rows entity)) as [Hc Hr].
  { unfold entity_df, of_subject.
    destruct (has_column entity "SUBJECT_ID"); cbn [negb orb select columns rows].
    - split; reflexivity.
    - split; [reflexivity|]. clear. induction (rows entity) as [|r rs IH]; simpl; congruence. }
  assert (forall keep : Row -> bool,
            filter keep (rows entity_df)
            = filter (fun r => of_subject r && keep r) (rows entity)) as Hf.
  { intros keep. rewrite Hr. clear.
    induction (rows entity) as [|r rs IH]; [reflexivity|]. simpl.
    destruct (of_subject r); simpl; [destruct (keep r)|]; now rewrite IH. }
  assert (columns out = columns entity_df /\
          rows out = filter in_time (rows entity_df)) as [Hoc Hor].
  { assert (forall l : list Row, l = filter (fun _ => true) l) as Hall.
    { induction l as [|r l IH]; simpl; congruence. }
    destruct cutoff_time as [ct|], time_index as [ti|];
      try (assert (out = entity_df) as -> by (now inversion H);
           split; [reflexivity | apply Hall]).
    destruct (has_column entity_df ti); [|discriminate].
    apply bind_ok in H. destruct H as (rs & Hrs & H). inversion H; subst out.
    cbn [columns rows]. split; [reflexivity|].
    apply (mask_rows_filter (fun r => le_cutoff ct (cell r ti))); [|exact Hrs].
    intros r b _ Hb. unfold le_cutoff in Hb. unfold in_time.
    destruct (cell r ti); inversion Hb; reflexivity. }
  split; [congruence|]. rewrite Hor. apply Hf.
Qed.

(** X1: when [get_records] returns, the frame has the columns of the
    entity and exactly those of its rows, in their order, that belong to
    the subject and are dated at or before the cutoff.  A row belongs to
    the subject when its [SUBJECT_ID] equals [subject_id]; in an entity
    without that column every row does.  Without a time index or without
    a cutoff time no row is left out for its date; with both, a row passes
    only with a timestamp at or before the cutoff, so that a row without a
    timestamp is left out. *)
Theorem get_records_is_a_filter (es : EntitySet) (subject_id : value)
        (entity_id : string) (time_index : option string)
        (cutoff_time : option Z) (entity out : DataFrame) :
  es_get es entity_id = Ok entity ->
  get_records es subject_id entity_id time_index cutoff_time = Ok out ->
  let of_subject r :=
    negb (has_column entity "SUBJECT_ID")
    || value_eqb (cell r "SUBJECT_ID") subject_id in
  let in_time r :=
    match time_index, cutoff_time with
    | Some ti, Some ct =>
        match cell r ti with
        | VTime t => Z.leb t ct
        | _ => false
        end
    | _, _ => true
    end in
  columns out = columns entity /\
  rows out = filter (fun r => of_subject r && in_time r) (rows entity).
Proof. apply get_records_rows. Qed.

Lemma get_records_is_a_filter_witness :
  rows (mkFrame lab_columns [lab_row 1 10 (2 * hour) 7; lab_row 3 10 (48 * hour) 5])
  = filter (fun r =>
              (negb (has_column (mkFrame lab_columns (lab_rows ++ [late_row])) "SUBJECT_ID")
               || value_eqb (cell r "SUBJECT_ID") (VInt 10))
              && match cell r "CHARTTIME" with
                 | VTime t => Z.leb t (48 * hour)
                 | _ => false
                 end)
           (lab_rows ++ [late_row]).
Proof.
  exact (proj2 (get_records_is_a_filter (lab_es (lab_rows ++ [late_row])) (VInt 10)
                  "LABEVENTS" (Some "CHARTTIME") (Some (48 * hour)%Z)
                  (mkFrame lab_columns (lab_rows ++ [late_row]))
                  (mkFrame lab_columns
                     [lab_row 1 10 (2 * hour) 7; lab_row 3 10 (48 * hour) 5])
                  eq_refl eq_refl)).
Defined.

End SelectionFacts.

(** ** Path resolution: the shape of the path *)

Module PathShapeFacts.
Import Path PathFacts.

Lemma prefixes_length {A} (l : list A) : List.length (prefixes l) = List.length l.
Proof.
  induction l as [|a l IH]; [reflexivity|]. simpl. now rewrite length_map, IH.
Qed.

(** The walk along the parent pointers meets older and older bindings of
    the dictionary, hence no entity twice. *)
Lemma walk_simple g t d :
  discovered g t d ->
  forall node fuel q,
    dict_mem node d = true -> List.length d <= fuel ->
    exists c,
      walk d t fuel node (prefixes (q ++ [node]))
        = Ok (prefixes (q ++ node :: c)) /\
      NoDup (node :: c) /\
      forall x, In x c -> dict_mem x d = true.
Proof.
  induction 1 as [|d p0 c0 Hd IH Hp Hc Hin]; intros node fuel q Hn Hf.
  - simpl in Hn. rewrite orb_false_r in Hn. apply String.eqb_eq in Hn.
    subst node. exists [].
    split; [destruct fuel; simpl; rewrite String.eqb_refl; reflexivity|].
    split; [repeat constructor; intros [] | intros x []].
  - rewrite dict_mem_cons in Hn.
    destruct (String.eqb_spec c0 node) as [<-|Hne].
    + destruct fuel as [|fuel]; [simpl in Hf; lia|].
      assert (c0 <> t) as Hct.
      { intros ->. rewrite (discovered_target g t d Hd) in Hc. discriminate. }
      simpl. apply String.eqb_neq in Hct. rewrite Hct, String.eqb_refl.
      rewrite last_prefixes by (destruct q; discriminate).
      rewrite <- prefixes_snoc.
      rewrite (walk_weaken g t d c0 (Some p0) Hd Hc) by exact Hp.
      destruct (IH p0 fuel (q ++ [c0]) Hp) as (c & Hw & Hnd & Hmem).
      { simpl in Hf. lia. }
      exists (p0 :: c). rewrite Hw, <- app_assoc. simpl.
      split; [reflexivity|].
      assert (forall x, In x (p0 :: c) -> dict_mem x d = true) as Hall.
      { intros x [<-|Hx]; [exact Hp | now apply Hmem]. }
      split.
      * constructor; [|exact Hnd]. intros Hx. apply Hall in Hx. congruence.
      * intros x Hx. rewrite (Hall x Hx). apply orb_true_r.
    + simpl in Hn.
      rewrite (walk_weaken g t d c0 (Some p0) Hd Hc) by exact Hn.
      destruct (IH node fuel q Hn) as (c & Hw & Hnd & Hmem);
        [simpl in Hf; lia|].
      exists c. split; [exact Hw|]. split; [exact Hnd|].
      intros x Hx. simpl. rewrite (Hmem x Hx). apply orb_true_r.
Qed.

(** X2: the path [find_path] returns visits no entity twice; the list
    returned has one element per entity of the path (its prefixes); and the
    path is no longer than the list of the entity names of the graph. *)
Theorem find_path_visits_no_entity_twice (g : graph) (s t : string)
        (paths : list (list string)) :
  find_path g s t = Ok paths ->
  NoDup (last_path paths) /\
  List.length paths = List.length (last_path paths) /\
  List.length (last_path paths) <= List.length (all_names g t).
Proof.
  intros H. unfold find_path in H.
  destruct (search g s (search_fuel g t) [t] [(t, None)]) as [d|] eqn:Es;
    [|discriminate].
  assert (search_inv g t [t] [(t, None)]) as Hinv.
  { split; [constructor|]. split.
    - intros x [<-|[]]. simpl. now rewrite String.eqb_refl.
    - intros x Hx. left. simpl in Hx. rewrite orb_false_r in Hx.
      apply String.eqb_eq in Hx. now left. }
  destruct (search_spec g s t _ _ _ _ Hinv Es) as [Hd _].
  destruct (dict_mem s d) eqn:Em.
  - destruct (walk_simple g t d Hd s (List.length d) [] Em (Nat.le_refl _))
      as (c & Hw & Hnd & Hmem).
    change (walk d t (List.length d) s [[s]] = Ok (prefixes (s :: c))) in Hw.
    assert (paths = prefixes (s :: c)) as -> by congruence.
    rewrite last_prefixes by discriminate. rewrite prefixes_length.
    split; [exact Hnd|]. split; [reflexivity|].
    apply NoDup_incl_length; [exact Hnd|].
    intros x Hx.
    assert (dict_mem x d = true) as Hxd.
    { destruct Hx as [<-|Hx]; [exact Em | now apply Hmem]. }
    pose proof (discovered_connected g t d Hd x Hxd) as Hconn.
    destruct (connected_names g t x Hconn) as [<-|[_ Hx']];
      [now left | now right].
  - exfalso. destruct (List.length d) as [|n] eqn:El.
    + destruct d; [|discriminate]. inversion Hd.
    + cbn [walk] in H. destruct (String.eqb_spec s t) as [->|Hne].
      * rewrite (discovered_target g t d Hd) in Em. discriminate.
      * destruct (dict_get d s) as [v|] eqn:Eg; [|discriminate].
        apply dict_get_mem in Eg. congruence.
Qed.

Lemma find_path_visits_no_entity_twice_witness :
  NoDup (last_path [["S"]; ["S"; "C"]; ["S"; "C"; "B"]; ["S"; "C"; "B"; "T"]]) /\
  List.length [["S"]; ["S"; "C"]; ["S"; "C"; "B"]; ["S"; "C"; "B"; "T"]]
  = List.length
      (last_path [["S"]; ["S"; "C"]; ["S"; "C"; "B"]; ["S"; "C"; "B"; "T"]]) /\
  List.length
    (last_path [["S"]; ["S"; "C"]; ["S"; "C"; "B"]; ["S"; "C"; "B"; "T"]])
  <= List.length (all_names ring_graph "T").
Proof.
  exact (find_path_visits_no_entity_twice ring_graph "S" "T"
           [["S"]; ["S"; "C"]; ["S"; "C"; "B"]; ["S"; "C"; "B"; "T"]] eq_refl).
Defined.

(** *** Both directions *)

Lemma adjacent_sym g a b : adjacent g a b -> adjacent g b a.
Proof.
  unfold adjacent, child_nodes, get_backward_dataframes, get_forward_dataframes.
  intros H. apply in_app_or in H. apply in_or_app.
  destruct H as [H|H]; apply in_map_iff in H; destruct H as (r & <- & Hr);
    apply filter_In in Hr; destruct Hr as [Hr Hb]; apply String.eqb_eq in Hb;
    subst a; [right | left]; apply in_map_iff; exists r;
    (split; [reflexivity|]); apply filter_In; split; auto;
    apply String.eqb_refl.
Qed.

Lemma connected_prepend g a b c :
  adjacent g a b -> connected g b c -> connected g a c.
Proof.
  intros Hab Hbc. induction Hbc as [|x y _ IH Hxy].
  - apply conn_step with (b := a); [constructor | exact Hab].
  - apply conn_step with (b := x); assumption.
Qed.

Lemma connected_sym g a b : connected g a b -> connected g b a.
Proof.
  induction 1 as [|x y _ IH Hxy]; [constructor|].
  apply connected_prepend with (b := x); [now apply adjacent_sym | exact IH].
Qed.

Lemma find_path_connected g s t :
  (exists paths, find_path g s t = Ok paths) <-> connected g t s.
Proof.
  destruct (find_path_cases g s t)
    as [(c & H & Hl & Hlast)|(H & _ & d & Ht & Hs & Hcl)]; split.
  - intros _. exact (linked_connected g t c s Hl Hlast).
  - intros _. eauto.
  - intros (paths & Hp). congruence.
  - intros Hc. rewrite (closed_connected g t d Ht Hcl s Hc) in Hs. discriminate.
Qed.

(** X26: path resolution succeeds in one direction exactly when it does
    in the other: [find_path] returns for a source and a target if and only
    if it returns with the two exchanged. *)
Theorem find_path_works_both_ways (g : graph) (s t : string) :
  (exists paths, find_path g s t = Ok paths) <->
  (exists paths, find_path g t s = Ok paths).
Proof.
  rewrite !find_path_connected. split; apply connected_sym.
Qed.

End PathShapeFacts.

(** ** Cutoff-time propagation: errors, degenerate paths, ordinary keys *)

Module PropagationFacts.
Import Frame Cutoff FrameFacts CutoffFacts CutoffErrors.

Lemma quiet_bind {A B} (m : outcome A) (k : A -> outcome B) :
  quiet m -> (forall a, quiet (k a)) -> quiet (bind m k).
Proof.
  intros Hm Hk. destruct m as [a|e|]; cbn [bind]; [apply Hk | |].
  - intros msg H. apply Hm. congruence.
  - intros msg H. discriminate.
Qed.

Lemma quiet_ok {A} (a : A) : quiet (Ok a).
Proof. intros msg H. discriminate. Qed.

Lemma quiet_other {A} (e : exn) :
  (forall msg, e <> ValueError msg) -> quiet (@Raise A e).
Proof. intros He msg H. inversion H. destruct (He msg). assumption. Qed.

Lemma quiet_message {A} (m : string) :
  String.prefix "No Relationship" m = false -> quiet (@Raise A (ValueError m)).
Proof. intros Hm msg H. inversion H. now subst. Qed.

Lemma quiet_es_get es name : quiet (es_get es name).
Proof.
  unfold es_get. destruct (assoc name (dataframes es));
    [apply quiet_ok | apply quiet_other; discriminate].
Qed.

Lemma quiet_loc df labels : quiet (loc df labels).
Proof.
  unfold loc. apply quiet_bind; [|intros; apply quiet_ok].
  induction labels as [|l labels IH]; cbn [loc_rows]; [apply quiet_ok|].
  destruct (rows_at df l); [apply quiet_other; discriminate|].
  apply quiet_bind; [exact IH | intros; apply quiet_ok].
Qed.

Lemma quiet_series df c : quiet (series df c).
Proof.
  unfold series. destruct (has_column df c);
    [apply quiet_ok | apply quiet_other; discriminate].
Qed.

Lemma quiet_child_column es r : quiet (child_column es r).
Proof.
  unfold child_column. apply quiet_bind; [apply quiet_es_get|].
  intros child_df. apply quiet_series.
Qed.

Lemma quiet_getitem df key : quiet (getitem df key).
Proof.
  destruct (getitem_cases df key) as [->|(cs & ->)];
    [apply quiet_other; discriminate | apply quiet_ok].
Qed.

Lemma quiet_child_lookup es r : quiet (child_lookup es r).
Proof.
  unfold child_lookup. apply quiet_bind; [apply quiet_es_get|].
  intros child_df. apply quiet_bind; [apply quiet_child_column|].
  intros key. apply quiet_bind; [apply quiet_getitem | intros; apply quiet_ok].
Qed.

Lemma quiet_to_child es r ct : quiet (to_child es r ct).
Proof.
  unfold to_child. apply quiet_bind; [apply quiet_child_lookup|]. intros found.
  apply quiet_bind; [now apply quiet_message|]. intros sel.
  apply quiet_bind; [apply quiet_es_get|]. intros child_df.
  unfold set_index_labels. destruct (Nat.eqb _ _);
    [apply quiet_ok | now apply quiet_message].
Qed.

Lemma quiet_align df s : quiet (align df s).
Proof.
  unfold align. destruct (labels_eqb _ _); [apply quiet_ok|].
  destruct (unique_labels _); [apply quiet_ok | now apply quiet_message].
Qed.

Lemma quiet_assign_column df c s : quiet (assign_column df c s).
Proof.
  unfold assign_column.
  destruct (rows df); [destruct s|];
    try apply quiet_ok;
    (apply quiet_bind; [apply quiet_align | intros; apply quiet_ok]).
Qed.

Lemma quiet_setitem_column child_df selected c df :
  quiet (setitem_column child_df selected c df).
Proof.
  unfold setitem_column. destruct (Nat.ltb _ _).
  - destruct (has_column df c); now apply quiet_message.
  - apply quiet_bind; [apply quiet_series | intros; apply quiet_assign_column].
Qed.

Lemma quiet_setitem child_df selected : forall cs df,
  quiet (snd (setitem child_df selected cs df)).
Proof.
  induction cs as [|c cs IH]; intros df; cbn [setitem]; [apply quiet_ok|].
  pose proof (quiet_setitem_column child_df selected c df) as Hc.
  destruct (setitem_column child_df selected c df) as [df'| |]; cbn [snd];
    [apply IH | | intros msg H; discriminate].
  intros msg H. apply Hc. congruence.
Qed.

Lemma quiet_assign_child_column es r ct :
  quiet (snd (assign_child_column es r ct)).
Proof.
  unfold assign_child_column.
  pose proof (quiet_child_lookup es r) as Hl.
  destruct (child_lookup es r) as [[child_df selected]| |]; cbn [snd];
    [apply quiet_setitem | | intros msg H; discriminate].
  intros msg H. apply Hl. congruence.
Qed.

Lemma quiet_group_times rs : quiet (group_times rs).
Proof.
  induction rs as [|r rs IH]; cbn [group_times]; [apply quiet_ok|].
  apply quiet_bind.
  { unfold time_key. destruct (cell r "time");
      try apply quiet_ok; apply quiet_other; discriminate. }
  intros k. apply quiet_bind; [exact IH | intros; apply quiet_ok].
Qed.

Lemma quiet_groupby better df key : quiet (groupby_time_idx better df key).
Proof.
  unfold groupby_time_idx. apply quiet_bind; [apply quiet_align|].
  intros group_of.
  destruct (negb (has_column df "time")); [apply quiet_other; discriminate|].
  induction (group_keys group_of) as [|k keys IH]; cbn [idx_groups];
    [apply quiet_ok|].
  apply quiet_bind; [apply quiet_group_times|]. intros ms.
  apply quiet_bind; [exact IH | intros; apply quiet_ok].
Qed.

Lemma quiet_reduce_to_parent es r reduce ct :
  quiet (reduce_to_parent es r reduce ct).
Proof.
  unfold reduce_to_parent. apply quiet_bind.
  { destruct (String.eqb reduce "latest").
    - apply quiet_bind; [apply quiet_child_column | intros; apply quiet_groupby].
    - destruct (String.eqb reduce "earist").
      + apply quiet_bind; [apply quiet_child_column | intros; apply quiet_groupby].
      + now apply quiet_message. }
  intros idx. apply quiet_bind; [apply quiet_loc|]. intros sel.
  apply quiet_bind; [apply quiet_child_column|]. intros key.
  unfold set_index, set_index_labels. destruct (Nat.eqb _ _);
    [apply quiet_ok | now apply quiet_message].
Qed.

(** Entities that follow each other on a path are the two ends of a
    relationship. *)
Lemma adjacent_options es a b :
  Path.adjacentb (relationships es) b a = true -> options es a b <> [].
Proof.
  unfold Path.adjacentb, Path.child_nodes, Path.get_backward_dataframes,
    Path.get_forward_dataframes, options.
  rewrite existsb_exists. intros (x & Hin & Hx). apply String.eqb_eq in Hx.
  subst x. apply in_app_or in Hin.
  assert (exists r, In r (relationships es) /\
            ((String.eqb (child_dataframe r) a
              && String.eqb (parent_dataframe r) b)
             || (String.eqb (parent_dataframe r) a
                 && String.eqb (child_dataframe r) b)) = true) as (r & Hr & Hb).
  { destruct Hin as [Hin|Hin]; apply in_map_iff in Hin;
      destruct Hin as (r & <- & Hr); apply filter_In in Hr;
      destruct Hr as [Hr Hb]; exists r; split; try exact Hr;
      apply String.eqb_eq in Hb; rewrite Hb, !String.eqb_refl;
      [reflexivity | apply orb_true_r]. }
  intros Hnil.
  assert (In r (filter (fun r0 =>
            (String.eqb (child_dataframe r0) a
             && String.eqb (parent_dataframe r0) b)
            || (String.eqb (parent_dataframe r0) a
                && String.eqb (child_dataframe r0) b)) (relationships es)))
    as Hopt by (apply filter_In; auto).
  rewrite Hnil in Hopt. destruct Hopt.
Qed.

Lemma quiet_hop es reduce source target caller ct :
  options es source target <> [] ->
  quiet (snd (hop es reduce source target caller ct)).
Proof.
  intros Hopt. unfold hop.
  destruct (options es source target) as [|r rest]; [congruence|].
  destruct (String.eqb target (child_dataframe r)); cbn [snd].
  - apply quiet_bind; [apply quiet_to_child | intros; apply quiet_ok].
  - destruct (String.eqb source (child_dataframe r)); [|apply quiet_ok].
    pose proof (quiet_assign_child_column es r (deref caller ct)) as Ha.
    destruct (assign_child_column es r (deref caller ct)) as [assigned done].
    cbn [snd] in *. apply quiet_bind; [exact Ha|]. intros u.
    apply quiet_bind; [apply quiet_reduce_to_parent | intros; apply quiet_ok].
Qed.

Lemma quiet_hops es reduce : forall path caller ct,
  Path.linked (relationships es) path = true ->
  quiet (snd (hops es reduce path caller ct)).
Proof.
  induction path as [|source path IH]; intros caller ct Hl; [apply quiet_ok|].
  destruct path as [|target path]; [apply quiet_ok|].
  change (Path.adjacentb (relationships es) target source
          && Path.linked (relationships es) (target :: path) = true) in Hl.
  apply andb_true_iff in Hl. destruct Hl as [Hadj Hl].
  rewrite hops_cons.
  pose proof (quiet_hop es reduce source target caller ct
                (adjacent_options es source target Hadj)) as Hq.
  destruct (hop es reduce source target caller ct) as [caller' [ct'| |]];
    cbn [snd] in *; [now apply IH | exact Hq | exact Hq].
Qed.

(** X3: [transfer_cutoff_times] never raises the [ValueError] of its check
    [len(options) == 0], whatever the entity set, the cutoff times and the
    two entities are: the path it follows comes from [find_path], whose
    consecutive entities are the two ends of a relationship. *)
Theorem transfer_never_lacks_a_relationship (es : EntitySet)
        (cutoff_times : DataFrame) (source_entity target_entity reduce : string)
        (a b : string) :
  snd (transfer_cutoff_times es cutoff_times source_entity target_entity reduce)
  <> Raise (no_relationship a b).
Proof.
  assert (quiet (snd (transfer_cutoff_times es cutoff_times source_entity
                        target_entity reduce))) as Hq.
  { unfold transfer_cutoff_times.
    destruct (PathFacts.find_path_cases (relationships es) source_entity
                target_entity) as [(c & H & Hl & _)|(H & _)]; rewrite H.
    - rewrite PathFacts.last_prefixes by discriminate. now apply quiet_hops.
    - cbn [snd]. apply quiet_other. discriminate. }
  intros H. specialize (Hq _ H). discriminate.
Qed.

(** X4: when source and target are the same entity, the propagation
    returns the very frame it was passed, untouched, whatever [reduce] is
    and whether or not the entity exists; when they differ and are not
    connected, it raises the [KeyError] of [find_path] and the caller's
    frame is untouched. *)
Theorem transfer_without_a_hop (es : EntitySet) (cutoff_times : DataFrame)
        (source_entity target_entity reduce : string) :
  (source_entity = target_entity ->
   transfer_cutoff_times es cutoff_times source_entity target_entity reduce
   = (cutoff_times, Ok Caller)) /\
  (source_entity <> target_entity ->
   ~ Path.connected (relationships es) target_entity source_entity ->
   transfer_cutoff_times es cutoff_times source_entity target_entity reduce
   = (cutoff_times, Raise KeyError)).
Proof.
  unfold transfer_cutoff_times. split.
  - intros <-. now rewrite PathFacts.find_path_same.
  - intros Hne Hnc.
    destruct (PathFacts.find_path_cases (relationships es) source_entity
                target_entity) as [(c & _ & Hl & Hlast)|(H & _)].
    + destruct Hnc. exact (PathFacts.linked_connected _ _ c _ Hl Hlast).
    + now rewrite H.
Qed.

Lemma transfer_without_a_hop_witness :
  transfer_cutoff_times hospital patient_cutoffs "PATIENTS" "PATIENTS" "latest"
  = (patient_cutoffs, Ok Caller) /\
  transfer_cutoff_times hospital patient_cutoffs "LABEVENTS" "PATIENTS" "latest"
  = (patient_cutoffs, Raise KeyError).
Proof.
  destruct (transfer_without_a_hop hospital patient_cutoffs
              "PATIENTS" "PATIENTS" "latest") as [H _].
  destruct (transfer_without_a_hop hospital patient_cutoffs
              "LABEVENTS" "PATIENTS" "latest") as [_ K].
  split; [exact (H eq_refl)|]. apply K; [discriminate|].
  intros Hc. destruct (PathFacts.connected_names _ _ _ Hc) as [E|[_ Hin]];
    [discriminate|].
  simpl in Hin. destruct Hin as [E|[E|[]]]; discriminate.
Defined.

(** The operations of line 111 are modelled without fuel. *)
Lemma decided_bind {A B} (m : outcome A) (k : A -> outcome B) :
  m <> OutOfFuel -> (forall a, k a <> OutOfFuel) -> bind m k <> OutOfFuel.
Proof.
  intros Hm Hk. destruct m; cbn [bind];
    [apply Hk | discriminate | now destruct Hm].
Qed.

Lemma decided_es_get es name : es_get es name <> OutOfFuel.
Proof. unfold es_get. destruct (assoc name (dataframes es)); discriminate. Qed.

Lemma decided_series df c : series df c <> OutOfFuel.
Proof. unfold series. destruct (has_column df c); discriminate. Qed.

Lemma decided_child_lookup es r : child_lookup es r <> OutOfFuel.
Proof.
  unfold child_lookup, child_column.
  apply decided_bind; [apply decided_es_get|]. intros child_df.
  apply decided_bind.
  { apply decided_bind; [apply decided_es_get | intros; apply decided_series]. }
  intros key. apply decided_bind; [|discriminate].
  destruct (getitem_cases child_df (map snd key)) as [->|(cs & ->)];
    discriminate.
Qed.

Lemma decided_assign_column df c s : assign_column df c s <> OutOfFuel.
Proof.
  unfold assign_column, align.
  destruct (rows df); [destruct s|]; try discriminate;
    cbn [bind]; destruct (labels_eqb _ _); try discriminate;
    destruct (unique_labels _); discriminate.
Qed.

Lemma decided_setitem child_df selected : forall cs df,
  snd (setitem child_df selected cs df) <> OutOfFuel.
Proof.
  induction cs as [|c cs IH]; intros df; cbn [setitem]; [discriminate|].
  assert (setitem_column child_df selected c df <> OutOfFuel) as Hc.
  { unfold setitem_column. destruct (Nat.ltb _ _); [discriminate|].
    apply decided_bind; [apply decided_series|].
    intros s. apply decided_assign_column. }
  destruct (setitem_column child_df selected c df) as [df'| |]; cbn [snd];
    [apply IH | discriminate | now destruct Hc].
Qed.

Lemma decided_assign_child_column es r ct :
  snd (assign_child_column es r ct) <> OutOfFuel.
Proof.
  unfold assign_child_column.
  pose proof (decided_child_lookup es r) as Hl.
  destruct (child_lookup es r) as [[child_df selected]| |]; cbn [snd];
    [apply decided_setitem | discriminate | now destruct Hl].
Qed.

(** X28: on an entity set in which the child dataframe of every
    relationship has ordinary keys (a foreign key that is not the label of
    one of its columns), a propagation between two different entities never
    returns.  It raises [KeyError]: that of [find_path] when the entities
    are not connected, and otherwise that of the first hop, whichever way
    the hop goes and whatever [reduce] is, where the child dataframe is
    indexed by the Series [r.child_column].  The caller's frame is left as
    it was. *)
Theorem transfer_raises_on_ordinary_keys (es : EntitySet)
        (cutoff_times : DataFrame) (source_entity target_entity reduce : string) :
  source_entity <> target_entity ->
  (forall r, In r (relationships es) -> ordinary_keys es r = true) ->
  transfer_cutoff_times es cutoff_times source_entity target_entity reduce
  = (cutoff_times, Raise KeyError).
Proof.
  intros Hne Hord. unfold transfer_cutoff_times.
  destruct (PathFacts.find_path_cases (relationships es) source_entity
              target_entity) as [(c & H & Hl & Hlast)|(H & _)]; rewrite H;
    [|reflexivity].
  rewrite PathFacts.last_prefixes by discriminate.
  destruct c as [|b c]; [simpl in Hlast; congruence|].
  change (Path.adjacentb (relationships es) b source_entity
          && Path.linked (relationships es) (b :: c) = true) in Hl.
  apply andb_true_iff in Hl. destruct Hl as [Hadj _].
  pose proof (adjacent_options es source_entity b Hadj) as Hopt.
  destruct (options es source_entity b) as [|r rest] eqn:Eo; [congruence|].
  rewrite hops_cons.
  rewrite (hop_ordinary es reduce source_entity b cutoff_times Caller r rest Eo
             (Hord r (options_In es source_entity b r rest Eo))).
  reflexivity.
Qed.

Lemma transfer_raises_on_ordinary_keys_witness :
  transfer_cutoff_times hospital admission_cutoffs
    "ADMISSIONS" "PATIENTS" "latest" = (admission_cutoffs, Raise KeyError) /\
  transfer_cutoff_times hospital patient_cutoffs
    "PATIENTS" "ADMISSIONS" "latest" = (patient_cutoffs, Raise KeyError).
Proof.
  split; apply transfer_raises_on_ordinary_keys;
    try discriminate; intros r [<-|[]]; reflexivity.
Defined.



End PropagationFacts.

(** ** Feature post-processing: shape, single source, repeated removal *)

Module PostprocessFacts.
Import Frame Features FrameFacts FeaturesFacts.

(** *** The shape of a merge *)

Lemma assign_column_columns A c s A1 :
  assign_column A c s = Ok A1 ->
  columns A1 = if has_column A c then columns A else columns A ++ [c].
Proof.
  unfold assign_column. intros H.
  destruct (rows A); [destruct s|]; try (now inversion H);
    apply bind_ok in H; destruct H as (vs & _ & H); now inversion H.
Qed.

Lemma merge_source_shape fm : forall fl acc acc',
  merge_source fm fl acc = Ok acc' ->
  exists added,
    snd acc' = snd acc ++ added /\
    columns (fst acc') = columns (fst acc) ++ map get_name added /\
    NoDup (map get_name added) /\
    (forall f, In f added ->
       In f fl /\ has_column fm (get_name f) = true /\
       ~ In (get_name f) (columns (fst acc))) /\
    (forall f, In f fl -> In (get_name f) (columns (fst acc'))).
Proof.
  induction fl as [|f fl IH]; intros [A L] acc' H; cbn [fst snd] in *.
  - inversion H; subst. exists []. cbn [fst snd map]. rewrite !app_nil_r.
    split; [reflexivity|]. split; [reflexivity|]. split; [constructor|].
    split; intros f [].
  - cbn [merge_source fst snd] in H.
    destruct (has_column A (get_name f)) eqn:Ec.
    + destruct (IH (A, L) acc' H) as (added & I1 & I2 & I3 & I4 & I5).
      cbn [fst snd] in *. exists added.
      split; [exact I1|]. split; [exact I2|]. split; [exact I3|]. split.
      * intros f' Hf'. destruct (I4 f' Hf') as (K1 & K2 & K3).
        split; [now right | auto].
      * intros f' [<-|Hf']; [|now apply I5].
        rewrite I2. apply in_or_app. left. now apply existsb_eqb_In.
    + apply bind_ok in H. destruct H as (s & Hs & H).
      apply bind_ok in H. destruct H as (A1 & HA1 & H).
      unfold series in Hs.
      destruct (has_column fm (get_name f)) eqn:Efm; [|discriminate].
      apply assign_column_columns in HA1. rewrite Ec in HA1.
      destruct (IH (A1, L ++ [f]) acc' H) as (added & I1 & I2 & I3 & I4 & I5).
      cbn [fst snd] in *. rewrite HA1 in *.
      assert (~ In (get_name f) (columns A)) as Hnew.
      { intros Hin. apply existsb_eqb_In in Hin. unfold has_column in Ec.
        congruence. }
      exists (f :: added). cbn [map].
      split; [now rewrite I1, <- app_assoc|].
      split; [now rewrite I2, <- app_assoc|]. split; [|split].
      * constructor; [|exact I3]. intros Hin. apply in_map_iff in Hin.
        destruct Hin as (f' & E & Hf'). destruct (I4 f' Hf') as (_ & _ & K).
        apply K. rewrite E. apply in_or_app. right. now left.
      * intros f' [<-|Hf']; [split; [now left | auto]|].
        destruct (I4 f' Hf') as (K1 & K2 & K3).
        split; [now right|]. split; [exact K2|].
        intros Hin. apply K3. apply in_or_app. now left.
      * intros f' [<-|Hf']; [|now apply I5].
        rewrite I2. apply in_or_app. left. apply in_or_app. right. now left.
Qed.

Lemma merge_sources_shape : forall sources acc acc',
  merge_sources sources acc = Ok acc' ->
  exists added,
    snd acc' = snd acc ++ added /\
    columns (fst acc') = columns (fst acc) ++ map get_name added /\
    NoDup (map get_name added) /\
    (forall f, In f added ->
       (exists fm fl, In (fm, fl) sources /\ In f fl /\
                      has_column fm (get_name f) = true) /\
       ~ In (get_name f) (columns (fst acc))) /\
    (forall fm fl f, In (fm, fl) sources -> In f fl ->
       In (get_name f) (columns (fst acc'))).
Proof.
  induction sources as [|[fm fl] sources IH]; intros acc acc' H.
  - inversion H; subst. exists []. cbn [map]. rewrite !app_nil_r.
    split; [reflexivity|]. split; [reflexivity|]. split; [constructor|].
    split; [intros f [] | intros fm fl f []].
  - cbn [merge_sources] in H. apply bind_ok in H. destruct H as (acc1 & H1 & H).
    destruct (merge_source_shape fm fl acc acc1 H1) as (a1 & S1 & S2 & S3 & S4 & S5).
    destruct (IH acc1 acc' H) as (a2 & I1 & I2 & I3 & I4 & I5).
    exists (a1 ++ a2). rewrite map_app.
    split; [now rewrite I1, S1, <- app_assoc|].
    split; [now rewrite I2, S2, <- app_assoc|]. split; [|split].
    + apply NoDup_app; [exact S3 | exact I3 |].
      intros x Hx1 Hx2. apply in_map_iff in Hx2. destruct Hx2 as (f & <- & Hf).
      destruct (I4 f Hf) as [_ K]. apply K. rewrite S2. apply in_or_app. now right.
    + intros f Hf. apply in_app_or in Hf. destruct Hf as [Hf|Hf].
      * destruct (S4 f Hf) as (K1 & K2 & K3). split; [|exact K3].
        exists fm, fl. split; [now left | auto].
      * destruct (I4 f Hf) as [(fm' & fl' & K1 & K2 & K3) K4]. split.
        -- exists fm', fl'. split; [now right | auto].
        -- intros Hin. apply K4. rewrite S2. apply in_or_app. now left.
    + intros fm' fl' f [E|Hin] Hf.
      * inversion E; subst fm' fl'. rewrite I2. apply in_or_app. left.
        now apply S5.
      * exact (I5 fm' fl' f Hin Hf).
Qed.

(** X7: when [merge_features] returns, the descriptor list is the first
    list followed by the descriptors added, and the columns of the matrix
    are the columns of the first table followed by the names of the
    descriptors added, in the same order; these names are distinct and new
    to the first table, each comes from a source whose table has the
    column; and every descriptor returned names a column of the matrix. *)
Theorem merge_features_keeps_lists_in_step (fm_list : list DataFrame)
        (fl_list : list (list Feature)) (merged : DataFrame)
        (fl : list Feature) :
  merge_features fm_list fl_list = Ok (merged, fl) ->
  exists fm0 fl0 added,
    hd_error fm_list = Some fm0 /\ hd_error fl_list = Some fl0 /\
    fl = fl0 ++ added /\
    columns merged = columns fm0 ++ map get_name added /\
    NoDup (map get_name added) /\
    (forall f, In f added ->
       ~ In (get_name f) (columns fm0) /\
       exists fm_i fl_i, In (fm_i, fl_i) (combine fm_list fl_list) /\
                         In f fl_i /\ has_column fm_i (get_name f) = true) /\
    (forall f, In f fl -> In (get_name f) (columns merged)).
Proof.
  intros H. destruct fm_list as [|fm0 fms]; [discriminate|].
  destruct fl_list as [|fl0 fls]; [discriminate|].
  unfold merge_features in H.
  apply bind_ok in H. destruct H as (acc & Hacc & H).
  apply bind_ok in H. destruct H as (out & Hout & H).
  inversion H; subst out fl. clear H.
  assert (columns merged = columns (fst acc)) as Hcols.
  { unfold loc in Hout. apply bind_ok in Hout. destruct Hout as (rs & _ & Hout).
    now inversion Hout. }
  destruct (merge_sources_shape _ _ _ Hacc) as (added & I1 & I2 & I3 & I4 & I5).
  cbn [fst snd] in *. exists fm0, fl0, added.
  split; [reflexivity|]. split; [reflexivity|]. split; [exact I1|].
  split; [congruence|]. split; [exact I3|]. split.
  - intros f Hf. destruct (I4 f Hf) as [K1 K2]. split; [exact K2 | exact K1].
  - intros f Hf. rewrite Hcols. rewrite I1 in Hf. apply in_app_or in Hf.
    destruct Hf as [Hf|Hf].
    + apply (I5 fm0 fl0 f); [now left | exact Hf].
    + rewrite I2. apply in_or_app. right. now apply in_map.
Qed.

Lemma merge_features_keeps_lists_in_step_witness :
  exists fm0 fl0 added,
    hd_error [first_source; second_source] = Some fm0 /\
    hd_error [[mkFeature "X" "ADMISSIONS"];
              [mkFeature "X" "LABEVENTS"; mkFeature "Y" "LABEVENTS"]]
    = Some fl0 /\
    [mkFeature "X" "ADMISSIONS"; mkFeature "Y" "LABEVENTS"] = fl0 ++ added /\
    ["X"; "Y"] = columns fm0 ++ map get_name added.
Proof.
  destruct (merge_features_keeps_lists_in_step
              [first_source; second_source]
              [[mkFeature "X" "ADMISSIONS"];
               [mkFeature "X" "LABEVENTS"; mkFeature "Y" "LABEVENTS"]]
              (mkFrame ["X"; "Y"]
                 [mkRow (VInt 100) [("X", VInt 1); ("Y", VInt 40)];
                  mkRow (VInt 101) [("X", VInt 2); ("Y", VInt 41)]])
              [mkFeature "X" "ADMISSIONS"; mkFeature "Y" "LABEVENTS"]
              eq_refl)
    as (fm0 & fl0 & added & H1 & H2 & H3 & H4 & _).
  exists fm0, fl0, added. auto.
Defined.

(** *** A single source *)

Lemma merge_source_same fm : forall fl L,
  merge_source fm fl (fm, L)
  = if forallb (fun f => has_column fm (get_name f)) fl
    then Ok (fm, L) else Raise KeyError.
Proof.
  induction fl as [|f fl IH]; intros L; [reflexivity|].
  cbn [merge_source fst snd forallb].
  destruct (has_column fm (get_name f)) eqn:E; cbn [andb]; [apply IH|].
  unfold series. rewrite E. reflexivity.
Qed.

(** X8: merging a single source returns it unchanged when every
    descriptor names a column of the table and the labels of the table are
    distinct; it raises [KeyError] when some descriptor names a column the
    table does not have. *)
Theorem merge_features_single_source (fm : DataFrame) (fl : list Feature) :
  ((forall f, In f fl -> has_column fm (get_name f) = true) ->
   unique_labels (index fm) = true ->
   merge_features [fm] [fl] = Ok (fm, fl)) /\
  ((exists f, In f fl /\ has_column fm (get_name f) = false) ->
   merge_features [fm] [fl] = Raise KeyError).
Proof.
  unfold merge_features. cbn [combine merge_sources].
  rewrite merge_source_same. split.
  - intros Hall Hu.
    rewrite (proj2 (forallb_forall _ fl)) by exact Hall.
    cbn [bind fst snd]. now rewrite loc_self.
  - intros (f & Hin & Hf).
    destruct (forallb _ fl) eqn:E; [|reflexivity].
    rewrite forallb_forall in E. rewrite (E f Hin) in Hf. discriminate.
Qed.

Lemma merge_features_single_source_witness :
  merge_features [second_source] [[mkFeature "Y" "LABEVENTS"]]
  = Ok (second_source, [mkFeature "Y" "LABEVENTS"]) /\
  merge_features [first_source] [[mkFeature "Y" "LABEVENTS"]] = Raise KeyError.
Proof.
  split.
  - apply (proj1 (merge_features_single_source second_source
                    [mkFeature "Y" "LABEVENTS"])).
    + intros f [<-|[]]. reflexivity.
    + reflexivity.
  - apply (proj2 (merge_features_single_source first_source
                    [mkFeature "Y" "LABEVENTS"])).
    exists (mkFeature "Y" "LABEVENTS"). split; [now left | reflexivity].
Defined.

(** *** Removal of uninterpretable columns *)

(** In what is left no column is uninterpretable. *)
Lemma no_uninterpretable_left cols c :
  let kept := filter (fun c => negb (uninterpretable cols c)) cols in
  In c kept -> uninterpretable kept c = false.
Proof.
  intros kept Hc. destruct (uninterpretable kept c) eqn:E; [|reflexivity].
  apply uninterpretable_iff in E. destruct E as (Hw & w & Hin & Hww & Hsub).
  apply filter_In in Hc. destruct Hc as [_ Hc]. apply negb_true_iff in Hc.
  assert (uninterpretable cols c = true) as K; [|congruence].
  apply uninterpretable_iff. split; [exact Hw|]. exists w.
  apply filter_In in Hin. destruct Hin as [Hin _]. auto.
Qed.

Lemma pop_columns_kept fm :
  NoDup (filter (uninterpretable (columns fm)) (columns fm)) ->
  exists fm',
    pop_columns fm (filter (uninterpretable (columns fm)) (columns fm)) = Ok fm' /\
    columns fm'
    = filter (fun c => negb (uninterpretable (columns fm) c)) (columns fm).
Proof.
  intros Hnd. set (ucols := filter (uninterpretable (columns fm)) (columns fm)) in *.
  destruct (pop_columns_spec ucols fm Hnd) as (fm' & Hpop & Hcols & _).
  { intros x Hx. apply filter_In in Hx. tauto. }
  exists fm'. split; [exact Hpop|]. rewrite Hcols.
  apply filter_ext_in. intros c Hc. f_equal.
  destruct (uninterpretable (columns fm) c) eqn:E.
  - apply existsb_eqb_In. apply filter_In. auto.
  - destruct (existsb (String.eqb c) ucols) eqn:E'; [|reflexivity].
    apply existsb_eqb_In in E'. apply filter_In in E'. destruct E'. congruence.
Qed.

(** X9: [remove_uninterpretable_features] is idempotent on a matrix with
    distinct column names: applied to its own result, it returns that
    result. *)
Theorem remove_uninterpretable_features_idempotent (fm fm' : DataFrame)
        (fl fl' : list Feature) :
  NoDup (columns fm) ->
  remove_uninterpretable_features fm fl = Ok (fm', fl') ->
  remove_uninterpretable_features fm' fl' = Ok (fm', fl').
Proof.
  intros Hnd H. unfold remove_uninterpretable_features in H.
  destruct (pop_columns_kept fm) as (fm1 & Hpop & Hcols);
    [now apply NoDup_filter|].
  rewrite Hpop in H. cbn [bind] in H. inversion H; subst fm1 fl'. clear H.
  unfold remove_uninterpretable_features.
  rewrite (filter_none (uninterpretable (columns fm')) (columns fm')).
  - cbn [pop_columns bind]. rewrite filter_twice. do 2 f_equal.
    apply filter_ext. intros f. apply andb_diag.
  - intros c Hc. rewrite Hcols in *. now apply no_uninterpretable_left.
Qed.

Lemma remove_uninterpretable_features_idempotent_witness :
  remove_uninterpretable_features
    (mkFrame [ft_filtered_name]
       [mkRow (VInt 100) [(ft_filtered_name, VInt 5)];
        mkRow (VInt 101) [(ft_filtered_name, VInt 6)]])
    [mkFeature ft_filtered_name "LABEVENTS"]
  = Ok (mkFrame [ft_filtered_name]
          [mkRow (VInt 100) [(ft_filtered_name, VInt 5)];
           mkRow (VInt 101) [(ft_filtered_name, VInt 6)]],
        [mkFeature ft_filtered_name "LABEVENTS"]).
Proof.
  apply (remove_uninterpretable_features_idempotent
           (two_columns ft_unfiltered_name ft_filtered_name) _
           (two_features ft_unfiltered_name ft_filtered_name)).
  - repeat constructor; simpl; intuition discriminate.
  - reflexivity.
Defined.

(** [fm.pop] fails on a name it has already removed. *)
Lemma pop_columns_incl : forall cols fm fm',
  pop_columns fm cols = Ok fm' -> NoDup cols /\ incl cols (columns fm).
Proof.
  induction cols as [|c cols IH]; intros fm fm' H.
  - split; [constructor | intros x []].
  - cbn [pop_columns] in H. apply bind_ok in H. destruct H as (fm1 & H1 & H).
    unfold pop_column in H1. destruct (has_column fm c) eqn:Ec; [|discriminate].
    inversion H1; subst fm1. clear H1.
    destruct (IH _ _ H) as [Hnd Hincl]. cbn [columns] in Hincl. split.
    + constructor; [|exact Hnd]. intros Hin. apply Hincl in Hin.
      apply filter_In in Hin. destruct Hin as [_ Hne].
      rewrite String.eqb_refl in Hne. discriminate.
    + intros x [<-|Hx]; [now apply existsb_eqb_In|].
      apply Hincl in Hx. apply filter_In in Hx. tauto.
Qed.

Lemma pop_columns_raises : forall cols fm e,
  pop_columns fm cols = Raise e -> e = KeyError.
Proof.
  induction cols as [|c cols IH]; intros fm e H; [discriminate|].
  cbn [pop_columns] in H. unfold pop_column in H.
  destruct (has_column fm c); cbn [bind] in H; [|now inversion H].
  exact (IH _ _ H).
Qed.

Lemma pop_columns_total : forall cols fm, pop_columns fm cols <> OutOfFuel.
Proof.
  induction cols as [|c cols IH]; intros fm; [discriminate|].
  cbn [pop_columns]. unfold pop_column.
  destruct (has_column fm c); cbn [bind]; [apply IH | discriminate].
Qed.

Lemma count_occ_filter (p : string -> bool) (c : string) (l : list string) :
  p c = true ->
  count_occ string_dec (filter p l) c = count_occ string_dec l c.
Proof.
  intros Hp. induction l as [|a l IH]; [reflexivity|]. simpl.
  destruct (string_dec a c) as [->|Hne].
  - rewrite Hp. simpl. destruct (string_dec c c); [now rewrite IH | congruence].
  - destruct (p a); simpl; [destruct (string_dec a c); [congruence|]|]; exact IH.
Qed.

(** X10: [remove_uninterpretable_features] raises [KeyError] when the name
    of a column to drop occurs more than once among the columns ([fm.pop]
    removes every column of a name, and is called once per occurrence);
    when the names of the columns to drop are distinct it returns, other
    columns being free to repeat. *)
Theorem remove_uninterpretable_features_repeated_name (fm : DataFrame)
        (fl : list Feature) :
  ((exists c, uninterpretable (columns fm) c = true /\
              1 < count_occ string_dec (columns fm) c) ->
   remove_uninterpretable_features fm fl = Raise KeyError) /\
  (NoDup (filter (uninterpretable (columns fm)) (columns fm)) ->
   exists fm',
     remove_uninterpretable_features fm fl
     = Ok (fm', filter (fun f => has_column fm' (get_name f)) fl) /\
     columns fm'
     = filter (fun c => negb (uninterpretable (columns fm) c)) (columns fm)).
Proof.
  unfold remove_uninterpretable_features. split.
  - intros (c & Hu & Hcount).
    destruct (pop_columns fm (filter (uninterpretable (columns fm)) (columns fm)))
      as [fm'|e|] eqn:E; cbn [bind].
    + exfalso. apply pop_columns_incl in E. destruct E as [Hnd _].
      rewrite (NoDup_count_occ string_dec) in Hnd. specialize (Hnd c).
      rewrite count_occ_filter in Hnd by exact Hu. lia.
    + now rewrite (pop_columns_raises _ _ _ E).
    + destruct (pop_columns_total _ _ E).
  - intros Hnd. destruct (pop_columns_kept fm Hnd) as (fm' & Hpop & Hcols).
    exists fm'. rewrite Hpop. cbn [bind]. split; [reflexivity | exact Hcols].
Qed.

Lemma remove_uninterpretable_features_repeated_name_witness :
  remove_uninterpretable_features
    (mkFrame [unfiltered_name; filtered_name; unfiltered_name] []) []
  = Raise KeyError /\
  exists fm',
    remove_uninterpretable_features
      (mkFrame [filtered_name; unfiltered_name; filtered_name] []) []
    = Ok (fm', []) /\
    columns fm' = [filtered_name; filtered_name].
Proof.
  split.
  - apply (proj1 (remove_uninterpretable_features_repeated_name
                    (mkFrame [unfiltered_name; filtered_name; unfiltered_name] [])
                    [])).
    exists unfiltered_name. split; [reflexivity|]. vm_compute. lia.
  - apply (proj2 (remove_uninterpretable_features_repeated_name
                    (mkFrame [filtered_name; unfiltered_name; filtered_name] [])
                    [])).
    vm_compute. repeat constructor. intros [].
Defined.

End PostprocessFacts.

(** ** What-if explanations: targets and calls *)

Module EngineFacts.
Import WhatIf WhatIfFacts WhatIfCalls.

Lemma fassoc_dict_set_same {A} k (v : A) d : fassoc k (dict_set k v d) = Some v.
Proof.
  unfold fassoc. induction d as [|[k' v'] d IH]; simpl.
  - now rewrite String.eqb_refl.
  - destruct (String.eqb k' k) eqn:E; simpl; rewrite E; [reflexivity | exact IH].
Qed.

Lemma paired_app log new :
  paired log -> paired new ->
  (forall X, hd_error new <> Some (PredictProba X)) ->
  paired (log ++ new).
Proof.
  intros Hl Hn Hhd i X Hi.
  destruct (Nat.lt_ge_cases i (List.length log)) as [Hlt|Hge].
  - rewrite nth_error_app1 in Hi by exact Hlt.
    destruct (Hl i X Hi) as (j & t & -> & Hj). exists j, t.
    split; [reflexivity|]. rewrite nth_error_app1 by lia. exact Hj.
  - rewrite nth_error_app2 in Hi by exact Hge.
    destruct (Hn _ X Hi) as (j & t & E & Hj).
    exists (List.length log + j), t. split; [lia|].
    rewrite nth_error_app2 by lia.
    replace (List.length log + j - List.length log) with j by lia. exact Hj.
Qed.

Section Engine.

Variable agg_mean agg_std : list float -> float.
Variable explanation : Type.
Variable explain : list FRow -> string -> outcome explanation.
Variable explanation_loc : explanation -> nat -> string -> outcome float.
Variable predict_proba : list FRow -> outcome (list (string * list float)).
Variable model_names : list string.

Abbreviation high_features := (high_features agg_mean agg_std).
Abbreviation low_features := (low_features agg_mean agg_std).
Abbreviation rescore := (rescore explanation explain explanation_loc predict_proba).
Abbreviation explain_target :=
  (explain_target agg_mean agg_std explanation explain explanation_loc
                  predict_proba).
Abbreviation over_targets :=
  (over_targets agg_mean agg_std explanation explain explanation_loc
                predict_proba model_names).
Abbreviation get_what_if_shap_values :=
  (get_what_if_shap_values agg_mean agg_std explanation explain
                           explanation_loc predict_proba model_names).

(** The map of a target does not depend on the calls made before. *)
Lemma rescore_result t X fs task log log0 :
  snd (rescore t X fs task log) = snd (rescore t X fs task log0).
Proof. unfold WhatIf.rescore. destruct (explain X t); reflexivity. Qed.

Lemma explain_target_result fm target_fv t log log0 :
  snd (explain_target fm target_fv t log)
  = snd (explain_target fm target_fv t log0).
Proof.
  unfold WhatIf.explain_target.
  set (hs := high_features fm target_fv). set (ls := low_features fm target_fv).
  set (Xh := perturbed _ _ hs). set (Xl := perturbed _ _ ls).
  assert (forall l, exists l1,
            match hs with
            | [] => (l, Ok [])
            | _ :: _ => rescore t Xh hs [] l
            end
            = (l1, snd (match hs with
                        | [] => (log, Ok [])
                        | _ :: _ => rescore t Xh hs [] log
                        end))) as Hh.
  { intros l. destruct hs; [eexists; reflexivity|].
    rewrite (rescore_result t Xh _ [] log l).
    destruct (rescore t Xh _ [] l). eexists; reflexivity. }
  destruct (Hh log) as (l1 & ->). destruct (Hh log0) as (l2 & ->).
  destruct (snd _) as [task| |]; try reflexivity.
  destruct ls; [reflexivity | apply rescore_result].
Qed.

Lemma rescore_paired t X fs task log :
  paired log -> paired (fst (rescore t X fs task log)).
Proof.
  intros Hl. unfold WhatIf.rescore.
  destruct (explain X t); cbn [fst]; apply paired_app; auto;
    try (intros X0 H; discriminate).
  - intros [|[|i]] X0 Hi; try discriminate.
    + inversion Hi; subst. exists 0, t. auto.
    + destruct i; discriminate.
  - intros [|i] X0 Hi; [discriminate | destruct i; discriminate].
  - intros [|i] X0 Hi; [discriminate | destruct i; discriminate].
Qed.

Lemma explain_target_paired fm target_fv t log :
  paired log -> paired (fst (explain_target fm target_fv t log)).
Proof.
  intros Hl. unfold WhatIf.explain_target.
  set (hs := high_features fm target_fv). set (ls := low_features fm target_fv).
  assert (paired (fst (match hs with
                       | [] => (log, Ok [])
                       | _ :: _ => rescore t (perturbed target_fv (stat_high agg_mean agg_std fm) hs) hs [] log
                       end))) as H1.
  { destruct hs; [exact Hl | now apply rescore_paired]. }
  destruct (match hs with [] => _ | _ => _ end) as [log1 [task| |]];
    cbn [fst] in *; try exact H1.
  destruct ls; [exact H1 | now apply rescore_paired].
Qed.

Lemma over_targets_paired fm target_fv : forall targets shap_values last log,
  paired log ->
  paired (fst (over_targets fm target_fv targets shap_values last log)).
Proof.
  induction targets as [|t targets IH]; intros shap_values last log Hl;
    cbn [WhatIf.over_targets]; [exact Hl|].
  pose proof (explain_target_paired fm target_fv t log Hl) as H1.
  destruct (explain_target fm target_fv t log) as [log1 [task| |]];
    cbn [fst] in *; [now apply IH | exact H1 | exact H1].
Qed.

(** Once the loop variable is bound, the value returned is the map of one
    target. *)
Lemma over_targets_single fm target_fv : forall targets shap_values t log,
  exists m, snd (over_targets fm target_fv targets shap_values (Some t) log)
            = Single m.
Proof.
  induction targets as [|t' targets IH]; intros shap_values t log;
    cbn [WhatIf.over_targets].
  - cbn [snd]. destruct (fassoc t shap_values); eexists; reflexivity.
  - destruct (explain_target fm target_fv t' log) as [log1 [task| |]];
      [apply IH | eexists; reflexivity | eexists; reflexivity].
Qed.

Lemma over_targets_last fm target_fv : forall targets shap_values last log m,
  targets <> [] ->
  snd (over_targets fm target_fv targets shap_values last log) = Single m ->
  m <> [] ->
  forall t0,
  snd (over_targets fm target_fv [List.last targets ""] [] (Some t0) [])
  = Single m.
Proof.
  induction targets as [|t targets IH];
    intros shap_values last log m Hne H Hm t0; [congruence|].
  cbn [WhatIf.over_targets] in H.
  pose proof (explain_target_result fm target_fv t log []) as Hr.
  destruct (explain_target fm target_fv t log) as [log1 r1]. cbn [snd] in Hr.
  destruct targets as [|t' targets].
  - cbn [List.last WhatIf.over_targets].
    destruct (explain_target fm target_fv t []) as [log2 r2]. cbn [snd] in Hr.
    subst r2. destruct r1 as [task| |]; cbn [snd] in *.
    + cbn [WhatIf.over_targets snd] in *.
      rewrite fassoc_dict_set_same in *. exact H.
    + inversion H. congruence.
    + inversion H. congruence.
  - change (List.last (t :: t' :: targets) "") with (List.last (t' :: targets) "").
    destruct r1 as [task| |]; cbn [snd] in H.
    + exact (IH _ _ _ m ltac:(discriminate) H Hm t0).
    + inversion H. congruence.
    + inversion H. congruence.
Qed.

Lemma get_what_if_without_target fm direct_id :
  let res := snd (get_what_if_shap_values fm direct_id None) in
  (forall ms, res = PerTarget ms -> ms = map (fun t => (t, [])) model_names) /\
  (forall m, res = Single m ->
     model_names <> [] /\
     (m <> [] ->
      snd (get_what_if_shap_values fm direct_id (Some (List.last model_names "")))
      = Single m)).
Proof.
  unfold WhatIf.get_what_if_shap_values.
  destruct (numeric_cols fm) as [|c cs]; cbn [snd on_exception].
  { split; [intros ms H; now inversion H | intros m H; discriminate]. }
  destruct (loc_row fm direct_id) as [target_fv| |]; cbn [snd on_exception];
    try (split; [intros ms H; now inversion H | intros m H; discriminate]).
  destruct model_names as [|t ts] eqn:En.
  { cbn [WhatIf.over_targets snd].
    split; [intros ms H; now inversion H | intros m H; discriminate]. }
  split.
  - intros ms H. exfalso. cbn [WhatIf.over_targets] in H.
    destruct (explain_target fm target_fv t []) as [log1 [task| |]];
      cbn [snd on_exception] in H; try discriminate.
    destruct (over_targets_single fm target_fv ts (dict_set t task []) t log1)
      as [m Hm]. rewrite En in Hm. congruence.
  - intros m H. split; [discriminate|]. intros Hm.
    rewrite <- En in H |- *.
    apply (over_targets_last fm target_fv model_names [] None [] m);
      [rewrite En; discriminate | exact H | exact Hm].
Qed.

Lemma get_what_if_in_range fm direct_id target target_fv :
  loc_row fm direct_id = Ok target_fv ->
  high_features fm target_fv = [] -> low_features fm target_fv = [] ->
  fst (get_what_if_shap_values fm direct_id target) = [].
Proof.
  intros Hloc Hh Hlow. unfold WhatIf.get_what_if_shap_values. rewrite Hloc.
  destruct (numeric_cols fm); [reflexivity|].
  assert (forall targets shap_values last,
            fst (over_targets fm target_fv targets shap_values last []) = [])
    as Hall.
  { induction targets as [|t targets IH]; intros shap_values last;
      cbn [WhatIf.over_targets]; [reflexivity|].
    unfold WhatIf.explain_target. rewrite Hh, Hlow. apply IH. }
  apply Hall.
Qed.

Lemma get_what_if_paired fm direct_id target :
  paired (fst (get_what_if_shap_values fm direct_id target)).
Proof.
  assert (paired []) as Hnil by (intros [|i] X H; discriminate).
  unfold WhatIf.get_what_if_shap_values.
  destruct (numeric_cols fm); [exact Hnil|].
  destruct (loc_row fm direct_id); try exact Hnil.
  now apply over_targets_paired.
Qed.

End Engine.

(** X11: called without a target, [get_what_if_shap_values] returns a
    mapping per target only with every map empty (no model, no numeric
    column, or a failure before the loop).  Otherwise the loop has bound
    [target], and what is returned is the map of a single target: if it is
    not empty, it is the map the call for the last model alone returns. *)
Theorem what_if_without_target_returns_last_model
        (agg_mean agg_std : list float -> float) (explanation : Type)
        (explain : list FRow -> string -> outcome explanation)
        (explanation_loc : explanation -> nat -> string -> outcome float)
        (predict_proba : list FRow -> outcome (list (string * list float)))
        (model_names : list string)
        (fm : FeatureMatrix) (direct_id : string) :
  let what_if :=
    get_what_if_shap_values agg_mean agg_std explanation explain
                            explanation_loc predict_proba model_names
                            fm direct_id in
  (forall ms, snd (what_if None) = PerTarget ms ->
     ms = map (fun t => (t, [])) model_names) /\
  (forall m, snd (what_if None) = Single m ->
     model_names <> [] /\
     (m <> [] -> snd (what_if (Some (List.last model_names ""))) = Single m)).
Proof.
  exact (get_what_if_without_target agg_mean agg_std explanation explain
           explanation_loc predict_proba model_names fm direct_id).
Qed.

Lemma what_if_without_target_returns_last_model_witness :
  two_models <> [] /\
  snd (two_what_if (Some (List.last two_models "")))
  = Single [("HR", mkEntry 0.5 0.25)].
Proof.
  destruct (what_if_without_target_returns_last_model mean10 std2 unit
              toy_explain toy_loc two_predict two_models toy_fm "100")
    as [_ H].
  destruct (H [("HR", mkEntry 0.5 0.25)]) as [H1 H2].
  - vm_compute. reflexivity.
  - split; [exact H1|]. apply H2. discriminate.
Defined.

(** X12: for an instance none of whose numeric features lies outside its
    reference interval, the model manager is not called at all. *)
Theorem what_if_in_range_makes_no_call
        (agg_mean agg_std : list float -> float) (explanation : Type)
        (explain : list FRow -> string -> outcome explanation)
        (explanation_loc : explanation -> nat -> string -> outcome float)
        (predict_proba : list FRow -> outcome (list (string * list float)))
        (model_names : list string)
        (fm : FeatureMatrix) (direct_id : string) (target : option string)
        (target_fv : list (string * fcell)) :
  loc_row fm direct_id = Ok target_fv ->
  high_features agg_mean agg_std fm target_fv = [] ->
  low_features agg_mean agg_std fm target_fv = [] ->
  fst (get_what_if_shap_values agg_mean agg_std explanation explain
         explanation_loc predict_proba model_names fm direct_id target) = [].
Proof.
  apply get_what_if_in_range.
Qed.

Lemma what_if_in_range_makes_no_call_witness :
  fst (get_what_if_shap_values mean10 std2 unit toy_explain toy_loc
         two_predict two_models toy_fm "101" None) = [].
Proof.
  apply (what_if_in_range_makes_no_call mean10 std2 unit toy_explain toy_loc
           two_predict two_models toy_fm "101" None
           [("HR", Num 9); ("AGE", Num 10); ("GENDER", Obj "M")]);
    vm_compute; reflexivity.
Defined.

(** X13: [predict_proba] is only called directly after a call to
    [explain] on the same matrix. *)
Theorem what_if_predicts_after_explaining
        (agg_mean agg_std : list float -> float) (explanation : Type)
        (explain : list FRow -> string -> outcome explanation)
        (explanation_loc : explanation -> nat -> string -> outcome float)
        (predict_proba : list FRow -> outcome (list (string * list float)))
        (model_names : list string)
        (fm : FeatureMatrix) (direct_id : string) (target : option string) :
  paired (fst (get_what_if_shap_values agg_mean agg_std explanation explain
                 explanation_loc predict_proba model_names fm direct_id
                 target)).
Proof.
  apply get_what_if_paired.
Qed.

End EngineFacts.

(** ** Loading and traversal helpers *)

Module EntitiesFacts.
Import Frame FrameFacts Entities.

Lemma filter_and {A} (p q : A -> bool) (l : list A) :
  filter q (filter p l) = filter (fun x => p x && q x) l.
Proof.
  induction l as [|a l IH]; [reflexivity|]. simpl.
  destruct (p a); simpl; [destruct (q a)|]; now rewrite IH.
Qed.

Lemma drop_missing_spec : forall key_columns df,
  drop_missing df key_columns
  = if forallb (has_column df) key_columns
    then Ok (select df (fun r =>
               forallb (fun c => value_eqb (cell r c) (cell r c)) key_columns))
    else Raise KeyError.
Proof.
  induction key_columns as [|c cs IH]; intros df.
  - cbn [drop_missing forallb]. unfold select. destruct df as [cols rs].
    cbn [columns rows]. f_equal. f_equal.
    induction rs as [|r rs IHr]; simpl; congruence.
  - cbn [drop_missing forallb]. destruct (has_column df c); [|reflexivity].
    cbn [andb]. rewrite IH. unfold select at 1 3, has_column. cbn [columns rows].
    destruct (forallb _ cs); [|reflexivity].
    unfold select. cbn [columns rows]. now rewrite filter_and.
Qed.

(** X14: when every key column is a column of the frame,
    [remove_nan_entries] returns the frame with exactly those rows, in
    their order, that have no missing value in any key column, and prints
    the number of rows pruned and the number of rows read; when a key
    column is not a column of the frame it raises [KeyError]. *)
Theorem remove_nan_entries_keeps_complete_rows (df : DataFrame)
        (key_columns : list string) (verbose : bool) :
  ((forall c, In c key_columns -> has_column df c = true) ->
   exists out,
     remove_nan_entries df key_columns verbose
     = Ok (out, if verbose
                then Some (List.length (rows df) - List.length (rows out),
                           List.length (rows df))
                else None) /\
     columns out = columns df /\
     rows out
     = filter (fun r => forallb (fun c => negb (label_eqb (cell r c) VNaN))
                                key_columns)
              (rows df) /\
     (forall r c, In r (rows out) -> In c key_columns -> cell r c <> VNaN)) /\
  ((exists c, In c key_columns /\ has_column df c = false) ->
   remove_nan_entries df key_columns verbose = Raise KeyError).
Proof.
  unfold remove_nan_entries. rewrite drop_missing_spec. split.
  - intros Hall. rewrite (proj2 (forallb_forall _ _) Hall). cbn [bind].
    eexists. split; [reflexivity|]. cbn [select columns rows].
    split; [reflexivity|].
    assert (forall r, forallb (fun c => value_eqb (cell r c) (cell r c)) key_columns
                      = forallb (fun c => negb (label_eqb (cell r c) VNaN))
                                key_columns) as Hext.
    { intros r. induction key_columns as [|c cs IH]; [reflexivity|]. simpl.
      rewrite IH by (intros c' Hc'; apply Hall; now right). f_equal.
      destruct (cell r c) as [z|s|t|]; simpl;
        rewrite ?Z.eqb_refl, ?String.eqb_refl; reflexivity. }
    split; [apply filter_ext; exact Hext|].
    intros r c Hr Hc Hnan. apply filter_In in Hr. destruct Hr as [_ Hr].
    rewrite forallb_forall in Hr. specialize (Hr c Hc). rewrite Hnan in Hr.
    discriminate.
  - intros (c & Hc & Hno). destruct (forallb (has_column df) key_columns) eqn:E;
      [|reflexivity].
    rewrite forallb_forall in E. rewrite (E c Hc) in Hno. discriminate.
Qed.

Lemma remove_nan_entries_keeps_complete_rows_witness :
  (exists out,
     remove_nan_entries raw_admissions ["SUBJECT_ID"; "HADM_ID"] true
     = Ok (out, Some (List.length (rows raw_admissions) - List.length (rows out),
                      List.length (rows raw_admissions))) /\
     rows out
     = [mkRow (VInt 0) [("HADM_ID", VInt 100); ("SUBJECT_ID", VInt 1)];
        mkRow (VInt 3) [("HADM_ID", VInt 103); ("SUBJECT_ID", VInt 2)]]) /\
  remove_nan_entries raw_admissions ["ROW_ID"] true = Raise KeyError.
Proof.
  split.
  - destruct (proj1 (remove_nan_entries_keeps_complete_rows raw_admissions
                       ["SUBJECT_ID"; "HADM_ID"] true))
      as (out & H1 & _ & H3 & _).
    + intros c [<-|[<-|[]]]; reflexivity.
    + exists out. split; [exact H1 | exact H3].
  - apply (proj2 (remove_nan_entries_keeps_complete_rows raw_admissions
                    ["ROW_ID"] true)).
    exists "ROW_ID". split; [now left | reflexivity].
Defined.

(** *** [get_forward_entities] *)

Lemma forward_loop_cycle g (cyc : list string) :
  (forall x, In x cyc ->
     exists y, In y cyc /\ In y (Path.get_forward_dataframes g x)) ->
  forall fuel pipe ids,
    (exists x, In x pipe /\ In x cyc) ->
    forward_loop g fuel pipe ids = OutOfFuel.
Proof.
  intros Hcyc. induction fuel as [|fuel IH]; intros pipe ids (x & Hp & Hx).
  - destruct pipe; [destruct Hp | reflexivity].
  - destruct pipe as [|h pipe]; [destruct Hp|]. cbn [forward_loop].
    apply IH. destruct Hp as [->|Hp].
    + destruct (Hcyc x Hx) as (y & Hy & Hf). exists y.
      split; [apply in_or_app; now right | exact Hy].
    + exists x. split; [apply in_or_app; now left | exact Hx].
Qed.

(** X15: [get_forward_entities] does not terminate when the entity lies
    in a set of entities each of which has a parent in the set, a cycle of
    relationships for instance: the pipe never empties, whatever the
    fuel. *)
Theorem get_forward_entities_never_returns_on_a_cycle (g : Path.graph)
        (entity_id : string) (cyc : list string) :
  In entity_id cyc ->
  (forall x, In x cyc ->
     exists y, In y cyc /\ In y (Path.get_forward_dataframes g x)) ->
  forall fuel, get_forward_entities g entity_id fuel = OutOfFuel.
Proof.
  intros Hin Hcyc fuel. unfold get_forward_entities.
  apply (forward_loop_cycle g cyc Hcyc). exists entity_id. split; [now left | exact Hin].
Qed.

Lemma get_forward_entities_never_returns_on_a_cycle_witness :
  get_forward_entities loop_graph "A" 1000 = OutOfFuel.
Proof.
  apply (get_forward_entities_never_returns_on_a_cycle loop_graph "A" ["A"; "B"]).
  - now left.
  - intros x [<-|[<-|[]]].
    + exists "B". split; [right; now left | now left].
    + exists "A". split; [now left | now left].
Defined.

Lemma forward_cost_mono g : forall n m x,
  n <= m -> forward_cost g n x <= forward_cost g m x.
Proof.
  induction n as [|n IH]; intros m x Hle.
  - destruct m; simpl; lia.
  - destruct m as [|m]; [lia|]. simpl. apply le_n_S.
    induction (Path.get_forward_dataframes g x) as [|p ps IHp]; simpl; [lia|].
    specialize (IH m p ltac:(lia)). lia.
Qed.

Lemma forward_rank g (rank : string -> nat) :
  (forall r, In r g -> rank (parent_dataframe r) < rank (child_dataframe r)) ->
  forall x p, In p (Path.get_forward_dataframes g x) -> rank p < rank x.
Proof.
  intros Hr x p Hp. unfold Path.get_forward_dataframes in Hp.
  apply in_map_iff in Hp. destruct Hp as (r & <- & Hin).
  apply filter_In in Hin. destruct Hin as [Hin Hc].
  apply String.eqb_eq in Hc. subst x. now apply Hr.
Qed.

Lemma list_sum_app_map (f : string -> nat) l1 l2 :
  list_sum (map f (l1 ++ l2)) = list_sum (map f l1) + list_sum (map f l2).
Proof. now rewrite map_app, list_sum_app. Qed.

Lemma forward_loop_total g (rank : string -> nat) :
  (forall r, In r g -> rank (parent_dataframe r) < rank (child_dataframe r)) ->
  forall fuel pipe ids,
    list_sum (map (fun x => forward_cost g (rank x) x) pipe) <= fuel ->
    exists out, forward_loop g fuel pipe ids = Ok out.
Proof.
  intros Hr. induction fuel as [|fuel IH]; intros pipe ids Hle.
  - destruct pipe as [|h pipe]; [eexists; reflexivity|]. simpl in Hle.
    destruct (rank h); simpl in Hle; lia.
  - destruct pipe as [|h pipe]; [eexists; reflexivity|]. cbn [forward_loop].
    apply IH. rewrite list_sum_app_map.
    set (cost := fun x => forward_cost g (rank x) x) in *.
    change (cost h + list_sum (map cost pipe) <= S fuel) in Hle.
    assert (list_sum (map cost (Path.get_forward_dataframes g h)) < cost h);
      [|lia].
    clear Hle IH. subst cost. cbn beta.
    pose proof (forward_rank g rank Hr h) as Hlt.
    destruct (rank h) as [|k] eqn:Ek.
    + destruct (Path.get_forward_dataframes g h) as [|p ps]; [simpl; lia|].
      specialize (Hlt p (or_introl eq_refl)). lia.
    + cbn [forward_cost]. apply Nat.lt_succ_r.
      induction (Path.get_forward_dataframes g h) as [|p ps IHp]; [simpl; lia|].
      cbn [map list_sum].
      pose proof (forward_cost_mono g (rank p) k p) as Hm.
      specialize (Hlt p (or_introl eq_refl)) as Hp.
      specialize (Hm ltac:(lia)).
      specialize (IHp (fun q Hq => Hlt q (or_intror Hq))).
      change (forward_cost g (rank p) p
              + list_sum (map (fun x => forward_cost g (rank x) x) ps)
              <= forward_cost g k p + list_sum (map (forward_cost g k) ps)).
      lia.
Qed.

Lemma forward_trans g a b c :
  In b (Path.get_forward_dataframes g a) -> forward g b c -> forward g a c.
Proof.
  intros Hb Hc. induction Hc as [|x y _ IH Hy].
  - apply forward_step with (b := a); [constructor | exact Hb].
  - apply forward_step with (b := x); assumption.
Qed.

Lemma forward_inv g a c :
  forward g a c ->
  c = a \/ exists b, In b (Path.get_forward_dataframes g a) /\ forward g b c.
Proof.
  induction 1 as [|x y _ IH Hy]; [now left|]. right.
  destruct IH as [->|(b & Hb & Hbx)].
  - exists y. split; [exact Hy | constructor].
  - exists b. split; [exact Hb|]. apply forward_step with (b := x); assumption.
Qed.

Lemma forward_loop_spec g : forall fuel pipe ids out,
  forward_loop g fuel pipe ids = Ok out ->
  (exists rest, out = ids ++ rest /\
                match pipe with [] => rest = [] | h :: _ => hd_error rest = Some h end) /\
  forall x, In x out <-> In x ids \/ exists y, In y pipe /\ forward g y x.
Proof.
  induction fuel as [|fuel IH]; intros pipe ids out H.
  - destruct pipe; [|discriminate]. inversion H; subst. split.
    + exists []. now rewrite app_nil_r.
    + intros x. split; [now left | intros [Hx|(y & [] & _)]; exact Hx].
  - destruct pipe as [|h pipe].
    + inversion H; subst. split.
      * exists []. now rewrite app_nil_r.
      * intros x. split; [now left | intros [Hx|(y & [] & _)]; exact Hx].
    + cbn [forward_loop] in H. destruct (IH _ _ _ H) as [(rest & -> & _) Hin].
      split.
      * exists (h :: rest). rewrite <- app_assoc. split; reflexivity.
      * intros x. rewrite Hin. split.
        -- intros [Hx|(y & Hy & Hyx)].
           ++ apply in_app_or in Hx. destruct Hx as [Hx|[<-|[]]]; [now left|].
              right. exists h. split; [now left | constructor].
           ++ right. apply in_app_or in Hy. destruct Hy as [Hy|Hy].
              ** exists y. split; [now right | exact Hyx].
              ** exists h. split; [now left|]. exact (forward_trans g h y x Hy Hyx).
        -- intros [Hx|(y & [<-|Hy] & Hyx)].
           ++ left. apply in_or_app. now left.
           ++ destruct (forward_inv g _ _ Hyx) as [->|(b & Hb & Hbx)].
              ** left. apply in_or_app. right. now left.
              ** right. exists b. split; [apply in_or_app; now right | exact Hbx].
           ++ right. exists y. split; [apply in_or_app; now left | exact Hyx].
Qed.

(** X16: when the relationships go from child to parent along a strictly
    decreasing rank (no cycle), [get_forward_entities] returns, with the
    entity first and then ancestors only, every ancestor at least once. *)
Theorem get_forward_entities_lists_the_ancestors (g : Path.graph)
        (rank : string -> nat) (entity_id : string) (fuel : nat) :
  (forall r, In r g -> rank (parent_dataframe r) < rank (child_dataframe r)) ->
  forward_cost g (rank entity_id) entity_id <= fuel ->
  exists ids,
    get_forward_entities g entity_id fuel = Ok (entity_id :: ids) /\
    forall x, In x (entity_id :: ids) <-> forward g entity_id x.
Proof.
  intros Hr Hfuel. unfold get_forward_entities.
  destruct (forward_loop_total g rank Hr fuel [entity_id] []) as [out Hout].
  { change (forward_cost g (rank entity_id) entity_id + 0 <= fuel). lia. }
  destruct (forward_loop_spec g _ _ _ _ Hout) as [(rest & -> & Hhd) Hin].
  destruct rest as [|h ids]; [discriminate|]. inversion Hhd; subst h.
  exists ids. split; [exact Hout|]. intros x. rewrite Hin. split.
  - intros [[]|(y & [<-|[]] & Hy)]. exact Hy.
  - intros Hx. right. exists entity_id. split; [now left | exact Hx].
Qed.

Lemma get_forward_entities_lists_the_ancestors_witness :
  exists ids,
    get_forward_entities Path.chain_graph "LABEVENTS" 3
    = Ok ("LABEVENTS" :: ids) /\
    forall x, In x ("LABEVENTS" :: ids) <-> forward Path.chain_graph "LABEVENTS" x.
Proof.
  apply (get_forward_entities_lists_the_ancestors Path.chain_graph chain_rank
           "LABEVENTS" 3).
  - intros r [<-|[<-|[]]]; vm_compute; lia.
  - vm_compute. lia.
Defined.

End EntitiesFacts.

(** ** Patient records *)

Module PatientFacts.
Import Frame Records FrameFacts Patient.

Lemma assoc_map_key {A} (f : string -> A) (c : string) (cols : list string) :
  In c cols -> assoc c (map (fun c => (c, f c)) cols) = Some (f c).
Proof.
  induction cols as [|a cols IH]; intros Hin; [destruct Hin|]. simpl.
  destruct (String.eqb_spec a c) as [->|Hne]; [reflexivity|].
  destruct Hin as [E|Hin]; [congruence | now apply IH].
Qed.

Lemma records_until_rows es subject_id entity_id time_index cutoff_time
      entity out :
  es_get es entity_id = Ok entity ->
  records_until es subject_id entity_id time_index cutoff_time = Ok out ->
  columns out = columns entity /\
  forall r, In r (rows out) ->
    In r (rows entity) /\
    (has_column entity "SUBJECT_ID" = true ->
     cell r "SUBJECT_ID" = subject_id) /\
    (forall ti, time_index = Some ti ->
       exists t tc, cell r ti = VTime t /\ cutoff_time = VTime tc /\ (t <= tc)%Z).
Proof.
  intros Hes H. unfold records_until in H.
  assert (forall ti ct o,
            get_records es subject_id entity_id ti ct = Ok o ->
            columns o = columns entity /\
            forall r, In r (rows o) ->
              In r (rows entity) /\
              (has_column entity "SUBJECT_ID" = true ->
               cell r "SUBJECT_ID" = subject_id) /\
              (forall ti' ct', ti = Some ti' -> ct = Some ct' ->
                 exists t, cell r ti' = VTime t /\ (t <= ct')%Z)) as Hrec.
  { intros ti ct o Ho.
    destruct (SelectionFacts.get_records_rows es subject_id entity_id ti ct
                entity o Hes Ho) as [Hc Hr].
    split; [exact Hc|]. intros r Hin. rewrite Hr in Hin.
    apply filter_In in Hin. destruct Hin as [Hin Hb].
    apply andb_true_iff in Hb. destruct Hb as [Hs Ht].
    split; [exact Hin|]. split.
    - intros Hcol. rewrite Hcol in Hs. cbn [negb orb] in Hs.
      now apply CutoffFacts.value_eqb_eq.
    - intros ti' ct' -> ->. destruct (cell r ti') as [z|s|t|]; try discriminate.
      exists t. split; [reflexivity|]. now apply Z.leb_le. }
  destruct cutoff_time as [z|s|tc|].
  - apply bind_ok in H. destruct H as (df & Hdf & H).
    destruct (Hrec _ _ _ Hdf) as [Hc Hr].
    destruct time_index as [ti|].
    + destruct (has_column df ti); discriminate.
    + inversion H; subst out. split; [exact Hc|]. intros r Hin.
      destruct (Hr r Hin) as (K1 & K2 & _). split; [exact K1|].
      split; [exact K2 | discriminate].
  - apply bind_ok in H. destruct H as (df & Hdf & H).
    destruct (Hrec _ _ _ Hdf) as [Hc Hr].
    destruct time_index as [ti|].
    + destruct (has_column df ti); discriminate.
    + inversion H; subst out. split; [exact Hc|]. intros r Hin.
      destruct (Hr r Hin) as (K1 & K2 & _). split; [exact K1|].
      split; [exact K2 | discriminate].
  - destruct (Hrec _ _ _ H) as [Hc Hr]. split; [exact Hc|]. intros r Hin.
    destruct (Hr r Hin) as (K1 & K2 & K3). split; [exact K1|].
    split; [exact K2|]. intros ti ->.
    destruct (K3 ti tc eq_refl eq_refl) as (t & Ht & Hle). eauto.
  - apply bind_ok in H. destruct H as (df & Hdf & H).
    destruct (Hrec _ _ _ Hdf) as [Hc Hr].
    destruct time_index as [ti|].
    + destruct (has_column df ti); [|discriminate]. inversion H; subst out.
      split; [exact Hc | intros r []].
    + inversion H; subst out. split; [exact Hc|]. intros r Hin.
      destruct (Hr r Hin) as (K1 & K2 & _). split; [exact K1|].
      split; [exact K2 | discriminate].
Qed.

(** The records of one entity: rows of the entity, missing values written
    ["N/A"], of the subject, dated at or before the cutoff time. *)
Lemma get_temporal_rows es task direct_id entity_id cutoff_times out :
  get_temporal es task direct_id (Some entity_id) cutoff_times
  = Ok (Records out) ->
  exists target_df ct entity arow rest_a crow rest_c,
    es_get es (target_entity task) = Ok target_df /\
    cutoff_times = Some ct /\
    es_get es entity_id = Ok entity /\
    rows_at target_df direct_id = arow :: rest_a /\
    rows_at ct direct_id = crow :: rest_c /\
    columns out = columns entity /\
    forall r, In r (rows out) ->
      exists r0,
        In r0 (rows entity) /\ label r = label r0 /\
        (forall c, In c (columns entity) ->
           cell r c = match cell r0 c with
                      | VNaN => VStr "N/A"
                      | x => x
                      end) /\
        (has_column entity "SUBJECT_ID" = true ->
         cell r0 "SUBJECT_ID" = cell arow "SUBJECT_ID") /\
        (forall ti, assoc entity_id (entity_configs task) = Some (Some ti) ->
           exists t tc,
             cell r0 ti = VTime t /\ cell crow "time" = VTime tc /\
             (t <= tc)%Z).
Proof.
  unfold get_temporal. intros H.
  apply bind_ok in H. destruct H as (target_df & Ht & H).
  apply bind_ok in H. destruct H as (subject_id & Hs & H).
  apply bind_ok in H. destruct H as (ct & Hct & H).
  apply bind_ok in H. destruct H as (cutoff_time & Hc & H).
  apply bind_ok in H. destruct H as (df & Hdf & H).
  inversion H; subst df. clear H.
  destruct cutoff_times as [ct'|]; [|discriminate]. inversion Hct; subst ct'.
  unfold first_at in Hs, Hc.
  destruct (rows_at target_df direct_id) as [|arow rest_a] eqn:Ea; [discriminate|].
  destruct (has_column target_df "SUBJECT_ID"); [|discriminate].
  inversion Hs; subst subject_id. clear Hs.
  destruct (rows_at ct direct_id) as [|crow rest_c] eqn:Ec; [discriminate|].
  destruct (has_column ct "time"); [|discriminate].
  inversion Hc; subst cutoff_time. clear Hc.
  unfold records_of in Hdf.
  destruct (assoc entity_id (entity_configs task)) as [time_index|] eqn:Ecfg;
    [|discriminate].
  apply bind_ok in Hdf. destruct Hdf as (df & Hdf & Hout).
  inversion Hout; subst out. clear Hout.
  assert (exists entity, es_get es entity_id = Ok entity) as [entity Hes].
  { unfold records_until, get_records in Hdf.
    destruct (es_get es entity_id) as [e| |]; [eauto| |];
      destruct (cell crow "time"); discriminate. }
  destruct (records_until_rows _ _ _ _ _ _ _ Hes Hdf) as [Hcols Hrows].
  exists target_df, ct, entity, arow, rest_a, crow, rest_c.
  repeat (split; [first [assumption | reflexivity]|]).
  intros r Hin. cbn [fillna rows] in Hin. apply in_map_iff in Hin.
  destruct Hin as (r0 & <- & Hr0).
  destruct (Hrows r0 Hr0) as (K1 & K2 & K3).
  exists r0. split; [exact K1|]. split; [reflexivity|]. split; [|split].
  - intros c Hc. unfold cell at 1. cbn [cells]. rewrite Hcols.
    now rewrite (assoc_map_key
                   (fun c => match cell r0 c with VNaN => VStr "N/A" | x => x end)).
  - exact K2.
  - intros ti Hti. inversion Hti; subst time_index. exact (K3 ti eq_refl).
Qed.

(** X17: when [get_temporal] returns the records of one entity, the
    instance labels a row of the target entity and a row of the cutoff
    frame, and every record returned is a row of the entity, its missing
    values written ["N/A"], such that: if the entity has a [SUBJECT_ID]
    column, the row belongs to the subject of the instance; and if the
    entity is configured with a time index, the row has a timestamp at or
    before the cutoff time of the instance.  The cutoff frame is taken to
    hold timestamps in its [time] column. *)
Theorem get_temporal_own_records_until_cutoff (es : EntitySet) (task : Task)
        (direct_id : value) (entity_id : string)
        (cutoff_times : option DataFrame) (out : DataFrame) :
  get_temporal es task direct_id (Some entity_id) cutoff_times
  = Ok (Records out) ->
  exists target_df ct entity arow rest_a crow rest_c,
    es_get es (target_entity task) = Ok target_df /\
    cutoff_times = Some ct /\
    es_get es entity_id = Ok entity /\
    rows_at target_df direct_id = arow :: rest_a /\
    rows_at ct direct_id = crow :: rest_c /\
    columns out = columns entity /\
    forall r, In r (rows out) ->
      exists r0,
        In r0 (rows entity) /\ label r = label r0 /\
        (forall c, In c (columns entity) ->
           cell r c = match cell r0 c with
                      | VNaN => VStr "N/A"
                      | x => x
                      end) /\
        (has_column entity "SUBJECT_ID" = true ->
         cell r0 "SUBJECT_ID" = cell arow "SUBJECT_ID") /\
        (forall ti, assoc entity_id (entity_configs task) = Some (Some ti) ->
           exists t tc,
             cell r0 ti = VTime t /\ cell crow "time" = VTime tc /\
             (t <= tc)%Z).
Proof. apply get_temporal_rows. Qed.

Lemma get_temporal_own_records_until_cutoff_witness :
  exists entity,
    es_get ward "LABEVENTS" = Ok entity /\
    columns ward_records = columns entity.
Proof.
  destruct (get_temporal_own_records_until_cutoff ward ward_task (VInt 100)
              "LABEVENTS" (Some ward_cutoffs) ward_records eq_refl)
    as (target_df & ct & entity & arow & rest_a & crow & rest_c
        & _ & _ & H3 & _ & _ & H6 & _).
  exists entity. split; [exact H3 | exact H6].
Defined.

Lemma Forall2_filter {A B} (R : A -> B -> Prop) (p : A -> bool) (q : B -> bool) :
  (forall a b, R a b -> p a = q b) ->
  forall l1 l2, Forall2 R l1 l2 -> Forall2 R (filter p l1) (filter q l2).
Proof.
  intros Hpq. induction 1 as [|a b l1 l2 Hab F IH]; [constructor|].
  simpl. rewrite (Hpq a b Hab). destruct (q b); [constructor|]; assumption.
Qed.

Lemma cutoff_rows_spec hours index_col time_col : forall rs out,
  cutoff_rows hours index_col time_col rs = Ok out ->
  Forall2 (fun a c => label c = label a /\
                      add_hours hours (cell a time_col) = Ok (cell c "time"))
          rs out.
Proof.
  induction rs as [|r rs IH]; intros out H; simpl in H.
  - inversion H. constructor.
  - apply bind_ok in H. destruct H as (t & Ht & H).
    apply bind_ok in H. destruct H as (tl & Htl & H). inversion H; subst out.
    constructor; [|now apply IH]. split; [reflexivity | exact Ht].
Qed.

(** X18: with the cutoff times a mortality task computes
    ([get_cutoff_times], admission time plus the window), the records
    [get_temporal] returns for an entity with a time index are dated at or
    before the admission time of the instance plus the window, [hours * 3600]
    seconds. *)
Theorem get_temporal_within_the_window (hours : Z) (index_col time_col : string)
        (es : EntitySet) (task : Task) (direct_id : value)
        (entity_id ti : string) (ct out : DataFrame) :
  target_entity task = "ADMISSIONS" ->
  assoc entity_id (entity_configs task) = Some (Some ti) ->
  get_cutoff_times hours index_col time_col es = Ok ct ->
  get_temporal es task direct_id (Some entity_id) (Some ct) = Ok (Records out) ->
  exists admissions entity arow rest,
    es_get es "ADMISSIONS" = Ok admissions /\
    es_get es entity_id = Ok entity /\
    rows_at admissions direct_id = arow :: rest /\
    forall r, In r (rows out) ->
      exists r0 t t0,
        In r0 (rows entity) /\ label r = label r0 /\
        cell r0 ti = VTime t /\ cell arow time_col = VTime t0 /\
        (t <= t0 + hours * 3600)%Z.
Proof.
  intros Htarget Hcfg Hct H.
  destruct (get_temporal_rows _ _ _ _ _ _ H)
    as (target_df & ct' & entity & arow & rest_a & crow & rest_c
        & H1 & H2 & H3 & H4 & H5 & _ & H7).
  inversion H2; subst ct'. clear H2. rewrite Htarget in H1.
  unfold get_cutoff_times in Hct. rewrite H1 in Hct. cbn [bind] in Hct.
  destruct (has_column target_df index_col && has_column target_df time_col);
    [|discriminate].
  apply bind_ok in Hct. destruct Hct as (rs & Hrs & Hct).
  inversion Hct; subst ct. clear Hct.
  pose proof (cutoff_rows_spec _ _ _ _ _ Hrs) as F.
  apply (Forall2_filter _ (fun r => label_eqb (label r) direct_id)
                          (fun r => label_eqb (label r) direct_id)) in F.
  2:{ intros a c [Hl _]. now rewrite Hl. }
  unfold rows_at in H4, H5. cbn [rows] in H5. rewrite H4, H5 in F.
  inversion F as [|? ? ? ? [_ Hadd] _]; subst.
  exists target_df, entity, arow, rest_a.
  split; [exact H1|]. split; [exact H3|]. split; [exact H4|].
  intros r Hin. destruct (H7 r Hin) as (r0 & K1 & K2 & _ & _ & K5).
  destruct (K5 ti Hcfg) as (t & tc & Ht & Htc & Hle).
  unfold add_hours in Hadd. rewrite Htc in Hadd.
  destruct (cell arow time_col) as [z|s|t0|]; try discriminate.
  inversion Hadd; subst tc. exists r0, t, t0. auto.
Qed.

Lemma get_temporal_within_the_window_witness :
  exists admissions entity arow rest,
    es_get ward "ADMISSIONS" = Ok admissions /\
    es_get ward "LABEVENTS" = Ok entity /\
    rows_at admissions (VInt 100) = arow :: rest /\
    forall r, In r (rows ward_records) ->
      exists r0 t t0,
        In r0 (rows entity) /\ label r = label r0 /\
        cell r0 "CHARTTIME" = VTime t /\ cell arow "ADMITTIME" = VTime t0 /\
        (t <= t0 + 48 * 3600)%Z.
Proof.
  apply (get_temporal_within_the_window 48 "HADM_ID" "ADMITTIME" ward ward_task
           (VInt 100) "LABEVENTS" "CHARTTIME" ward_cutoffs ward_records);
    reflexivity.
Defined.

End PatientFacts.

(** ** Feature descriptions and their grouping *)

Module DescriptorsFacts.
Import Descriptors.

(** *** Leaves *)

(** Induction on a feature, with the property known of its base
    features. *)
Lemma FeatureBase_induction (P : FeatureBase -> Prop) :
  (forall n p d c w bases,
     Forall P bases -> P (mkFeatureBase n p d c w bases)) ->
  forall f, P f.
Proof.
  intros step. fix IH 1. intros [n p d c w bases]. apply step.
  induction bases as [|b l IHl]; constructor; [apply IH | exact IHl].
Qed.

Lemma get_leaves_spec (f : FeatureBase) :
  get_leaves f <> [] /\
  forall leaf, In leaf (get_leaves f) -> base_features leaf = [].
Proof.
  induction f as [n p d c w bases IH] using FeatureBase_induction.
  destruct bases as [|b bases]; cbn [get_leaves].
  - split; [discriminate|]. intros leaf [<-|[]]. reflexivity.
  - inversion IH as [|? ? [Hb1 Hb2] Hrest]; subst. split.
    + cbn [flat_map]. destruct (get_leaves b); [congruence | discriminate].
    + intros leaf Hin. apply in_flat_map in Hin. destruct Hin as (x & Hx & Hl).
      rewrite Forall_forall in IH. exact (proj2 (IH x Hx) leaf Hl).
Qed.

Lemma distinct_In (x : string) (l : list string) : In x (distinct l) <-> In x l.
Proof.
  induction l as [|a l IH]; [reflexivity|]. cbn [distinct].
  destruct (existsb (String.eqb a) l) eqn:E.
  - rewrite IH. split; [now right|]. intros [<-|H]; [|exact H].
    now apply FeaturesFacts.existsb_eqb_In.
  - simpl. now rewrite IH.
Qed.

Lemma distinct_NoDup (l : list string) : NoDup (distinct l).
Proof.
  induction l as [|a l IH]; [constructor|]. cbn [distinct].
  destruct (existsb (String.eqb a) l) eqn:E; [exact IH|].
  constructor; [|exact IH]. rewrite distinct_In. intros Hin.
  apply FeaturesFacts.existsb_eqb_In in Hin. congruence.
Qed.

(** A list without repetition all of whose elements are [c] is [[c]] or
    empty. *)
Lemma NoDup_all_equal (c : string) (l : list string) :
  NoDup l -> (forall x, In x l -> x = c) -> l = [] \/ l = [c].
Proof.
  intros Hnd Hall. destruct l as [|a l]; [now left|]. right.
  assert (a = c) as -> by (apply Hall; now left).
  destruct l as [|b l]; [reflexivity|]. exfalso.
  assert (b = c) as -> by (apply Hall; right; now left).
  inversion Hnd as [|? ? Hn _]. apply Hn. now left.
Qed.

(** What the two helpers do with the list of names once it holds each
    name once. *)
Lemma choose_one (names : list string) (c : string) :
  NoDup names ->
  ((In c names /\ forall x, In x names -> x = c) <->
   (Nat.ltb 1 (List.length names) = false /\ hd_error names = Some c)).
Proof.
  intros Hnd. split.
  - intros [Hin Hall].
    destruct (NoDup_all_equal c names Hnd Hall) as [->| ->];
      [destruct Hin | split; reflexivity].
  - intros [Hlen Hhd]. destruct names as [|a [|b l]]; try discriminate.
    inversion Hhd; subst a. split; [now left|]. intros x [<-|[]]. reflexivity.
Qed.

Lemma choose_many (names : list string) (a b : string) :
  In a names -> In b names -> a <> b ->
  Nat.ltb 1 (List.length names) = true.
Proof.
  intros Ha Hb Hne. destruct names as [|x [|y l]]; try reflexivity.
  - destruct Ha.
  - destruct Ha as [<-|[]], Hb as [<-|[]]. congruence.
Qed.

(** X19: a feature has at least one leaf; [get_relevant_entity_id]
    returns [e] exactly when every leaf of the feature is defined on the
    dataframe [e]; and when two leaves are defined on different dataframes
    it raises [UserWarning] (it does not choose the first entity). *)
Theorem get_relevant_entity_id_spec (feature : FeatureBase) :
  get_leaves feature <> [] /\
  (forall e,
     get_relevant_entity_id feature = Returns e <->
     forall leaf, In leaf (get_leaves feature) -> dataframe_name leaf = e) /\
  ((exists l1 l2, In l1 (get_leaves feature) /\ In l2 (get_leaves feature) /\
                  dataframe_name l1 <> dataframe_name l2) ->
   get_relevant_entity_id feature = Raises (UserWarning multiple_entities)).
Proof.
  destruct (get_leaves_spec feature) as [Hne _]. split; [exact Hne|].
  unfold get_relevant_entity_id.
  set (names := map dataframe_name (get_leaves feature)).
  assert (forall x, In x (distinct names) <->
                    exists leaf, In leaf (get_leaves feature) /\
                                 dataframe_name leaf = x) as Hin.
  { intros x. rewrite distinct_In. unfold names. rewrite in_map_iff.
    split; intros (leaf & H1 & H2); exists leaf; auto. }
  split.
  - intros e.
    pose proof (choose_one (distinct names) e (distinct_NoDup names)) as Hc.
    split.
    + intros H. destruct (Nat.ltb 1 (List.length (distinct names))) eqn:El;
        [discriminate|].
      destruct (distinct names) as [|a l] eqn:Ed; [discriminate|].
      inversion H; subst a.
      destruct (proj2 Hc (conj eq_refl eq_refl)) as [_ Hall].
      intros leaf Hleaf. apply Hall. apply Hin. eauto.
    + intros Hall.
      destruct (proj1 Hc) as [Hlen Hhd].
      { split.
        - destruct (get_leaves feature) as [|leaf ls] eqn:E; [congruence|].
          apply Hin. exists leaf. split; [now left | apply Hall; now left].
        - intros x Hx. apply Hin in Hx. destruct Hx as (leaf & Hl & <-).
          now apply Hall. }
      rewrite Hlen. destruct (distinct names); inversion Hhd. reflexivity.
  - intros (l1 & l2 & H1 & H2 & Hne').
    rewrite (choose_many (distinct names) (dataframe_name l1) (dataframe_name l2));
      [reflexivity | apply Hin; eauto | apply Hin; eauto | exact Hne'].
Qed.

Lemma get_relevant_entity_id_spec_witness :
  get_relevant_entity_id glucose_trend = Returns "LABEVENTS" /\
  get_relevant_entity_id two_tables = Raises (UserWarning multiple_entities).
Proof.
  destruct (get_relevant_entity_id_spec glucose_trend) as (_ & H & _).
  destruct (get_relevant_entity_id_spec two_tables) as (_ & _ & K).
  split.
  - apply H. intros leaf [<-|[<-|[]]]; reflexivity.
  - apply K. eexists. eexists. split; [left; reflexivity|].
    split; [right; left; reflexivity | discriminate].
Defined.

(** X20: for a feature whose leaves have column names,
    [get_relevant_column_id] returns [c] exactly when [c] is the one leaf
    column that is not ignored; it raises [IndexError] when every leaf
    column is ignored, and [UserWarning] when two different leaf columns
    are not ignored. *)
Theorem get_relevant_column_id_spec (feature : FeatureBase)
        (ignored names : list string) :
  leaf_columns (get_leaves feature) = Returns names ->
  (forall c,
     get_relevant_column_id feature (Some ignored) = Returns c <->
     In c names /\ ~ In c ignored /\
     forall x, In x names -> ~ In x ignored -> x = c) /\
  ((forall x, In x names -> In x ignored) ->
   get_relevant_column_id feature (Some ignored) = Raises (Builtin IndexError)) /\
  ((exists a b, In a names /\ In b names /\ ~ In a ignored /\ ~ In b ignored /\
                a <> b) ->
   get_relevant_column_id feature (Some ignored)
   = Raises (UserWarning multiple_variables)).
Proof.
  intros Hl. unfold get_relevant_column_id. rewrite Hl. cbn [and_then].
  set (kept := filter (fun col => negb (existsb (String.eqb col) ignored))
                      (distinct names)).
  assert (forall x, In x kept <-> In x names /\ ~ In x ignored) as Hin.
  { intros x. unfold kept. rewrite filter_In, distinct_In, negb_true_iff.
    pose proof (FeaturesFacts.existsb_eqb_In x ignored) as He.
    destruct (existsb (String.eqb x) ignored).
    - split; [intros [_ H]; discriminate|].
      intros [_ H]. destruct H. now apply He.
    - split; intros [H _]; (split; [exact H|]); [|reflexivity].
      intros Hi. apply He in Hi. discriminate. }
  assert (NoDup kept) as Hnd by (apply NoDup_filter, distinct_NoDup).
  split; [|split].
  - intros c. pose proof (choose_one kept c Hnd) as Hc. split.
    + intros H. destruct (Nat.ltb 1 (List.length kept)) eqn:El; [discriminate|].
      destruct kept as [|a l] eqn:Ek; [discriminate|]. inversion H; subst a.
      destruct (proj2 Hc (conj eq_refl eq_refl)) as [Hc1 Hall].
      apply Hin in Hc1. destruct Hc1. split; [assumption|]. split; [assumption|].
      intros x Hx Hni. apply Hall. apply Hin. auto.
    + intros (H1 & H2 & H3). destruct (proj1 Hc) as [Hlen Hhd].
      { split; [apply Hin; auto|]. intros x Hx. apply Hin in Hx.
        destruct Hx. now apply H3. }
      rewrite Hlen. destruct kept; inversion Hhd. reflexivity.
  - intros Hall. destruct kept as [|a l] eqn:Ek; [reflexivity|]. exfalso.
    assert (In a (a :: l)) as Ha by now left.
    apply Hin in Ha. destruct Ha as [Ha1 Ha2]. apply Ha2. now apply Hall.
  - intros (a & b & Ha & Hb & Hna & Hnb & Hne).
    rewrite (choose_many kept a b); [reflexivity | | | exact Hne];
      apply Hin; auto.
Qed.

Lemma get_relevant_column_id_spec_witness :
  get_relevant_column_id glucose_trend (Some ["CHARTTIME"; "chartime"])
  = Returns "VALUENUM" /\
  get_relevant_column_id glucose_trend (Some ["CHARTTIME"; "VALUENUM"])
  = Raises (Builtin IndexError) /\
  get_relevant_column_id glucose_trend (Some [])
  = Raises (UserWarning multiple_variables).
Proof.
  split; [|split].
  - apply (proj1 (get_relevant_column_id_spec glucose_trend
                    ["CHARTTIME"; "chartime"] ["VALUENUM"; "CHARTTIME"]
                    eq_refl)).
    split; [now left|]. split.
    + intros [H|[H|[]]]; discriminate.
    + intros x [<-|[<-|[]]] Hn; [reflexivity|]. destruct Hn. now left.
  - apply (proj1 (proj2 (get_relevant_column_id_spec glucose_trend
                           ["CHARTTIME"; "VALUENUM"] ["VALUENUM"; "CHARTTIME"]
                           eq_refl))).
    intros x [<-|[<-|[]]]; [right; now left | now left].
  - apply (proj2 (proj2 (get_relevant_column_id_spec glucose_trend
                           [] ["VALUENUM"; "CHARTTIME"] eq_refl))).
    exists "VALUENUM", "CHARTTIME".
    split; [now left|]. split; [right; now left|].
    split; [intros []|]. split; [intros [] | discriminate].
Defined.

(** *** Grouping *)

Lemma update_nth_app_r {A} (f : A -> A) (l1 l2 : list A) (n : nat) :
  update_nth (List.length l1 + n) f (l1 ++ l2) = l1 ++ update_nth n f l2.
Proof. induction l1 as [|a l1 IH]; simpl; [reflexivity | now rewrite IH]. Qed.

Lemma set_parent_next (upd rest : list Info) (f : Info) (p : nat) :
  set_parent (List.length upd) p (upd ++ f :: rest)
  = upd ++ with_parent p f :: rest.
Proof.
  unfold set_parent. rewrite <- (Nat.add_0_r (List.length upd)).
  now rewrite update_nth_app_r.
Qed.

Lemma update_nth_by_id (g : Info -> Info) (k : string) :
  (forall x, id (g x) = id x) ->
  forall nodes q group_node,
    NoDup (map id nodes) ->
    nth_error nodes q = Some group_node -> id group_node = k ->
    update_nth q g nodes
    = map (fun x => if String.eqb (id x) k then g x else x) nodes.
Proof.
  intros Hg. induction nodes as [|a nodes IH]; intros q group_node Hnd Hq Hk.
  - destruct q; discriminate.
  - inversion Hnd as [|? ? Hnotin Hnd']; subst.
    assert (forall l : list Info, ~ In (id group_node) (map id l) ->
              map (fun x => if String.eqb (id x) (id group_node) then g x else x) l
              = l) as Hsame.
    { intros l Hl. induction l as [|b l IHl]; [reflexivity|]. simpl.
      destruct (String.eqb_spec (id b) (id group_node)) as [E|_].
      - destruct Hl. left. exact E.
      - f_equal. apply IHl. intros H. apply Hl. now right. }
    destruct q as [|q]; simpl in Hq |- *.
    + inversion Hq; subst a. rewrite String.eqb_refl. f_equal.
      symmetry. now apply Hsame.
    + destruct (String.eqb_spec (id a) (id group_node)) as [E|_].
      * destruct Hnotin. rewrite E. apply in_map. eapply nth_error_In; eauto.
      * f_equal. now apply (IH q group_node).
Qed.

Lemma positions_app key k : forall l1 l2 i,
  positions key k (l1 ++ l2) i
  = positions key k l1 i ++ positions key k l2 (i + List.length l1).
Proof.
  induction l1 as [|f l1 IH]; intros l2 i; simpl.
  - now rewrite Nat.add_0_r.
  - rewrite IH, <- Nat.add_succ_comm. now destruct (has_key key k f).
Qed.

Lemma positions_none key k : forall l i,
  (forall f, In f l -> has_key key k f = false) -> positions key k l i = [].
Proof.
  induction l as [|f l IH]; intros i H; [reflexivity|]. simpl.
  rewrite (H f) by now left. apply IH. intros x Hx. apply H. now right.
Qed.

Lemma assoc_some_In {A} k (v : A) l : Frame.assoc k l = Some v -> In (k, v) l.
Proof.
  induction l as [|[k' v'] l IH]; simpl; [discriminate|].
  destruct (String.eqb_spec k' k) as [->|].
  - intros E; inversion E. now left.
  - intros H. right. now apply IH.
Qed.

Lemma Forall2_In_left {A B} (R : A -> B -> Prop) l1 l2 x :
  Forall2 R l1 l2 -> In x l1 -> exists y, In y l2 /\ R x y.
Proof.
  induction 1 as [|a b l1 l2 Hab F IH]; intros Hin; [destruct Hin|].
  destruct Hin as [<-|Hin]; [exists b; split; [now left | exact Hab]|].
  destruct (IH Hin) as (y & Hy & Hr). exists y. split; [now right | exact Hr].
Qed.

Lemma group_loop_new key node f fs i g group k :
  key f = Some k -> Frame.assoc k group = None ->
  group_loop key node (f :: fs) i g group
  = group_loop key node fs (S i)
               (set_parent i (List.length g + 1) (g ++ [node f i]))
               ((k, List.length g + 1) :: group).
Proof.
  intros Hk Ha. cbn [group_loop]. rewrite Hk, Ha, length_app. reflexivity.
Qed.

Lemma first_keys_snoc key done f :
  first_keys key (done ++ [f])
  = match key f with
    | Some k =>
        if existsb (String.eqb k) (first_keys key done)
        then first_keys key done else first_keys key done ++ [k]
    | None => first_keys key done
    end.
Proof. unfold first_keys. now rewrite fold_left_app. Qed.

Section Loop.

Variable key : Info -> option string.
Variable node : Info -> nat -> Info.
Hypothesis node_id : forall f i k, key f = Some k -> id (node f i) = k.
Hypothesis node_children :
  forall f i k, key f = Some k -> childrenIds (node f i) = Some [i].
Variable features : list Info.

(** The features met so far have their parent, the others are as they
    were, and the group nodes follow. *)
Lemma group_loop_spec : forall fs done upd nodes group,
  features = done ++ fs ->
  List.length upd = List.length done ->
  Forall2 (fun f g =>
             match key f with
             | None => g = f
             | Some k => exists p, Frame.assoc k group = Some p /\
                                   g = with_parent p f
             end) done upd ->
  (forall k p, Frame.assoc k group = Some p ->
     exists q group_node,
       p = List.length features + q + 1 /\
       nth_error nodes q = Some group_node /\ id group_node = k) ->
  (forall group_node, In group_node nodes ->
     Frame.assoc (id group_node) group <> None) ->
  NoDup (map id nodes) ->
  Forall (fun group_node =>
            exists f i,
              nth_error features i = Some f /\
              key f = Some (id group_node) /\
              hd_error (positions key (id group_node) done 0) = Some i /\
              group_node
              = with_children (positions key (id group_node) done 0)
                              (node f i)) nodes ->
  map id nodes = first_keys key done ->
  exists out,
    group_loop key node fs (List.length done) (upd ++ fs ++ nodes) group
    = Ok out /\
    grouped key node features out.
Proof.
  induction fs as [|f fs IH];
    intros done upd nodes group Hfeat Hlen R1 R2 R3 Hnd R4 R5.
  - cbn [group_loop app]. exists (upd ++ nodes). split; [reflexivity|].
    rewrite app_nil_r in Hfeat. subst done.
    exists upd, nodes. split; [reflexivity|]. split; [exact R5|].
    split; [|split; assumption].
    revert R1. apply Forall2_impl. intros x g Hx.
    destruct (key x) as [k|]; [|exact Hx]. destruct Hx as (p & Hp & ->).
    destruct (R2 k p Hp) as (q & group_node & -> & Hq & Hk).
    exists (List.length features + q + 1), group_node.
    split; [reflexivity|]. split; [lia|]. split; [|exact Hk].
    rewrite nth_error_app2 by lia.
    replace (List.length features + q + 1 - 1 - List.length upd) with q by lia.
    exact Hq.
  - assert (features = (done ++ [f]) ++ fs) as Hfeat'
      by (now rewrite <- app_assoc).
    assert (List.length (done ++ [f]) = S (List.length done)) as Hlen1
      by (rewrite length_app; simpl; lia).
    assert (nth_error features (List.length done) = Some f) as Hnth.
    { rewrite Hfeat, nth_error_app2, Nat.sub_diag by lia. reflexivity. }
    assert (List.length features
            = List.length upd + List.length (f :: fs)) as Hn.
    { rewrite Hfeat, length_app. lia. }
    destruct (key f) as [k|] eqn:Ek.
    + destruct (Frame.assoc k group) as [p|] eqn:Ea.
      * (* a group met before *)
        cbn [group_loop]. rewrite Ek, Ea.
        destruct (R2 k p Ea) as (q & group_node & Hp & Hq & Hk).
        assert (p - 1 = List.length (upd ++ f :: fs) + q) as Hpos
          by (rewrite length_app; lia).
        rewrite Forall_forall in R4.
        destruct (R4 group_node (nth_error_In _ _ Hq))
          as (f0 & i0 & Hf0 & Hkey0 & Hhd0 & Hnode).
        unfold append_child. rewrite app_assoc, Hpos.
        rewrite nth_error_app2, Nat.add_comm, Nat.add_sub, Hq by lia.
        assert (childrenIds group_node
                = Some (positions key (id group_node) done 0)) as Hch
          by (rewrite Hnode at 1; reflexivity).
        rewrite Hch. cbn [bind].
        rewrite Nat.add_comm, update_nth_app_r, <- app_assoc.
        cbn [app]. rewrite <- Hlen, set_parent_next, Hlen.
        set (g := with_children
                    (positions key (id group_node) done 0 ++ [List.length done])).
        rewrite (update_nth_by_id g k (fun x => eq_refl) nodes q group_node Hnd Hq Hk).
        set (nodes' := map (fun x => if String.eqb (id x) k then g x else x) nodes).
        assert (map id nodes' = map id nodes) as Hids.
        { unfold nodes'. rewrite map_map. apply map_ext. intros x.
          now destruct (String.eqb (id x) k). }
        replace (upd ++ with_parent p f :: fs ++ nodes')
          with ((upd ++ [with_parent p f]) ++ fs ++ nodes')
          by (now rewrite <- app_assoc).
        rewrite <- Hlen1.
        apply (IH (done ++ [f]) (upd ++ [with_parent p f]) nodes' group);
          try assumption.
        -- rewrite !length_app. simpl. lia.
        -- apply Forall2_app; [exact R1|]. constructor; [|constructor].
           rewrite Ek. eauto.
        -- intros k' p' Hk'. destruct (R2 k' p' Hk') as (q' & n' & E & Hq' & Hid').
           exists q'. eexists. split; [exact E|]. split.
           ++ unfold nodes'. rewrite nth_error_map, Hq'. reflexivity.
           ++ destruct (String.eqb (id n') k); exact Hid'.
        -- intros x Hx. apply (in_map id) in Hx. rewrite Hids in Hx.
           apply in_map_iff in Hx. destruct Hx as (y & <- & Hy). now apply R3.
        -- now rewrite Hids.
        -- unfold nodes'. apply Forall_forall. intros x Hx.
           apply in_map_iff in Hx. destruct Hx as (y & <- & Hy).
           destruct (R4 y Hy) as (fy & iy & Hfy & Hky & Hhdy & Hy').
           rewrite <- Hk in *.
           destruct (String.eqb_spec (id y) (id group_node)) as [E|E].
           ++ exists fy, iy. unfold g. cbn [id with_children].
              rewrite positions_app. cbn [positions]. unfold has_key.
              rewrite Ek, E, String.eqb_refl, Nat.add_0_l.
              split; [exact Hfy|]. split; [congruence|]. split.
              ** rewrite E in Hhdy.
                 destruct (positions key (id group_node) done 0);
                   [discriminate | exact Hhdy].
              ** rewrite Hy' at 1. rewrite E. reflexivity.
           ++ exists fy, iy. rewrite positions_app. cbn [positions].
              unfold has_key. rewrite Ek.
              apply not_eq_sym in E. apply String.eqb_neq in E. rewrite E.
              rewrite app_nil_r. auto.
        -- rewrite Hids, (first_keys_snoc key done f), Ek, <- R5.
           rewrite (proj2 (FeaturesFacts.existsb_eqb_In k (map id nodes)));
             [reflexivity|].
           rewrite <- Hk. apply in_map. eapply nth_error_In; eauto.
      * (* a new group *)
        rewrite (group_loop_new key node f fs _ _ group k Ek Ea).
        set (group_node := node f (List.length done)).
        set (p := List.length (upd ++ (f :: fs) ++ nodes) + 1).
        rewrite <- app_assoc. cbn [app].
        rewrite <- Hlen, set_parent_next, Hlen.
        replace (upd ++ with_parent p f :: (fs ++ nodes) ++ [group_node])
          with ((upd ++ [with_parent p f]) ++ fs ++ (nodes ++ [group_node]))
          by (now rewrite <- !app_assoc).
        rewrite <- Hlen1.
        assert (p = List.length features + List.length nodes + 1) as Hp.
        { unfold p. rewrite !length_app. cbn [List.length] in *. lia. }
        assert (id group_node = k) as Hgid by (apply node_id; exact Ek).
        assert (~ In k (map id nodes)) as Hfresh.
        { intros Hin. apply in_map_iff in Hin. destruct Hin as (x & <- & Hx).
          exact (R3 x Hx Ea). }
        assert (forall x, In x done -> has_key key k x = false) as Hnone.
        { intros x Hx. unfold has_key. destruct (key x) as [k'|] eqn:Ex;
            [|reflexivity].
          destruct (String.eqb_spec k' k) as [->|]; [|reflexivity].
          exfalso. destruct (Forall2_In_left _ _ _ _ R1 Hx) as (g & _ & Hg).
          rewrite Ex in Hg. destruct Hg as (p' & Hp' & _). congruence. }
        apply (IH (done ++ [f]) (upd ++ [with_parent p f])
                  (nodes ++ [group_node]) ((k, p) :: group));
          try assumption.
        -- rewrite !length_app. simpl. lia.
        -- apply Forall2_app.
           ++ revert R1. apply Forall2_impl. intros x g Hx.
              destruct (key x) as [k'|] eqn:Ex; [|exact Hx].
              destruct Hx as (p' & Hp' & ->). exists p'. split; [|reflexivity].
              cbn [Frame.assoc]. destruct (String.eqb_spec k k') as [->|];
                [congruence | exact Hp'].
           ++ constructor; [|constructor]. rewrite Ek. exists p.
              cbn [Frame.assoc]. rewrite String.eqb_refl. auto.
        -- intros k' p' Hk'. cbn [Frame.assoc] in Hk'.
           destruct (String.eqb_spec k k') as [<-|Hne].
           ++ inversion Hk'; subst p'. exists (List.length nodes), group_node.
              split; [exact Hp|]. split; [|exact Hgid].
              rewrite nth_error_app2, Nat.sub_diag by lia. reflexivity.
           ++ destruct (R2 k' p' Hk') as (q & n' & E & Hq & Hid').
              exists q, n'. split; [exact E|]. split; [|exact Hid'].
              rewrite nth_error_app1; [exact Hq|].
              apply nth_error_Some. congruence.
        -- intros x Hx. cbn [Frame.assoc].
           destruct (String.eqb_spec k (id x)) as [E|E]; [discriminate|].
           apply in_app_or in Hx. destruct Hx as [Hx|[<-|[]]]; [now apply R3|].
           destruct E. now rewrite Hgid.
        -- rewrite map_app. cbn [map]. apply NoDup_app;
             [exact Hnd | constructor; [intros [] | constructor] |].
           intros x Hx [<-|[]]. apply Hfresh. now rewrite <- Hgid.
        -- apply Forall_app. split.
           ++ rewrite Forall_forall in R4 |- *. intros x Hx.
              destruct (R4 x Hx) as (fx & ix & H1 & H2 & H3 & H4).
              exists fx, ix. rewrite positions_app. cbn [positions].
              unfold has_key. rewrite Ek.
              destruct (String.eqb_spec k (id x)) as [E|_].
              ** destruct Hfresh. rewrite E. now apply in_map.
              ** rewrite app_nil_r. auto.
           ++ constructor; [|constructor]. exists f, (List.length done).
              rewrite Hgid, positions_app, (positions_none key k done 0 Hnone).
              cbn [positions app]. unfold has_key.
              rewrite Ek, String.eqb_refl. cbn [hd_error].
              split; [exact Hnth|]. split; [reflexivity|]. split; [reflexivity|].
              pose proof (node_children f (List.length done) k Ek) as Hc.
              fold group_node in Hc |- *. destruct group_node.
              cbn in Hc. inversion Hc. reflexivity.
        -- rewrite map_app, (first_keys_snoc key done f), Ek, <- R5.
           cbn [map]. rewrite Hgid.
           destruct (existsb (String.eqb k) (map id nodes)) eqn:Ex;
             [|reflexivity].
           apply FeaturesFacts.existsb_eqb_In in Ex. contradiction.
    + (* not grouped *)
      cbn [group_loop]. rewrite Ek.
      replace (upd ++ (f :: fs) ++ nodes) with ((upd ++ [f]) ++ fs ++ nodes)
        by (now rewrite <- app_assoc).
      rewrite <- Hlen1.
      apply (IH (done ++ [f]) (upd ++ [f]) nodes group); try assumption.
      * rewrite !length_app. simpl. lia.
      * apply Forall2_app; [exact R1|]. constructor; [|constructor].
        now rewrite Ek.
      * revert R4. apply Forall_impl. intros x (fx & ix & H1 & H2 & H3 & H4).
        exists fx, ix. rewrite positions_app. cbn [positions].
        unfold has_key. rewrite Ek, app_nil_r. auto.
      * now rewrite (first_keys_snoc key done f), Ek.
Qed.

End Loop.

(** *** The two grouping functions *)

Lemma entity_loop_generic : forall fs i g group,
  entity_loop fs i g group = group_loop entity_key entity_node fs i g group.
Proof.
  induction fs as [|f fs IH]; intros i g group; [reflexivity|].
  cbn [entity_loop group_loop]. unfold entity_key at 1.
  destruct (parentId f) eqn:Ep; [apply IH|].
  destruct (Frame.assoc (entityId f) group).
  - destruct (append_child n i g); cbn [bind]; [apply IH | reflexivity..].
  - unfold entity_node. rewrite Ep. apply IH.
Qed.

Lemma where_item_loop_generic : forall fs i g group out,
  where_item_loop fs i g group = Ok out ->
  group_loop where_key where_node fs i g group = Ok out.
Proof.
  induction fs as [|f fs IH]; intros i g group out H; [exact H|].
  cbn [where_item_loop group_loop] in *. unfold where_key at 1.
  destruct (parentId f) eqn:Ep; [now apply IH|].
  destruct (item f) as [[it|]|] eqn:Ei; [|discriminate | now apply IH].
  destruct (Frame.assoc (itemId it) group).
  - destruct (append_child n i g); cbn [bind] in *; [now apply IH | discriminate..].
  - destruct (itemAlias it) as [a|] eqn:Ea; [|discriminate].
    unfold where_node. rewrite Ei, Ea, Ep in *. now apply IH.
Qed.

(** A feature whose grouping by item cannot fail: if it has no parent and
    has the key [item], the item is a dict with the key [itemAlias]. *)
Lemma where_item_loop_safe : forall fs i g group,
  Forall (fun f => parentId f = None ->
                   match item f with
                   | Some None => False
                   | Some (Some it) => itemAlias it <> None
                   | None => True
                   end) fs ->
  where_item_loop fs i g group
  = group_loop where_key where_node fs i g group.
Proof.
  induction fs as [|f fs IH]; intros i g group Hsafe; [reflexivity|].
  inversion Hsafe as [|? ? Hf Hrest]; subst.
  cbn [where_item_loop group_loop]. unfold where_key at 1.
  destruct (parentId f) eqn:Ep; [now apply IH|]. specialize (Hf eq_refl).
  destruct (item f) as [[it|]|] eqn:Ei; [|destruct Hf | now apply IH].
  destruct (Frame.assoc (itemId it) group).
  - destruct (append_child n i g); cbn [bind]; [now apply IH | reflexivity..].
  - destruct (itemAlias it) as [a|] eqn:Ea; [|congruence].
    unfold where_node. rewrite Ei, Ea, Ep. now apply IH.
Qed.

Lemma where_node_id f i k : where_key f = Some k -> id (where_node f i) = k.
Proof.
  unfold where_key, where_node. destruct (parentId f); [discriminate|].
  destruct (item f) as [[it|]|]; try discriminate. intros E. now inversion E.
Qed.

Lemma where_node_children f i k :
  where_key f = Some k -> childrenIds (where_node f i) = Some [i].
Proof.
  unfold where_key, where_node. destruct (parentId f); [discriminate|].
  destruct (item f) as [[it|]|]; try discriminate. reflexivity.
Qed.

Lemma entity_node_id f i k : entity_key f = Some k -> id (entity_node f i) = k.
Proof.
  unfold entity_key. destruct (parentId f); [discriminate|].
  intros E. now inversion E.
Qed.

Lemma group_loop_start key node
      (node_id : forall f i k, key f = Some k -> id (node f i) = k)
      (node_children :
         forall f i k, key f = Some k -> childrenIds (node f i) = Some [i])
      (features : list Info) :
  exists out,
    group_loop key node features 0 features [] = Ok out /\
    grouped key node features out.
Proof.
  destruct (group_loop_spec key node node_id node_children features
              features [] [] [] []) as (out & H & Hg);
    try (constructor; fail); try reflexivity; try discriminate.
  - intros x [].
  - exists out. cbn [app List.length] in H. rewrite app_nil_r in H. auto.
Qed.

(** X22: when [group_features_by_where_item] returns, the list is the
    input, each feature without parent that has an item given a parent,
    followed by one group node per item identifier, in order of first
    occurrence.  The parent [p] of a feature is such that the node at
    position [p - 1] is the group node of its item (a parent is a position
    plus one); the children of a group node are the positions of the
    features of its item, in ascending order; a feature with a parent or
    without item is unchanged.  The function returns when every feature
    without parent that has the key [item] has an item with the key
    [itemAlias]. *)
Theorem group_features_by_where_item_groups (features : list Info) :
  (forall out,
     group_features_by_where_item features = Ok out ->
     grouped where_key where_node features out) /\
  (Forall (fun f => parentId f = None ->
                    match item f with
                    | Some None => False
                    | Some (Some it) => itemAlias it <> None
                    | None => True
                    end) features ->
   exists out, group_features_by_where_item features = Ok out).
Proof.
  destruct (group_loop_start where_key where_node where_node_id
              where_node_children features) as (out & H & Hg).
  unfold group_features_by_where_item. split.
  - intros out' H'. apply where_item_loop_generic in H'.
    assert (out' = out) as -> by congruence. exact Hg.
  - intros Hsafe. exists out. now rewrite where_item_loop_safe.
Qed.

Lemma group_features_by_where_item_groups_witness :
  grouped where_key where_node
    [info_sodium_mean; info_age; info_glucose_mean; info_glucose_std]
    [with_parent 5 info_sodium_mean; info_age;
     with_parent 6 info_glucose_mean; with_parent 6 info_glucose_std;
     mkInfo "50983" None "LABEVENTS" (Some "VALUENUM") (Some "Sodium")
            "mean(Sodium)"
            (Some (Some (mkItem "ITEMID" "50983" (Some (Some "Sodium")))))
            None (Some [0]);
     mkInfo "50931" None "LABEVENTS" (Some "VALUENUM") (Some "Glucose")
            "mean(Glucose)"
            (Some (Some (mkItem "ITEMID" "50931" (Some (Some "Glucose")))))
            None (Some [2; 3])] /\
  exists out,
    group_features_by_where_item
      [info_sodium_mean; info_age; info_glucose_mean; info_glucose_std]
    = Ok out.
Proof.
  destruct (group_features_by_where_item_groups
              [info_sodium_mean; info_age; info_glucose_mean; info_glucose_std])
    as [H K].
  split.
  - apply H. reflexivity.
  - apply K. repeat constructor; cbn; discriminate.
Defined.

(** X23: [group_features_by_entity] always returns; the list is the
    input, each feature without parent given as parent the position plus
    one of the group node of its entity, followed by one group node per
    entity, whose children are the positions of the features of the entity
    that had no parent; hence every feature of the input has a parent in
    the output. *)
Theorem group_features_by_entity_groups (features : list Info) :
  exists out,
    group_features_by_entity features = Ok out /\
    grouped entity_key entity_node features out /\
    List.length features <= List.length out /\
    forall j g, j < List.length features -> nth_error out j = Some g ->
                parentId g <> None.
Proof.
  destruct (group_loop_start entity_key entity_node entity_node_id
              (fun f i k _ => eq_refl) features) as (out & H & Hg).
  exists out. unfold group_features_by_entity. rewrite entity_loop_generic.
  split; [exact H|]. split; [exact Hg|].
  destruct Hg as (upd & nodes & -> & _ & F & _).
  pose proof (Forall2_length F) as Hlen. rewrite length_app. split; [lia|].
  intros j g Hj Hnth. rewrite nth_error_app1 in Hnth by lia.
  clear H. revert j g Hj Hnth.
  induction F as [|f g0 fs gs Hfg F IH]; intros j g Hj Hnth.
  - simpl in Hj. lia.
  - destruct j as [|j]; simpl in Hnth.
    + inversion Hnth; subst g0. unfold entity_key in Hfg.
      destruct (parentId f) eqn:Ep; [subst g; congruence|].
      destruct Hfg as (p & group_node & -> & _). discriminate.
    + apply (IH j g); [simpl in Hj; lia | exact Hnth].
Qed.

(** *** Grouping by item after grouping by entity *)

Lemma where_item_loop_skip : forall pre rest i g group,
  Forall (fun x => parentId x <> None) pre ->
  where_item_loop (pre ++ rest) i g group
  = where_item_loop rest (i + List.length pre) g group.
Proof.
  induction pre as [|x pre IH]; intros rest i g group H.
  - cbn [app List.length]. now rewrite Nat.add_0_r.
  - inversion H as [|? ? Hx Hpre]; subst. cbn [app where_item_loop List.length].
    destruct (parentId x); [|congruence].
    rewrite IH by exact Hpre. f_equal. lia.
Qed.

(** X24: the two groupings do not commute: grouping by item the result of
    grouping by entity raises [TypeError] whenever some feature had no
    parent, for the group nodes of the entities have the key [item] with
    the value [None]. *)
Theorem group_by_item_after_entity_fails (features out : list Info) :
  group_features_by_entity features = Ok out ->
  Exists (fun f => parentId f = None) features ->
  group_features_by_where_item out = Raise TypeError.
Proof.
  intros H Hex. unfold group_features_by_entity in H.
  rewrite entity_loop_generic in H.
  destruct (group_loop_start entity_key entity_node entity_node_id
              (fun f i k _ => eq_refl) features) as (out' & H' & Hg).
  assert (out' = out) as -> by congruence. clear H H'.
  destruct Hg as (upd & nodes & -> & _ & F & _ & Hnodes).
  pose proof (Forall2_length F) as Hlen.
  assert (Forall (fun g => parentId g <> None) upd) as Hupd.
  { clear Hex Hlen. induction F as [|f g fs gs Hfg F IH]; constructor; [|exact IH].
    unfold entity_key in Hfg. destruct (parentId f) eqn:Ep; [subst g; congruence|].
    destruct Hfg as (p & group_node & -> & _). discriminate. }
  assert (nodes <> []) as Hne.
  { apply Exists_exists in Hex. destruct Hex as (f & Hin & Hf).
    destruct (Forall2_In_left _ _ _ _ F Hin) as (g & _ & Hg).
    unfold entity_key in Hg. rewrite Hf in Hg.
    destruct Hg as (p & group_node & _ & Hp & Hnth & _).
    intros ->. rewrite app_nil_r in Hnth.
    assert (p - 1 < List.length upd); [|lia].
    apply nth_error_Some. congruence. }
  destruct nodes as [|group_node nodes]; [congruence|].
  inversion Hnodes as [|? ? (f & i & _ & Hkey & _ & Hnode) _]; subst.
  unfold group_features_by_where_item.
  rewrite where_item_loop_skip by exact Hupd. cbn [where_item_loop].
  unfold entity_key in Hkey. destruct (parentId f) eqn:Ep; [discriminate|].
  rewrite Hnode. cbn [parentId item with_children entity_node].
  rewrite Ep. reflexivity.
Qed.

Lemma group_by_item_after_entity_fails_witness :
  group_features_by_where_item
    [with_parent 3 info_glucose_mean; with_parent 4 info_age;
     entity_node info_glucose_mean 0; entity_node info_age 1]
  = Raise TypeError.
Proof.
  apply (group_by_item_after_entity_fails [info_glucose_mean; info_age]).
  - reflexivity.
  - left. reflexivity.
Defined.

(** *** Descriptions and their grouping by item *)

Lemma get_feature_description_shape feature item_dict ignore_columns info :
  get_feature_description feature item_dict ignore_columns = Returns info ->
  parentId info = None /\
  match item info with
  | None => True
  | Some None => False
  | Some (Some it) =>
      match item_dict with
      | None => itemAlias it = None
      | Some _ => itemAlias it <> None
      end
  end.
Proof.
  unfold get_feature_description. intros H.
  destruct (get_relevant_entity_id feature) as [e|]; [|discriminate].
  cbn [and_then] in H.
  destruct (get_relevant_column_id feature _) as [c|]; [|discriminate].
  cbn [and_then] in H.
  destruct (where_name feature) as [w|].
  - destruct (split_second " = " w) as [i|]; [|discriminate].
    cbn [and_then] in H. destruct item_dict as [d|].
    + destruct (Frame.assoc e d); [|discriminate].
      inversion H; subst info. cbn. split; [reflexivity | discriminate].
    + inversion H; subst info. cbn. split; reflexivity.
  - inversion H; subst info. cbn. split; [reflexivity | exact I].
Qed.

Lemma where_item_loop_no_alias : forall fs i g,
  Forall (fun info =>
            parentId info = None /\
            match item info with
            | None => True
            | Some None => False
            | Some (Some it) => itemAlias it = None
            end) fs ->
  Exists (fun info => item info <> None) fs ->
  where_item_loop fs i g [] = Raise KeyError.
Proof.
  induction fs as [|f fs IH]; intros i g Hall Hex; [inversion Hex|].
  inversion Hall as [|? ? [Hp Hi] Hrest]; subst. cbn [where_item_loop].
  rewrite Hp. destruct (item f) as [[it|]|] eqn:Ei; [|destruct Hi|].
  - cbn [Frame.assoc]. now rewrite Hi.
  - apply IH; [exact Hrest|]. inversion Hex as [? ? Hf|]; [congruence | assumption].
Qed.

(** X21: descriptions made by [get_feature_description] without an item
    dictionary cannot be grouped by item as soon as one of them has an
    item: [group_features_by_where_item] raises [KeyError] on the missing
    [itemAlias]; descriptions made with an item dictionary are always
    grouped. *)
Theorem descriptions_group_by_item_with_labels_only (features : list Info) :
  (Forall (fun info =>
             exists feature ignore_columns,
               get_feature_description feature None ignore_columns
               = Returns info) features ->
   Exists (fun info => item info <> None) features ->
   group_features_by_where_item features = Raise KeyError) /\
  (Forall (fun info =>
             exists feature item_dict ignore_columns,
               get_feature_description feature (Some item_dict) ignore_columns
               = Returns info) features ->
   exists out,
     group_features_by_where_item features = Ok out /\
     grouped where_key where_node features out).
Proof.
  split.
  - intros Hall Hex. apply where_item_loop_no_alias; [|exact Hex].
    revert Hall. apply Forall_impl. intros info (f & ign & H).
    exact (get_feature_description_shape f None ign info H).
  - intros Hall.
    destruct (group_loop_start where_key where_node where_node_id
                where_node_children features) as (out & H & Hg).
    exists out. split; [|exact Hg]. unfold group_features_by_where_item.
    rewrite where_item_loop_safe; [exact H|].
    revert Hall. apply Forall_impl. intros info (f & d & ign & Hd) _.
    destruct (get_feature_description_shape f (Some d) ign info Hd) as [_ Hi].
    destruct (item info) as [[it|]|]; auto.
Qed.

Lemma descriptions_group_by_item_with_labels_only_witness :
  group_features_by_where_item [info_age; info_glucose_code] = Raise KeyError /\
  exists out,
    group_features_by_where_item [info_age; info_glucose_mean] = Ok out /\
    grouped where_key where_node [info_age; info_glucose_mean] out.
Proof.
  split.
  - apply (proj1 (descriptions_group_by_item_with_labels_only
                    [info_age; info_glucose_code])).
    + constructor; [|constructor; [|constructor]].
      * exists (mkFeatureBase "AGE" None "PATIENTS" (Some "AGE") None []), None.
        reflexivity.
      * exists glucose_mean, None. reflexivity.
    + right. left. discriminate.
  - apply (proj2 (descriptions_group_by_item_with_labels_only
                    [info_age; info_glucose_mean])).
    constructor; [|constructor; [|constructor]].
    + exists (mkFeatureBase "AGE" None "PATIENTS" (Some "AGE") None []),
        lab_items, None.
      reflexivity.
    + exists glucose_mean, lab_items, None. reflexivity.
Defined.

End DescriptorsFacts.

(** ** The primitive [AgeRange] *)

Module AgeRangeFacts.
Import AgeRange.

(** X25: [age_range] sorts every day count into exactly one category: a
    negative count is ["unknown"], and the bounds 28, 365 and 730 belong to
    the range that starts there. *)
Theorem age_range_partition (day : Z) :
  (age_range day = "unknown" <-> day < 0)%Z /\
  (age_range day = newborn <-> 0 <= day < 28)%Z /\
  (age_range day = infant <-> 28 <= day < 365)%Z /\
  (age_range day = toddler <-> 365 <= day < 730)%Z /\
  (age_range day = preschooler <-> 730 <= day)%Z.
Proof.
  unfold age_range, age_ranges. cbn [first_range].
  change (4 * 7)%Z with 28%Z. change (365 * 2)%Z with 730%Z.
  destruct (Z.leb_spec 0 day), (Z.ltb_spec day 28), (Z.leb_spec 28 day),
    (Z.ltb_spec day 365), (Z.leb_spec 365 day), (Z.ltb_spec day 730),
    (Z.leb_spec 730 day); cbn [andb]; try lia;
    repeat split; intros; try lia; try discriminate; try reflexivity.
Qed.

End AgeRangeFacts.

(** ** Feature generation: the windows end at the cutoff time *)

Module FeaturizationFacts.
Import Frame Records Featurization.

Lemma known_le time v :
  known true (VTime time) v = true -> exists t, v = VTime t /\ (t <= time)%Z.
Proof.
  destruct v as [z|s|t|]; simpl; try discriminate.
  intros H. exists t. split; [reflexivity | now apply Z.leb_le].
Qed.

Lemma known_late time t' :
  (forall c, time = VTime c -> (c < t')%Z) ->
  known true time (VTime t') = false.
Proof.
  intros H. destruct time as [z|s|c|]; simpl; try reflexivity.
  apply Z.leb_gt. now apply H.
Qed.

Lemma window_rows time_index include time name df ti r :
  assoc name time_index = Some ti ->
  In r (rows (window time_index include time name df)) ->
  In r (rows df) /\ known include time (cell r ti) = true.
Proof.
  intros Hti. unfold window. rewrite Hti. unfold select. simpl.
  intros H. now apply filter_In in H.
Qed.

Lemma es_get_known_at time_index include time es name df :
  es_get (known_at time_index include time es) name = Ok df ->
  exists full, es_get es name = Ok full /\
               df = window time_index include time name full.
Proof.
  unfold es_get, known_at. simpl.
  induction (dataframes es) as [|[k v] l IH]; simpl; [discriminate|].
  destruct (String.eqb_spec k name) as [->|Hne].
  - intros H. inversion H. now exists v.
  - exact IH.
Qed.

Lemma known_at_skips_late time_index time es name ti cols pre post late t' :
  assoc name time_index = Some ti ->
  cell late ti = VTime t' ->
  (forall c, time = VTime c -> (c < t')%Z) ->
  known_at time_index true time
           (es_set es name (mkFrame cols (pre ++ late :: post)))
  = known_at time_index true time
             (es_set es name (mkFrame cols (pre ++ post))).
Proof.
  intros Hti Hlate Hafter. unfold known_at, es_set. simpl.
  do 3 f_equal. unfold window. rewrite Hti. unfold select. simpl.
  f_equal. rewrite !filter_app. simpl.
  now rewrite Hlate, (known_late _ _ Hafter).
Qed.

Section Dfs.

Variable build_features :
  list (string * list string) * list Relationship -> string ->
  list (list string) -> list (string * list string) -> nat -> Primitives ->
  list FeatureBase.

Lemma generate_features_calls_dfs es time_index task target cutoff_time kwargs
      fm fl :
  _generate_features build_features es time_index task target cutoff_time
                     kwargs = Ok (fm, fl) ->
  exists used,
    cutoff_frame es task cutoff_time = Ok used /\
    fm = calculate_feature_matrix fl es time_index used true.
Proof.
  unfold _generate_features. intros H.
  destruct (cutoff_frame es task cutoff_time) as [used| |]; simpl in H;
    try discriminate.
  destruct (Path.find_path _ _ _) as [paths| |]; simpl in H; try discriminate.
  unfold dfs in H.
  destruct (has_column used "instance_id" && has_column used "time");
    [|discriminate].
  inversion H; subst. now exists used.
Qed.

Lemma generate_features_skips_late es time_index task target cutoff_time
      kwargs name ti cols pre post late t' fm fl :
  assoc name time_index = Some ti ->
  cell late ti = VTime t' ->
  _generate_features build_features
    (es_set es name (mkFrame cols (pre ++ late :: post)))
    time_index task target (Some cutoff_time) kwargs = Ok (fm, fl) ->
  exists fm',
    _generate_features build_features
      (es_set es name (mkFrame cols (pre ++ post)))
      time_index task target (Some cutoff_time) kwargs = Ok (fm', fl) /\
    columns fm' = columns fm /\
    forall k c,
      nth_error (rows cutoff_time) k = Some c ->
      (forall time, cell c "time" = VTime time -> (time < t')%Z) ->
      nth_error (rows fm') k = nth_error (rows fm) k.
Proof.
  intros Hti Hlate. unfold _generate_features. cbn [cutoff_frame bind].
  cbn [es_set relationships].
  destruct (Path.find_path _ _ _) as [paths| |]; cbn [bind]; try discriminate.
  unfold dfs.
  destruct (has_column cutoff_time "instance_id"
            && has_column cutoff_time "time"); [|discriminate].
  intros H. inversion H as [[Hfm Hfl]]. clear H.
  eexists. split; [reflexivity|]. split; [reflexivity|].
  intros k c Hk Hafter. unfold calculate_feature_matrix. cbn [rows].
  rewrite !nth_error_map, Hk. cbn [option_map]. do 2 f_equal.
  apply map_ext. intros f.
  now rewrite (known_at_skips_late time_index (cell c "time") es name ti cols
                 pre post late t' Hti Hlate Hafter).
Qed.

Lemma generate_features_same es time_index task target cutoff_time kwargs
      name ti cols pre post late t' :
  assoc name time_index = Some ti ->
  cell late ti = VTime t' ->
  (forall c time,
     In c (rows cutoff_time) -> cell c "time" = VTime time -> (time < t')%Z) ->
  _generate_features build_features
    (es_set es name (mkFrame cols (pre ++ late :: post)))
    time_index task target (Some cutoff_time) kwargs
  = _generate_features build_features
      (es_set es name (mkFrame cols (pre ++ post)))
      time_index task target (Some cutoff_time) kwargs.
Proof.
  intros Hti Hlate Hafter. unfold _generate_features.
  cbn [cutoff_frame bind es_set relationships].
  destruct (Path.find_path _ _ _) as [paths| |]; cbn [bind]; try reflexivity.
  unfold dfs.
  destruct (has_column cutoff_time "instance_id"
            && has_column cutoff_time "time"); [|reflexivity].
  do 2 f_equal. unfold calculate_feature_matrix. f_equal.
  apply map_ext_in. intros c Hc. f_equal. apply map_ext. intros f.
  now rewrite (known_at_skips_late time_index (cell c "time") es name ti cols
                 pre post late t' Hti Hlate (fun time => Hafter c time Hc)).
Qed.

(** C1: the windows of feature generation and of record selection end at
    the cutoff time.  (0) [_generate_features] returns: given a cutoff
    frame with the columns [instance_id] and [time] and a source entity
    to which [find_path] finds paths, it returns the features built and
    their feature matrix.  (1) When [_generate_features] returns a feature
    matrix, it has one row per row of the cutoff frame handed to [dfs]
    (the frame it was given, if it was given one), each feature of that
    row being calculated for the instance on the entity set cut down to
    the windows at the cutoff time of that row, the cutoff time included;
    and every row of the window of a dataframe with a time index is a row
    of that dataframe whose time-index value is at or before the cutoff
    time.  (2) A row dated after the cutoff time of an instance has no
    influence on the features of that instance: with such a row inserted
    anywhere in a dataframe, [_generate_features] returns the same
    features and, for every instance whose cutoff time is before the date
    of the row, the same row of values as without it; and when the row is
    dated after every cutoff time, the call with it and the call without
    it have the same outcome.  (3) Every row
    [get_records] returns has a time-index value at or before the cutoff
    time, and a row dated after the cutoff time has no influence on what
    it returns. *)
Theorem generate_features_no_leakage :
  (forall es time_index task target given kwargs,
     _generate_features build_features es time_index task target (Some given)
                        kwargs <> OutOfFuel /\
     forall paths,
       has_column given "instance_id" = true ->
       has_column given "time" = true ->
       Path.find_path (relationships es) (target_entity task) target
         = Ok paths ->
       let fl := build_features (schema es) (target_entity task) paths
                                (ignore_variables task) 2 kwargs in
       _generate_features build_features es time_index task target
                          (Some given) kwargs
       = Ok (calculate_feature_matrix fl es time_index given true, fl)) /\
  (forall es time_index task target cutoff_time kwargs fm fl,
     _generate_features build_features es time_index task target cutoff_time
                        kwargs = Ok (fm, fl) ->
     exists used,
       cutoff_frame es task cutoff_time = Ok used /\
       (forall given, cutoff_time = Some given -> used = given) /\
       rows fm
       = map (fun c =>
                mkRow (cell c "instance_id")
                  (map (fun f =>
                          (get_name f,
                           calculate f
                             (known_at time_index true (cell c "time") es)
                             (cell c "instance_id")))
                       fl))
             (rows used) /\
       forall c time name df ti r,
         In c (rows used) -> cell c "time" = VTime time ->
         es_get (known_at time_index true (cell c "time") es) name = Ok df ->
         assoc name time_index = Some ti ->
         In r (rows df) ->
         (exists full, es_get es name = Ok full /\ In r (rows full)) /\
         exists t, cell r ti = VTime t /\ (t <= time)%Z) /\
  (forall es time_index task target cutoff_time kwargs name ti cols pre post
          late t' fm fl,
     assoc name time_index = Some ti ->
     cell late ti = VTime t' ->
     _generate_features build_features
       (es_set es name (mkFrame cols (pre ++ late :: post)))
       time_index task target (Some cutoff_time) kwargs = Ok (fm, fl) ->
     exists fm',
       _generate_features build_features
         (es_set es name (mkFrame cols (pre ++ post)))
         time_index task target (Some cutoff_time) kwargs = Ok (fm', fl) /\
       columns fm' = columns fm /\
       forall k c,
         nth_error (rows cutoff_time) k = Some c ->
         (forall time, cell c "time" = VTime time -> (time < t')%Z) ->
         nth_error (rows fm') k = nth_error (rows fm) k) /\
  (forall es time_index task target cutoff_time kwargs name ti cols pre post
          late t',
     assoc name time_index = Some ti ->
     cell late ti = VTime t' ->
     (forall c time,
        In c (rows cutoff_time) -> cell c "time" = VTime time ->
        (time < t')%Z) ->
     _generate_features build_features
       (es_set es name (mkFrame cols (pre ++ late :: post)))
       time_index task target (Some cutoff_time) kwargs
     = _generate_features build_features
         (es_set es name (mkFrame cols (pre ++ post)))
         time_index task target (Some cutoff_time) kwargs) /\
  (forall es subject_id entity_id time_index cutoff_time,
     (forall df,
        get_records es subject_id entity_id (Some time_index)
                    (Some cutoff_time) = Ok df ->
        forall r, In r (rows df) ->
          exists t, cell r time_index = VTime t /\ (t <= cutoff_time)%Z) /\
     (forall cols pre post late t',
        cell late time_index = VTime t' -> (cutoff_time < t')%Z ->
        get_records (es_set es entity_id (mkFrame cols (pre ++ late :: post)))
                    subject_id entity_id (Some time_index) (Some cutoff_time)
        = get_records (es_set es entity_id (mkFrame cols (pre ++ post)))
                      subject_id entity_id (Some time_index)
                      (Some cutoff_time))).
Proof.
  split; [|split; [|split; [|split]]].
  - intros es time_index task target given kwargs. split.
    + unfold _generate_features. cbn [cutoff_frame bind].
      pose proof (PathFacts.find_path_total (relationships es)
                    (target_entity task) target) as Hfuel.
      destruct (Path.find_path _ _ _) as [paths| |]; cbn [bind];
        [|discriminate|congruence].
      unfold dfs. now destruct (_ && _).
    + intros paths Hi Ht Hp fl. unfold _generate_features.
      cbn [cutoff_frame bind]. rewrite Hp. cbn [bind]. unfold dfs.
      now rewrite Hi, Ht.
  - intros es time_index task target cutoff_time kwargs fm fl H.
    destruct (generate_features_calls_dfs _ _ _ _ _ _ _ _ H)
      as (used & Hused & ->).
    exists used. split; [exact Hused|]. split.
    { intros given ->. simpl in Hused. now inversion Hused. }
    split; [reflexivity|].
    intros c time name df ti r _ Htime Hget Hti Hr.
    rewrite Htime in Hget.
    destruct (es_get_known_at _ _ _ _ _ _ Hget) as (full & Hfull & ->).
    destruct (window_rows _ _ _ _ _ _ _ Hti Hr) as [Hin Hk].
    split; [now exists full | now apply known_le].
  - intros. eapply generate_features_skips_late; eassumption.
  - intros. eapply generate_features_same; eassumption.
  - intros es subject_id entity_id time_index cutoff_time. split.
    + apply RecordsFacts.get_records_window.
    + apply RecordsFacts.get_records_skips_late.
Qed.

End Dfs.

Lemma generate_features_no_leakage_witness :
  _generate_features lab_features Patient.ward ward_time_index ward_task
                     "LABEVENTS" (Some Patient.ward_cutoffs) lab_kwargs
  = Ok (calculate_feature_matrix [sum_valuenum] Patient.ward ward_time_index
                                 Patient.ward_cutoffs true,
        [sum_valuenum]) /\
  (exists used,
     cutoff_frame Patient.ward ward_task (Some Patient.ward_cutoffs)
       = Ok used /\
     (forall given, Some Patient.ward_cutoffs = Some given -> used = given) /\
     rows ward_features
     = map (fun c =>
              mkRow (cell c "instance_id")
                (map (fun f =>
                        (get_name f,
                         calculate f
                           (known_at ward_time_index true (cell c "time")
                                     Patient.ward)
                           (cell c "instance_id")))
                     [sum_valuenum]))
           (rows used) /\
     forall c time name df ti r,
       In c (rows used) -> cell c "time" = VTime time ->
       es_get (known_at ward_time_index true (cell c "time") Patient.ward)
              name = Ok df ->
       assoc name ward_time_index = Some ti ->
       In r (rows df) ->
       (exists full, es_get Patient.ward name = Ok full /\ In r (rows full)) /\
       exists t, cell r ti = VTime t /\ (t <= time)%Z) /\
  (exists fm',
     _generate_features lab_features ward_without_late ward_time_index
                        ward_task "LABEVENTS" (Some Patient.ward_cutoffs)
                        lab_kwargs = Ok (fm', [sum_valuenum]) /\
     columns fm' = columns ward_features /\
     forall k c,
       nth_error (rows Patient.ward_cutoffs) k = Some c ->
       (forall time, cell c "time" = VTime time -> (time < 49 * hour)%Z) ->
       nth_error (rows fm') k = nth_error (rows ward_features) k) /\
  _generate_features lab_features ward_with_late ward_time_index ward_task
                     "LABEVENTS" (Some Patient.ward_cutoffs) lab_kwargs
  = _generate_features lab_features ward_without_late ward_time_index
                       ward_task "LABEVENTS" (Some Patient.ward_cutoffs)
                       lab_kwargs /\
  get_records ward_with_late (VInt 10) "LABEVENTS" (Some "CHARTTIME")
              (Some (48 * hour)%Z)
  = get_records ward_without_late (VInt 10) "LABEVENTS" (Some "CHARTTIME")
                (Some (48 * hour)%Z).
Proof.
  pose proof (generate_features_no_leakage lab_features)
    as (Hreturns & Hwindow & Hlate & Hsame & Hrecords).
  split; [|split; [|split; [|split]]].
  - apply (proj2 (Hreturns Patient.ward ward_time_index ward_task "LABEVENTS"
                           Patient.ward_cutoffs lab_kwargs)
             [["ADMISSIONS"]; ["ADMISSIONS"; "LABEVENTS"]]);
      reflexivity.
  - apply (Hwindow Patient.ward ward_time_index ward_task "LABEVENTS"
                   (Some Patient.ward_cutoffs) lab_kwargs ward_features
                   [sum_valuenum]).
    reflexivity.
  - apply (Hlate Patient.ward ward_time_index ward_task "LABEVENTS"
                 Patient.ward_cutoffs lab_kwargs "LABEVENTS" "CHARTTIME"
                 lab_columns lab_rows [] late_row (49 * hour)%Z
                 ward_features [sum_valuenum]);
      reflexivity.
  - apply (Hsame Patient.ward ward_time_index ward_task "LABEVENTS"
                 Patient.ward_cutoffs lab_kwargs "LABEVENTS" "CHARTTIME"
                 lab_columns lab_rows [] late_row (49 * hour)%Z);
      [reflexivity | reflexivity |].
    intros c time [<-|[]] H. inversion H. reflexivity.
  - apply (proj2 (Hrecords Patient.ward (VInt 10) "LABEVENTS" "CHARTTIME"
                           (48 * hour)%Z))
      with (t' := (49 * hour)%Z); reflexivity.
Defined.

(** The end-to-end scenario: with a cutoff 48 hours after the admission,
    the event charted at 49 hours is not in the sum. *)
Example lab_tests_scenario :
  _lab_tests lab_features Patient.ward ward_time_index ward_task
             (Some Patient.ward_cutoffs)
  = Ok (ward_features, [sum_valuenum]).
Proof. reflexivity. Qed.

(** With a cutoff one hour later it is: the windows are not empty, and
    the cutoff time is what moves them. *)
Example lab_tests_later_cutoff :
  _lab_tests lab_features Patient.ward ward_time_index ward_task
    (Some (mkFrame ["instance_id"; "time"]
             [mkRow (VInt 100) [("instance_id", VInt 100);
                                ("time", VTime (49 * hour))]]))
  = Ok (mkFrame ["SUM(LABEVENTS.VALUENUM)"]
          [mkRow (VInt 100) [("SUM(LABEVENTS.VALUENUM)", VInt 111)]],
        [sum_valuenum]).
Proof. reflexivity. Qed.

(** Without cutoff frame the cutoff time of an admission is its admission
    time, here before every event. *)
Example lab_tests_default_cutoff :
  _lab_tests lab_features Patient.ward ward_time_index ward_task None
  = Ok (mkFrame ["SUM(LABEVENTS.VALUENUM)"]
          [mkRow (VInt 100) [("SUM(LABEVENTS.VALUENUM)", VInt 0)]],
        [sum_valuenum]).
Proof. reflexivity. Qed.

End FeaturizationFacts.
